(** * YaraBench: rule extraction and composite scoring

    A shallow embedding of the rule-extraction and scoring pipeline of
    YaraBench (src/parsing/yara_extractor.py, src/utils/text_utils.py,
    src/evaluation/{yara_validator,file_matcher,llm_judge}.py and
    src/benchmark.py), followed by the properties of the specification;
    then of the code around it (src/utils/data_utils.py,
    src/llm/{prompts,client,generation}.py, the loop of [run] and the
    selection of the levels in src/cli.py), with further properties
    read off the code.

    Conventions of the embedding:
    - a Python [str] is a [list ascii]; a character is read as the code
      point of the same number (U+0000 to U+00FF), and the character
      tables below ([isspace], [isword], [lower_char]) are CPython's
      tables on that range;
    - a Python [float] is a rational ([Q]): the scores are sums,
      products and quotients of small decimal constants;
    - a [dict] from test-file names to booleans is a [gmap];
    - the YARA engine, base64 decoding, JSON decoding, [repr] and the LLM
      client are external capabilities, gathered in the record [Env];
    - an external call that matters to a claim is recorded in a call log
      (a writer monad, [Logged]). *)

From Stdlib Require Import List Ascii String Bool Arith ZArith QArith Lia Lqa.
From Stdlib Require Import DecimalString Permutation Qround Qpower Qabs.
From stdpp Require Import base option gmap strings.
Import ListNotations.

Set Warnings "-register-all".

Local Open Scope list_scope.
Local Open Scope nat_scope.

(** ** Python strings *)

Module Py.

Abbreviation text := (list ascii).

Definition str (s : string) : text := list_ascii_of_string s.

Definition chr (n : nat) : ascii := ascii_of_nat n.
Definition ord (c : ascii) : nat := nat_of_ascii c.

Definition NL : ascii := chr 10.
Definition CR : ascii := chr 13.
Definition TAB : ascii := chr 9.
Definition SP : ascii := chr 32.
Definition DQ : ascii := chr 34.
Definition SQ : ascii := chr 39.
Definition BSL : ascii := chr 92.
Definition BQ : ascii := chr 96.

Definition ceqb (a b : ascii) : bool := Ascii.eqb a b.

Definition in_range (lo hi n : nat) : bool := (lo <=? n) && (n <=? hi).

(** [str.isspace] on one character, and [\s] of the [re] module. *)
Definition isspace (c : ascii) : bool :=
  let n := ord c in
  in_range 9 13 n || in_range 28 32 n || (n =? 133) || (n =? 160).

Definition isdigit (c : ascii) : bool := in_range 48 57 (ord c).
Definition isupper_ascii (c : ascii) : bool := in_range 65 90 (ord c).
Definition islower_ascii (c : ascii) : bool := in_range 97 122 (ord c).

(** [\w] of the [re] module on a [str] pattern: alphanumerics and [_]. *)
Definition isword (c : ascii) : bool :=
  let n := ord c in
  in_range 48 57 n || in_range 65 90 n || (n =? 95) || in_range 97 122 n
  || (n =? 170) || in_range 178 179 n || (n =? 181) || in_range 185 186 n
  || in_range 188 190 n || in_range 192 214 n || in_range 216 246 n
  || in_range 248 255 n.

(** [str.lower] on one character. *)
Definition lower_char (c : ascii) : ascii :=
  let n := ord c in
  if in_range 65 90 n || in_range 192 214 n || in_range 216 222 n
  then chr (n + 32) else c.

Definition lower (s : text) : text := map lower_char s.

Fixpoint lstrip (s : text) : text :=
  match s with
  | c :: r => if isspace c then lstrip r else s
  | [] => []
  end.

Definition rstrip (s : text) : text := rev (lstrip (rev s)).

Definition strip (s : text) : text := rstrip (lstrip s).

Fixpoint startswith (p s : text) : bool :=
  match p, s with
  | [], _ => true
  | a :: p', b :: s' => ceqb a b && startswith p' s'
  | _ :: _, [] => false
  end.

Definition endswith (p s : text) : bool := startswith (rev p) (rev s).

(** [sub in s]. *)
Fixpoint contains (sub s : text) : bool :=
  startswith sub s ||
  match s with
  | [] => false
  | _ :: r => contains sub r
  end.

(** [s.find(sub)], [None] for -1. *)
Fixpoint find (sub s : text) : option nat :=
  if startswith sub s then Some 0
  else match s with
       | [] => None
       | _ :: r => option_map S (find sub r)
       end.

(** [s.count(c)] for a one-character [c]. *)
Definition count (c : ascii) (s : text) : nat :=
  List.length (List.filter (ceqb c) s).

(** [s.replace(c, '')] for a one-character [c]. *)
Definition remove (c : ascii) (s : text) : text :=
  List.filter (fun x => negb (ceqb c x)) s.

(** [s.split(c)] for a one-character separator: never empty. *)
Fixpoint split (c : ascii) (s : text) : list text :=
  match s with
  | [] => [[]]
  | x :: r =>
      if ceqb c x then [] :: split c r
      else match split c r with
           | l :: ls => (x :: l) :: ls
           | [] => [[x]]
           end
  end.

(** [sep.join(parts)]. *)
Fixpoint join (sep : text) (parts : list text) : text :=
  match parts with
  | [] => []
  | [p] => p
  | p :: ps => p ++ sep ++ join sep ps
  end.

(** [s[a:b]] for [0 <= a], [0 <= b]. *)
Definition slice (a b : nat) (s : text) : text := skipn a (firstn b s).

(** [' ' * n] and the like. *)
Definition times (c : ascii) (n : nat) : text := repeat c n.

Fixpoint teqb (a b : text) : bool :=
  match a, b with
  | [], [] => true
  | x :: a', y :: b' => ceqb x y && teqb a' b'
  | _, _ => false
  end.

Definition is_empty {A} (s : list A) : bool :=
  match s with [] => true | _ => false end.

End Py.

Import Py.

(** ** Regular expressions of the [re] module

  A backtracking matcher in continuation-passing style, with the
  priorities of [re]: alternation tries the left branch first, a greedy
  repetition tries one more iteration first, a lazy one tries to stop
  first.  A position is a zipper: the consumed characters (reversed) and
  the remaining ones. *)

Module Re.

Inductive re : Type :=
| Eps : re
| Chr : (ascii -> bool) -> re
| Seq : re -> re -> re
| Alt : re -> re -> re
| Star : bool -> re -> re          (* greedy? *)
| Group : nat -> re -> re
| Bol : bool -> re                 (* multiline? *)
| Eol : bool -> re                 (* multiline? *)
| NotAhead : re -> re.

Record pos : Type := Pos { before : text; after : text }.

Definition caps : Type := list (nat * text).

Fixpoint get_group (n : nat) (cs : caps) : text :=
  match cs with
  | [] => []
  | (k, v) :: r => if n =? k then v else get_group n r
  end.

Definition at_bol (multiline : bool) (p : pos) : bool :=
  match before p with
  | [] => true
  | c :: _ => multiline && ceqb c NL
  end.

Definition at_eol (multiline : bool) (p : pos) : bool :=
  match after p with
  | [] => true
  | c :: r => ceqb c NL && (multiline || is_empty r)
  end.

Definition consumed (p q : pos) : text :=
  firstn (List.length (after p) - List.length (after q)) (after p).

Definition result : Type := (pos * caps)%type.

Fixpoint run (r : re) (k : pos -> caps -> option result)
         (p : pos) (cs : caps) {struct r} : option result :=
  match r with
  | Eps => k p cs
  | Chr f =>
      match after p with
      | c :: rest => if f c then k (Pos (c :: before p) rest) cs else None
      | [] => None
      end
  | Seq a b => run a (fun p' cs' => run b k p' cs') p cs
  | Alt a b =>
      match run a k p cs with
      | Some x => Some x
      | None => run b k p cs
      end
  | Star greedy a =>
      (fix loop (fuel : nat) (p : pos) (cs : caps) {struct fuel}
         : option result :=
         match fuel with
         | O => k p cs
         | S fuel' =>
             let again p' cs' :=
               if List.length (after p') <? List.length (after p)
               then loop fuel' p' cs' else None in
             if greedy then
               match run a again p cs with
               | Some x => Some x
               | None => k p cs
               end
             else
               match k p cs with
               | Some x => Some x
               | None => run a again p cs
               end
         end) (S (List.length (after p))) p cs
  | Group n a => run a (fun p' cs' => k p' ((n, consumed p p') :: cs')) p cs
  | Bol ml => if at_bol ml p then k p cs else None
  | Eol ml => if at_eol ml p then k p cs else None
  | NotAhead a =>
      match run a (fun p' cs' => Some (p', cs')) p cs with
      | Some _ => None
      | None => k p cs
      end
  end.

(** A match of [r] starting exactly at [p]. *)
Definition match_at (r : re) (p : pos) : option result :=
  run r (fun p' cs' => Some (p', cs')) p [].

(** Derived forms. *)
Definition plus (greedy : bool) (r : re) : re := Seq r (Star greedy r).
Definition opt (r : re) : re := Alt r Eps.
Definition lit (c : ascii) : re := Chr (ceqb c).
Definition lit_i (c : ascii) : re := Chr (fun x => ceqb (lower_char c) (lower_char x)).
Definition none_of (cs : text) : re :=
  Chr (fun x => negb (existsb (ceqb x) cs)).
Definition any : re := Chr (fun _ => true).            (* [.] with DOTALL *)
Definition anyline : re := Chr (fun x => negb (ceqb x NL)). (* [.] *)
Definition space : re := Chr isspace.
Definition word : re := Chr isword.

Fixpoint seqs (rs : list re) : re :=
  match rs with
  | [] => Eps
  | [r] => r
  | r :: rs' => Seq r (seqs rs')
  end.

Definition lits (s : string) : re := seqs (map lit (str s)).
Definition lits_i (s : string) : re := seqs (map lit_i (str s)).

(** [re.search]: the leftmost match, as (text before, matched, end
    position, groups). *)
Fixpoint search_from (r : re) (pre : text) (s : text)
  : option (text * text * pos * caps) :=
  let p := Pos pre s in
  match match_at r p with
  | Some (q, cs) => Some (rev pre, consumed p q, q, cs)
  | None =>
      match s with
      | [] => None
      | c :: rest => search_from r (c :: pre) rest
      end
  end.

Definition search (r : re) (s : text) : option (text * text * pos * caps) :=
  search_from r [] s.

Definition matches (r : re) (s : text) : bool :=
  match search r s with Some _ => true | None => false end.

(** [re.findall] for a pattern with exactly one group: the list of the
    contents of group 1 over the non-overlapping matches, left to right.
    [skip] counts the characters of the current match still to pass. *)
Fixpoint findall_from (r : re) (skip : nat) (pre : text) (s : text)
  : list text :=
  match skip with
  | S skip' =>
      match s with
      | [] => []
      | c :: rest => findall_from r skip' (c :: pre) rest
      end
  | O =>
      let p := Pos pre s in
      match match_at r p with
      | Some (q, cs) =>
          let n := List.length (consumed p q) in
          get_group 1 cs ::
            match s with
            | [] => []
            | c :: rest => findall_from r (Nat.pred n) (c :: pre) rest
            end
      | None =>
          match s with
          | [] => []
          | c :: rest => findall_from r 0 (c :: pre) rest
          end
      end
  end.

Definition findall (r : re) (s : text) : list text := findall_from r 0 [] s.

(** Replacement templates: literal text and group references. *)
Inductive piece : Type :=
| Lit : text -> piece
| Ref : nat -> piece.

Definition expand (tpl : list piece) (cs : caps) : text :=
  flat_map (fun x => match x with Lit t => t | Ref n => get_group n cs end) tpl.

(** [re.sub]: every non-overlapping match replaced, left to right; an
    empty match is replaced and the next character copied. *)
Fixpoint sub_from (r : re) (tpl : list piece) (skip : nat)
         (pre : text) (s : text) : text :=
  match skip with
  | S skip' =>
      match s with
      | [] => []
      | c :: rest => sub_from r tpl skip' (c :: pre) rest
      end
  | O =>
      let p := Pos pre s in
      match match_at r p with
      | Some (q, cs) =>
          let n := List.length (consumed p q) in
          expand tpl cs ++
            match s with
            | [] => []
            | c :: rest =>
                match n with
                | O => c :: sub_from r tpl 0 (c :: pre) rest
                | S n' => sub_from r tpl n' (c :: pre) rest
                end
            end
      | None =>
          match s with
          | [] => []
          | c :: rest => c :: sub_from r tpl 0 (c :: pre) rest
          end
      end
  end.

Definition sub (r : re) (tpl : list piece) (s : text) : text :=
  sub_from r tpl 0 [] s.

End Re.

(** ** src/utils/text_utils.py *)

Module TextUtils.

Definition fence : text := str "```".

(** The loop of [clean_text_output] drops every line whose stripped form
    starts with the fence and has at most 10 characters; its flag
    [in_code_block] is written and never read. *)
Definition is_fence_line (line : text) : bool :=
  startswith fence (strip line) && (List.length (strip line) <=? 10).

Definition clean_text_output (t : text) : text :=
  let t1 :=
    if contains fence t
    then join [NL] (List.filter (fun l => negb (is_fence_line l)) (split NL t))
    else t in
  let t2 := strip t1 in
  let t3 :=
    if startswith [BQ] t2 && endswith [BQ] t2
    then removelast (tl t2)                      (* text[1:-1] *)
    else t2 in
  join [NL]
    (map strip
       (List.filter (fun l => negb (is_empty (strip l))) (split NL t3))).

(** The class [[A-Za-z0-9+/=]]. *)
Definition is_b64_char (c : ascii) : bool :=
  isupper_ascii c || islower_ascii c || isdigit c
  || ceqb c "+"%char || ceqb c "/"%char || ceqb c "="%char.

(** [r'[^A-Za-z0-9+/=]'] *)
Definition NON_B64 : Re.re := Re.Chr (fun c => negb (is_b64_char c)).

Definition fix_base64_padding (b64_string : text) : text :=
  let s1 := clean_text_output b64_string in
  let s2 := remove SQ (remove DQ (remove CR (remove NL (strip s1)))) in
  let s3 := Re.sub NON_B64 [] s2 in
  let missing_padding := List.length s3 mod 4 in
  if missing_padding =? 0 then s3
  else s3 ++ times "="%char (4 - missing_padding).

End TextUtils.

(** ** src/models: challenges and results *)

Record TestFile : Type := mkTestFile {
  tf_name : text;
  content_b64 : text;
  should_match : bool
}.

Record Challenge : Type := mkChallenge {
  ch_id : text;
  actionable : bool;
  description : text;
  expected_strings : list text;
  expected_keywords : list text;
  test_files : list TestFile
}.

(** JSON values, as [json.loads] returns them; an object is the list of
    the items of the resulting [dict]. *)
Inductive json : Type :=
| JNull : json
| JBool : bool -> json
| JNum : Q -> json
| JStr : text -> json
| JArr : list json -> json
| JObj : list (text * json) -> json.

(** ** External capabilities and raised exceptions *)

(** What a call returns: a value, or a raised [Exception] with its text. *)
Inductive outcome (A : Type) : Type :=
| Ok : A -> outcome A
| Raise : text -> outcome A.
Arguments Ok {A} _.
Arguments Raise {A} _.

(** [yara.compile]: a matcher, [yara.SyntaxError], or another exception.
    A matcher gives the number of matches on the data, or raises. *)
Definition matcher : Type := text -> outcome nat.

Inductive compiled : Type :=
| Compiled : matcher -> compiled
| SyntaxError : text -> compiled
| OtherError : text -> compiled.

Record Env : Type := mkEnv {
  yara_compile : text -> compiled;
  b64decode : text -> outcome text;
  py_repr : text -> text;
  hex_of_bytes : text -> text;           (* [s.encode().hex()] *)
  json_loads : text -> option json;      (* [None]: [json.JSONDecodeError] *)
  py_str : json -> text;                 (* [str(v)] of a decoded value *)
  generate_rule : Challenge -> outcome text;
  judge_generate : text -> outcome text  (* the judge's client *)
}.

(** Calls that the properties below speak about. *)
Inductive call : Type :=
| CallCompile : text -> call
| CallScorer : text -> call
| CallJudge : text -> call.

(** A computation with its log of calls. *)
Definition Logged (A : Type) : Type := (A * list call)%type.

Definition ret {A} (a : A) : Logged A := (a, []).
Definition tell (c : call) : Logged unit := (tt, [c]).
Definition bind {A B} (m : Logged A) (f : A -> Logged B) : Logged B :=
  let (a, l1) := m in let (b, l2) := f a in (b, l1 ++ l2).

Declare Scope logged_scope.
Delimit Scope logged_scope with logged.
Notation "x <- m ;; k" := (bind m (fun x => k))
  (at level 100, m at next level, right associativity) : logged_scope.
Notation "m ;;; k" := (bind m (fun _ => k))
  (at level 100, right associativity) : logged_scope.

Definition value {A} (m : Logged A) : A := fst m.
Definition calls {A} (m : Logged A) : list call := snd m.

(** ** src/evaluation/yara_validator.py *)

Module YaraValidator.

(** The [dict] that [evaluate] returns. *)
Record results : Type := mkResults {
  valid_syntax : bool;
  expected_strings_found : list text;
  expected_keywords_found : list text;
  error : option text
}.

Definition _validate_structure (rule : text) : option text :=
  if is_empty rule || is_empty (strip rule) then
    Some (str "Empty rule")
  else if negb (contains (str "rule ") rule) then
    Some (str "Incomplete rule structure - missing 'rule' keyword")
  else if negb (contains (str "{") rule) then
    Some (str "Incomplete rule structure - missing opening brace")
  else if negb (contains (str "}") rule) then
    Some (str "Incomplete rule structure - missing closing brace")
  else if negb (contains (str "condition:") rule) then
    Some (str "Incomplete rule structure - missing condition")
  else if negb (count "{"%char rule =? count "}"%char rule) then
    Some (str "Incomplete rule structure - unbalanced braces")
  else None.

Section WithEnv.
Variable env : Env.

Definition double_backslashes (s : text) : text :=
  flat_map (fun c => if ceqb c BSL then [BSL; BSL] else [c]) s.

Definition _find_expected_strings (rule : text) (expected : list text)
  : list text :=
  List.filter
    (fun e => contains e rule
              || contains (py_repr env e) rule
              || contains (hex_of_bytes env e) rule
              || contains (double_backslashes e) rule)
    expected.

Definition _find_expected_keywords (rule : text) (expected : list text)
  : list text :=
  let rule_lower := lower rule in
  List.filter
    (fun keyword =>
       let keyword_lower := lower keyword in
       if teqb keyword_lower (str "pe") || teqb keyword_lower (str "elf") then
         contains (keyword_lower ++ str ".") rule_lower
         || contains (str "import " ++ [DQ] ++ keyword_lower ++ [DQ]) rule_lower
       else contains keyword_lower rule_lower)
    expected.

(** [if structure_error:] is the truth value of an [Optional[str]]. *)
Definition truthy (e : option text) : bool :=
  match e with Some (_ :: _) => true | _ => false end.

Definition evaluate (challenge : Challenge) (rule : text) : Logged results :=
  (let structure_error := _validate_structure rule in
   if truthy structure_error then
     ret (mkResults false [] [] structure_error)
   else
     tell (CallCompile rule) ;;;
     match yara_compile env rule with
     | SyntaxError e =>
         ret (mkResults false [] [] (Some (str "YARA syntax error: " ++ e)))
     | OtherError e =>
         ret (mkResults false [] [] (Some (str "YARA compilation error: " ++ e)))
     | Compiled _ =>
         ret (mkResults true
                (match expected_strings challenge with
                 | [] => []
                 | es => _find_expected_strings rule es
                 end)
                (match expected_keywords challenge with
                 | [] => []
                 | ks => _find_expected_keywords rule ks
                 end)
                None)
     end)%logged.

End WithEnv.

End YaraValidator.

(** ** src/evaluation/file_matcher.py *)

Module FileMatcher.

Record results : Type := mkResults {
  execution_results : gmap text bool;
  error : option text
}.

Section WithEnv.
Variable env : Env.

(** One iteration of [for test_file in challenge.test_files]. *)
Definition match_file (compiled_rule : matcher) (res : results)
           (test_file : TestFile) : results :=
  let name := tf_name test_file in
  match b64decode env (TextUtils.fix_base64_padding (content_b64 test_file)) with
  | Raise e =>
      mkResults (<[name := false]> (execution_results res))
                (Some (str "Failed to decode " ++ name ++ str ": " ++ e))
  | Ok content =>
      match compiled_rule content with
      | Ok n => mkResults (<[name := (0 <? n)]> (execution_results res))
                          (error res)
      | Raise e =>
          mkResults (<[name := false]> (execution_results res))
                    (Some (str "Failed to match " ++ name ++ str ": " ++ e))
      end
  end.

Definition evaluate (challenge : Challenge) (rule : text) : Logged results :=
  (let results0 := mkResults ∅ None in
   match test_files challenge with
   | [] => ret results0
   | files =>
       tell (CallCompile rule) ;;;
       match yara_compile env rule with
       | Compiled compiled_rule =>
           ret (fold_left (match_file compiled_rule) files results0)
       | SyntaxError e =>
           ret (mkResults ∅ (Some (str "YARA syntax error: " ++ e)))
       | OtherError e =>
           ret (mkResults ∅ (Some (str "Execution error: " ++ e)))
       end
   end)%logged.

End WithEnv.

End FileMatcher.

(** ** Python dictionaries with string keys, as lists of items *)

Module Dict.

Fixpoint get {A} (k : text) (d : list (text * A)) : option A :=
  match d with
  | [] => None
  | (k', v) :: r => if teqb k k' then Some v else get k r
  end.

Definition has {A} (k : text) (d : list (text * A)) : bool :=
  match get k d with Some _ => true | None => false end.

(** [d[k] = v]: the value is replaced in place, a new key goes last. *)
Fixpoint set {A} (k : text) (v : A) (d : list (text * A)) : list (text * A) :=
  match d with
  | [] => [(k, v)]
  | (k', v') :: r => if teqb k k' then (k', v) :: r else (k', v') :: set k v r
  end.

End Dict.

(** [s.split(sep)] for a separator of one or more characters. *)
Fixpoint split_on_from (sep : text) (skip : nat) (cur : text) (s : text)
  : list text :=
  match skip with
  | S skip' =>
      match s with
      | [] => [rev cur]
      | _ :: r => split_on_from sep skip' cur r
      end
  | O =>
      match s with
      | [] => [rev cur]
      | c :: r =>
          if startswith sep s
          then rev cur :: split_on_from sep (List.length sep - 1) [] r
          else split_on_from sep 0 (c :: cur) r
      end
  end.

Definition split_on (sep : text) (s : text) : list text :=
  split_on_from sep 0 [] s.

(** ** src/evaluation/llm_judge.py *)

Module LLMJudge.

Record results : Type := mkResults {
  llm_judge_score : Q;
  llm_judge_feedback : text;
  llm_judge_details : json
}.

Definition required_keys : list text :=
  [str "correctness"; str "completeness"; str "efficiency";
   str "best_practices"; str "false_positive_risk"].

Definition weights : list (text * Q) :=
  [(str "correctness", (35 # 100)%Q); (str "completeness", (25 # 100)%Q);
   (str "efficiency", (15 # 100)%Q); (str "best_practices", (15 # 100)%Q);
   (str "false_positive_risk", (10 # 100)%Q)].

Definition criteria_names : list (text * text) :=
  [(str "correctness", str "Correctness");
   (str "completeness", str "Completeness");
   (str "efficiency", str "Efficiency");
   (str "best_practices", str "Best Practices");
   (str "false_positive_risk", str "False Positive Risk")].

Definition unparsed (feedback : string) : json :=
  JObj [(str "score", JNum 5%Q); (str "feedback", JStr (str feedback))].

(** The [dict] returned on [json.JSONDecodeError]. *)
Definition fallback (response : text) : list (text * json) :=
  [(str "correctness", unparsed "Unable to parse evaluation");
   (str "completeness", unparsed "Unable to parse evaluation");
   (str "efficiency", unparsed "Unable to parse evaluation");
   (str "best_practices", unparsed "Unable to parse evaluation");
   (str "false_positive_risk", unparsed "Unable to parse evaluation");
   (str "overall_assessment",
    JStr (if 200 <? List.length response
          then firstn 200 response ++ str "..." else response))].

(** The text of the [TypeError] that Python raises; it depends on the
    type of the offending value and no property reads it. *)
Definition type_error : text := str "TypeError".

(** The number that [v / 10.0] divides, when [v] is one ([bool] is a
    subclass of [int]). *)
Definition as_number (v : json) : option Q :=
  match v with
  | JNum q => Some q
  | JBool b => Some (if b then 1%Q else 0%Q)
  | _ => None
  end.

Section WithEnv.
Variable env : Env.

(** The f-string of [_create_evaluation_prompt]: a fixed English text
    around the description, the expected strings and keywords, the
    actionable flag and the rule.  It is only sent to the judge model. *)
Variable evaluation_prompt : Challenge -> text -> text.

Definition _get_llm_evaluation (prompt : text) : outcome text :=
  match judge_generate env prompt with
  | Ok r => Ok r
  | Raise e => Raise (str "LLM evaluation failed: " ++ e)
  end.

(** One iteration of [for key in required_keys]. *)
Definition fill_key (d : list (text * json)) (key : text)
  : list (text * json) :=
  match Dict.get key d with
  | None =>
      Dict.set key (unparsed "Not evaluated") d
  | Some (JObj inner) =>
      if Dict.has (str "score") inner then d
      else Dict.set key (JObj (Dict.set (str "score") (JNum 5%Q) inner)) d
  | Some v =>
      Dict.set key
        (JObj [(str "score", JNum 5%Q); (str "feedback", JStr (py_str env v))]) d
  end.

Definition strip_fences (response : text) : text :=
  let clean_response := strip response in
  if contains (str "```json") clean_response then
    hd [] (split_on (str "```") (nth 1 (split_on (str "```json") clean_response) []))
  else if contains (str "```") clean_response then
    hd [] (split_on (str "```") (nth 1 (split_on (str "```") clean_response) []))
  else clean_response.

Definition _parse_evaluation_response (response : text)
  : outcome (list (text * json)) :=
  match json_loads env (strip (strip_fences response)) with
  | None => Ok (fallback response)
  | Some (JObj evaluation_data) => Ok (fold_left fill_key required_keys evaluation_data)
  | Some _ => Raise type_error     (* [key not in v], [v[key] = ...] *)
  end.

(** One iteration of [for criterion, weight in weights.items()], on the
    pair (total_score, total_weight). *)
Definition add_criterion (evaluation_data : list (text * json))
           (acc : outcome (Q * Q)) (cw : text * Q) : outcome (Q * Q) :=
  match acc with
  | Raise e => Raise e
  | Ok (total_score, total_weight) =>
      match Dict.get (fst cw) evaluation_data with
      | Some (JObj inner) =>
          let v := match Dict.get (str "score") inner with
                   | Some v => v
                   | None => JNum 5%Q
                   end in
          match as_number v with
          | Some q =>
              Ok ((total_score + (q / 10%Q) * snd cw)%Q,
                  (total_weight + snd cw)%Q)
          | None => Raise type_error
          end
      | _ => Ok (total_score, total_weight)
      end
  end.

Definition _calculate_overall_score (evaluation_data : list (text * json))
  : outcome Q :=
  match fold_left (add_criterion evaluation_data) weights (Ok (0%Q, 0%Q)) with
  | Raise e => Raise e
  | Ok (total_score, total_weight) =>
      if Qlt_le_dec 0%Q total_weight
      then Ok (total_score / total_weight)%Q
      else Ok (1 # 2)%Q
  end.

Definition _format_feedback (evaluation_data : list (text * json)) : text :=
  let overall :=
    match Dict.get (str "overall_assessment") evaluation_data with
    | Some v => [str "Overall: " ++ py_str env v]
    | None => []
    end in
  let part (kn : text * text) : list text :=
    match Dict.get (fst kn) evaluation_data with
    | Some (JObj inner) =>
        let score := match Dict.get (str "score") inner with
                     | Some v => v | None => JStr (str "?") end in
        let feedback := match Dict.get (str "feedback") inner with
                        | Some v => v | None => JStr (str "No feedback") end in
        [snd kn ++ str " (" ++ py_str env score ++ str "/10): "
           ++ py_str env feedback]
    | _ => []
    end in
  join (str " | ") (overall ++ flat_map part criteria_names).

(** [evaluate]; [llm_client] tells whether the judge has a client. *)
Definition evaluate (llm_client : bool) (challenge : Challenge) (rule : text)
  : Logged results :=
  (if negb llm_client then
     ret (mkResults 0%Q (str "LLM judge not configured") (JObj []))
   else
     let failed e :=
       mkResults 0%Q (str "LLM judge error: " ++ e)
                 (JObj [(str "error", JStr e)]) in
     let prompt := evaluation_prompt challenge rule in
     tell (CallJudge prompt) ;;;
     match _get_llm_evaluation prompt with
     | Raise e => ret (failed e)
     | Ok response =>
         match _parse_evaluation_response response with
         | Raise e => ret (failed e)
         | Ok evaluation_data =>
             match _calculate_overall_score evaluation_data with
             | Raise e => ret (failed e)
             | Ok overall_score =>
                 ret (mkResults overall_score
                                (_format_feedback evaluation_data)
                                (JObj evaluation_data))
             end
         end
     end)%logged.

End WithEnv.

End LLMJudge.

(** ** src/parsing/yara_extractor.py *)

Module YaraExtractor.

Import Re.

(** [rule\s+\w+\s*] followed by an opening brace, the head of most patterns. *)
Definition rule_head (ignorecase : bool) : list re :=
  [if ignorecase then lits_i "rule" else lits "rule";
   plus true space; plus true word; Star true space; lit "{"%char].

(** [(?:import\s+Q[^Q]+Q\s*\n)*] under IGNORECASE, where Q stands for the
    double quote. *)
Definition import_lines : re :=
  Star true
    (seqs [lits_i "import"; plus true space; lit DQ; plus true (none_of [DQ]);
           lit DQ; Star true space; lit NL]).

(** [```<tag>\s*\n(.*?)```] under DOTALL and IGNORECASE. *)
Definition code_block (tag : string) : re :=
  seqs [lits "```"; lits_i tag; Star true space; lit NL;
        Group 1 (Star false any); lits "```"].

Definition CODE_BLOCK_PATTERNS : list re :=
  [code_block "yara"; code_block EmptyString; code_block "yaml"; code_block "YARA";
   code_block "rule"].

(** The four patterns, under DOTALL, IGNORECASE and MULTILINE. *)
Definition YARA_RULE_PATTERNS : list re :=
  [ (* ((?:import\s+Q[^Q]+Q\s*\n)*\s*rule\s+\w+\s*\{.*?\}\s*$) *)
    Group 1 (seqs ([import_lines; Star true space] ++ rule_head true ++
                   [Star false any; lit "}"%char; Star true space; Eol true]));
    (* (rule\s+\w+\s*\{(?:[^{}]*\{[^{}]*\})*[^{}]*\}) *)
    Group 1 (seqs (rule_head true ++
                   [Star true (seqs [Star true (none_of (str "{}"));
                                     lit "{"%char;
                                     Star true (none_of (str "{}"));
                                     lit "}"%char]);
                    Star true (none_of (str "{}")); lit "}"%char]));
    (* (rule\s+\w+\s*\{.*?(?:meta:|strings:|condition:).*?\}\s*$) *)
    Group 1 (seqs (rule_head true ++
                   [Star false any;
                    Alt (lits_i "meta:") (Alt (lits_i "strings:") (lits_i "condition:"));
                    Star false any; lit "}"%char; Star true space; Eol true]));
    (* (rule\s+\w+[^{]*\{.*?condition:.*?\}\s*$) *)
    Group 1 (seqs [lits_i "rule"; plus true space; plus true word;
                   Star true (none_of (str "{")); lit "{"%char;
                   Star false any; lits_i "condition:"; Star false any;
                   lit "}"%char; Star true space; Eol true]) ].

(** [(?:(?:import\s+Q[^Q]+Q\s*\n)*\s* )?rule\s+\w+\s*\{.*?condition:\s*.*?\}]
    under DOTALL and IGNORECASE (Q is the double quote; the space before
    the parenthesis is not part of the pattern). *)
Definition VALID_RULE_STRUCTURE : re :=
  seqs ([opt (Seq import_lines (Star true space))] ++ rule_head true ++
        [Star false any; lits_i "condition:"; Star true space;
         Star false any; lit "}"%char]).

Definition NO_RULE_INDICATORS : list text :=
  [str "not actionable"; str "cannot be detected"; str "no yara rule";
   str "not possible"; str "cannot create"; str "not suitable";
   str "beyond yara"; str "beyond the capabilities"].

Definition _indicates_no_rule (response : text) : bool :=
  let response_lower := lower response in
  existsb (fun indicator => contains indicator response_lower)
          NO_RULE_INDICATORS.

Definition _is_valid_rule_structure (rule : text) : bool :=
  if is_empty rule || is_empty (strip rule) then false
  else matches VALID_RULE_STRUCTURE rule.

(** *** Manual parsing: the brace scanner *)

Record scan_state : Type := mkScan {
  brace_count : Z;
  found_opening : bool;
  in_string : bool;
  in_regex : bool;
  escape_next : bool
}.

Definition scan0 : scan_state := mkScan 0 false false false false.

(** [for i in range(rule_start, len(text))], from index [i] on the rest [s]
    of the text; the result is [end_pos] when the loop breaks. *)
Fixpoint scan (st : scan_state) (i : nat) (s : text) : option nat :=
  match s with
  | [] => None
  | char :: rest =>
      if escape_next st then
        scan (mkScan (brace_count st) (found_opening st) (in_string st)
                     (in_regex st) false) (S i) rest
      else if ceqb char BSL then
        scan (mkScan (brace_count st) (found_opening st) (in_string st)
                     (in_regex st) true) (S i) rest
      else
        let in_string' :=
          if ceqb char DQ && negb (in_regex st)
          then negb (in_string st) else in_string st in
        let in_regex' :=
          if ceqb char "/"%char && negb in_string'
          then negb (in_regex st) else in_regex st in
        if negb in_string' && negb in_regex' then
          if ceqb char "{"%char then
            scan (mkScan (brace_count st + 1) true in_string' in_regex' false)
                 (S i) rest
          else if ceqb char "}"%char then
            if found_opening st && (brace_count st - 1 =? 0)%Z
            then Some (S i)
            else scan (mkScan (brace_count st - 1) (found_opening st)
                              in_string' in_regex' false) (S i) rest
          else
            scan (mkScan (brace_count st) (found_opening st)
                         in_string' in_regex' false) (S i) rest
        else
          scan (mkScan (brace_count st) (found_opening st)
                       in_string' in_regex' false) (S i) rest
  end.

(** [while actual_start > 0 and text[actual_start - 1] in ' \t'], on the
    reversed prefix. *)
Fixpoint back_over_blanks (rev_prefix : text) (actual_start : nat) : nat :=
  match rev_prefix, actual_start with
  | c :: r, S n => if ceqb c SP || ceqb c TAB then back_over_blanks r n
                   else actual_start
  | _, _ => actual_start
  end.

(** [for i in range(len(lines_before) - 1, -1, -1)], on the reversed list. *)
Fixpoint import_scan (t : text) (rev_lines : list text) (import_start : nat)
  : nat :=
  match rev_lines with
  | [] => import_start
  | l :: r =>
      let line := strip l in
      if startswith (str "import ") line then
        import_scan t r (match find l t with Some n => n | None => import_start end)
      else if negb (is_empty line) then import_start
      else import_scan t r import_start
  end.

Definition _extract_rule_manual_parsing (t : text) : option text :=
  match find (str "rule ") (lower t) with
  | None => None
  | Some rule_start =>
      let actual_start := back_over_blanks (rev (firstn rule_start t)) rule_start in
      let lines_before := split NL (firstn actual_start t) in
      let import_start := import_scan t (rev lines_before) actual_start in
      match scan scan0 rule_start (skipn rule_start t) with
      | Some end_pos => Some (slice import_start end_pos t)
      | None => None
      end
  end.

(** The positions found by the [while True] loop: [find] from [pos], then
    [pos += 5]. *)
Fixpoint positions_from (sub : text) (skip : nat) (i : nat) (s : text)
  : list nat :=
  match s with
  | [] => []
  | _ :: r =>
      match skip with
      | S skip' => positions_from sub skip' (S i) r
      | O => if startswith sub s
             then i :: positions_from sub (List.length sub - 1) (S i) r
             else positions_from sub 0 (S i) r
      end
  end.

(** [text[start_pos:end_pos]] for each position, up to the next one. *)
Fixpoint spans (t : text) (positions : list nat) : list text :=
  match positions with
  | [] => []
  | start_pos :: rest =>
      let end_pos := match rest with
                     | next :: _ => next
                     | [] => List.length t
                     end in
      slice start_pos end_pos t :: spans t rest
  end.

Definition manual_rules (t : text) : list text :=
  if contains (str "rule ") (lower t) then
    flat_map
      (fun rule_text =>
         match _extract_rule_manual_parsing rule_text with
         | Some manual_rule =>
             if negb (is_empty manual_rule) && _is_valid_rule_structure manual_rule
             then [manual_rule] else []
         | None => []
         end)
      (spans t (positions_from (str "rule ") 0 0 (lower t)))
  else [].

Definition _extract_rules_from_text (t : text) : list text :=
  match manual_rules t with
  | [] =>
      flat_map
        (fun pattern => List.filter _is_valid_rule_structure (findall pattern t))
        YARA_RULE_PATTERNS
  | rules => rules
  end.

(** *** Cleaning *)

(** [^```.*?\n] under MULTILINE. *)
Definition LEADING_FENCE : re :=
  seqs [Bol true; lits "```"; Star false anyline; lit NL].

(** [\n```$] *)
Definition TRAILING_FENCE : re := seqs [lit NL; lits "```"; Eol false].

(** [rule\s+(\w+)\s*{] *)
Definition RULE_DECLARATION : re :=
  seqs [lits "rule"; plus true space; Group 1 (plus true word);
        Star true space; lit "{"%char].

Definition section_name : re :=
  Group 1 (Alt (lits "strings") (Alt (lits "condition") (lits "meta"))).

(** [^\s*(strings|condition|meta)\s*$] under MULTILINE. *)
Definition BARE_SECTION : re :=
  seqs [Bol true; Star true space; section_name; Star true space; Eol true].

(** [^\s*(strings|condition|meta)\s+(?!:)] under MULTILINE. *)
Definition SPACED_SECTION : re :=
  seqs [Bol true; Star true space; section_name; plus true space;
        NotAhead (lit ":"%char)].

(** [\$(\w+)=] *)
Definition TIGHT_ASSIGN : re :=
  seqs [lit "$"%char; Group 1 (plus true word); lit "="%char].

(** [(\$\w+\s*=\s* )Q([^Q]* )Q], Q being the double quote (the spaces
    before the parentheses are not part of the pattern). *)
Definition QUOTED_ASSIGN : re :=
  seqs [Group 1 (seqs [lit "$"%char; plus true word; Star true space;
                       lit "="%char; Star true space]);
        lit DQ; Group 2 (Star true (none_of [DQ])); lit DQ].

(** [(/[^/\n]*[\{\}][^/\n]*/|Q[^Q\n]*[\{\}][^Q\n]*Q)] *)
Definition BRACE_IN_LITERAL : re :=
  let inside (d : ascii) :=
    seqs [lit d; Star true (none_of [d; NL]);
          Chr (fun c => ceqb c "{"%char || ceqb c "}"%char);
          Star true (none_of [d; NL]); lit d] in
  Group 1 (Alt (inside "/"%char) (inside DQ)).

(** [\s+] *)
Definition SPACES : re := plus true space.

(** [(rule\s+\w+\s*\{[^}]*\})] under DOTALL. *)
Definition RULE_BODY : re :=
  Group 1 (seqs (rule_head false ++
                 [Star true (none_of (str "}")); lit "}"%char])).

Inductive section : Type := SMeta | SStrings | SCondition.

Record order_state : Type := mkOrder {
  rule_header : list text;
  meta_lines : list text;
  strings_lines : list text;
  condition_lines : list text;
  current_section : option section;
  braces : Z
}.

Definition zcount (c : ascii) (line : text) : Z := Z.of_nat (count c line).

(** [for line in lines], with its [continue]s and its [break]. *)
Fixpoint order_lines (st : order_state) (lines : list text) : order_state :=
  match lines with
  | [] => st
  | line :: rest =>
      let stripped := strip line in
      if startswith (str "rule ") stripped && contains (str "{") stripped then
        order_lines
          (mkOrder (rule_header st ++ [line]) (meta_lines st) (strings_lines st)
                   (condition_lines st) (current_section st)
                   (braces st + zcount "{"%char line))
          rest
      else if is_empty (rule_header st) && is_empty stripped then
        order_lines st rest
      else if is_empty (rule_header st) then
        order_lines
          (mkOrder (rule_header st ++ [line]) (meta_lines st) (strings_lines st)
                   (condition_lines st) (current_section st) (braces st))
          rest
      else
        let bc := (braces st + (zcount "{"%char line - zcount "}"%char line))%Z in
        if (bc <=? 0)%Z && contains (str "}") line then
          mkOrder (rule_header st) (meta_lines st) (strings_lines st)
                  (condition_lines st ++ [line]) (current_section st) bc
        else if startswith (str "meta:") stripped then
          order_lines
            (mkOrder (rule_header st) (meta_lines st ++ [line]) (strings_lines st)
                     (condition_lines st) (Some SMeta) bc) rest
        else if startswith (str "strings:") stripped then
          order_lines
            (mkOrder (rule_header st) (meta_lines st) (strings_lines st ++ [line])
                     (condition_lines st) (Some SStrings) bc) rest
        else if startswith (str "condition:") stripped then
          order_lines
            (mkOrder (rule_header st) (meta_lines st) (strings_lines st)
                     (condition_lines st ++ [line]) (Some SCondition) bc) rest
        else
          order_lines
            (match current_section st with
             | Some SMeta =>
                 mkOrder (rule_header st) (meta_lines st ++ [line])
                         (strings_lines st) (condition_lines st)
                         (current_section st) bc
             | Some SStrings =>
                 mkOrder (rule_header st) (meta_lines st)
                         (strings_lines st ++ [line]) (condition_lines st)
                         (current_section st) bc
             | Some SCondition =>
                 mkOrder (rule_header st) (meta_lines st) (strings_lines st)
                         (condition_lines st ++ [line]) (current_section st) bc
             | None =>
                 mkOrder (rule_header st ++ [line]) (meta_lines st)
                         (strings_lines st) (condition_lines st)
                         (current_section st) bc
             end) rest
  end.

Definition _normalize_section_order (rule : text) : text :=
  if matches BRACE_IN_LITERAL rule then rule
  else
    let st := order_lines (mkOrder [] [] [] [] None 0) (split NL rule) in
    join [NL] (rule_header st ++ meta_lines st ++ strings_lines st
                 ++ condition_lines st).

Definition _fix_common_syntax_issues (rule : text) : text :=
  let rule := sub RULE_DECLARATION [Lit (str "rule "); Ref 1; Lit (str " {")] rule in
  let rule := sub BARE_SECTION [Ref 1; Lit (str ":")] rule in
  let rule := sub SPACED_SECTION [Ref 1; Lit (str ":")] rule in
  let rule := sub TIGHT_ASSIGN [Lit (str "$"); Ref 1; Lit (str " =")] rule in
  let rule := sub QUOTED_ASSIGN [Ref 1; Lit [DQ]; Ref 2; Lit [DQ]] rule in
  _normalize_section_order rule.

Definition indent_of (line : text) : nat :=
  List.length line - List.length (lstrip line).

(** The minimum over the lines that are neither blank nor a comment;
    [None] is [float('inf')]. *)
Fixpoint min_indent_of (lines : list text) (min_indent : option nat)
  : option nat :=
  match lines with
  | [] => min_indent
  | line :: rest =>
      if negb (is_empty (strip line))
         && negb (startswith (str "//") (strip line))
      then min_indent_of rest
             (Some (match min_indent with
                    | None => indent_of line
                    | Some m => Nat.min m (indent_of line)
                    end))
      else min_indent_of rest min_indent
  end.

Definition dedent (rule : text) : text :=
  match split NL rule with
  | [] => rule
  | first :: others =>
      match min_indent_of others None with
      | Some (S n) =>
          join [NL]
            (first :: map (fun line => if negb (is_empty (strip line))
                                       then skipn (S n) line else [])
                          others)
      | _ => rule
      end
  end.

Definition _clean_rule (rule : text) : text :=
  let rule := strip rule in
  let rule := sub LEADING_FENCE [] rule in
  let rule := sub TRAILING_FENCE [] rule in
  let rule := dedent rule in
  _fix_common_syntax_issues rule.

Definition _validate_basic_structure (rule : text) : bool :=
  _is_valid_rule_structure rule.

(** *** Deduplication and the entry points *)

Record dedup_state : Type := mkDedup {
  cleaned_rules : list text;
  seen_rules : gset text;
  seen_rule_bodies : gset text
}.

Definition normalize (s : text) : text := sub SPACES [Lit (str " ")] (strip s).

(** The body key of a cleaned rule, when [re.search] finds one. *)
Definition rule_body (cleaned : text) : option text :=
  match search RULE_BODY cleaned with
  | Some (_, _, _, cs) => Some (normalize (get_group 1 cs))
  | None => None
  end.

Definition accept (st : dedup_state) (bodies : gset text) (cleaned : text)
  : dedup_state :=
  let normalized := normalize cleaned in
  if bool_decide (normalized ∈ seen_rules st)
  then mkDedup (cleaned_rules st) (seen_rules st) bodies
  else mkDedup (cleaned_rules st ++ [cleaned])
               ({[ normalized ]} ∪ seen_rules st) bodies.

(** One iteration of [for rule in rules]. *)
Definition dedup_step (st : dedup_state) (rule : text) : dedup_state :=
  let cleaned := _clean_rule rule in
  if negb (is_empty cleaned) && _validate_basic_structure cleaned then
    match rule_body cleaned with
    | Some body =>
        if bool_decide (body ∈ seen_rule_bodies st)
           && negb (contains (str "import") cleaned)
        then st
        else accept st ({[ body ]} ∪ seen_rule_bodies st) cleaned
    | None => accept st (seen_rule_bodies st) cleaned
    end
  else st.

Definition dedup (rules : list text) : list text :=
  cleaned_rules (fold_left dedup_step rules (mkDedup [] ∅ ∅)).

Definition candidates (response : text) : list text :=
  let rules :=
    flat_map (fun pattern =>
                flat_map _extract_rules_from_text (findall pattern response))
             CODE_BLOCK_PATTERNS in
  match rules with
  | [] => _extract_rules_from_text response
  | _ => rules
  end.

Definition extract_rules (response : text) : list text :=
  if is_empty response then []
  else if _indicates_no_rule response then []
  else dedup (candidates response).

Definition extract_single_rule (response : text) : option text :=
  match extract_rules response with
  | rule :: _ => Some rule
  | [] => None
  end.

End YaraExtractor.

(** ** src/benchmark.py *)

Module Benchmark.

(** [eval_results]: the union of the evaluators' dictionaries; a field is
    [None] when no evaluator has set the key. *)
Record eval_results : Type := mkEval {
  er_valid_syntax : option bool;
  er_expected_strings_found : option (list text);
  er_expected_keywords_found : option (list text);
  er_error : option (option text);
  er_execution_results : option (gmap text bool);
  er_llm_judge_score : option Q;
  er_llm_judge_feedback : option text;
  er_llm_judge_details : option json
}.

Definition empty_results : eval_results :=
  mkEval None None None None None None None None.

Definition later {A} (old new : option A) : option A :=
  match new with Some v => Some v | None => old end.

(** [dict.update]: the keys of [d2] overwrite those of [d1]. *)
Definition update (d1 d2 : eval_results) : eval_results :=
  mkEval (later (er_valid_syntax d1) (er_valid_syntax d2))
         (later (er_expected_strings_found d1) (er_expected_strings_found d2))
         (later (er_expected_keywords_found d1) (er_expected_keywords_found d2))
         (later (er_error d1) (er_error d2))
         (later (er_execution_results d1) (er_execution_results d2))
         (later (er_llm_judge_score d1) (er_llm_judge_score d2))
         (later (er_llm_judge_feedback d1) (er_llm_judge_feedback d2))
         (later (er_llm_judge_details d1) (er_llm_judge_details d2)).

Definition of_validator (r : YaraValidator.results) : eval_results :=
  mkEval (Some (YaraValidator.valid_syntax r))
         (Some (YaraValidator.expected_strings_found r))
         (Some (YaraValidator.expected_keywords_found r))
         (Some (YaraValidator.error r)) None None None None.

Definition of_matcher (r : FileMatcher.results) : eval_results :=
  mkEval None None None (Some (FileMatcher.error r))
         (Some (FileMatcher.execution_results r)) None None None.

Definition of_judge (r : LLMJudge.results) : eval_results :=
  mkEval None None None None None
         (Some (LLMJudge.llm_judge_score r))
         (Some (LLMJudge.llm_judge_feedback r))
         (Some (LLMJudge.llm_judge_details r)).

Record RuleResult : Type := mkRuleResult {
  challenge_id : text;
  generated_rule : option text;
  generated_response : text;
  valid_syntax : bool;
  execution_results : gmap text bool;
  expected_strings_found : list text;
  expected_keywords_found : list text;
  score : Q;
  error : option text;
  llm_judge_score : option Q;
  llm_judge_feedback : option text;
  llm_judge_details : option json
}.

Definition ratio (a b : nat) : Q := (inject_Z (Z.of_nat a) / inject_Z (Z.of_nat b))%Q.

Definition coverage (found expected : nat) : Q :=
  if 0 <? expected then ratio found expected else 1%Q.

(** [execution_results.get(test_file.name, False)] *)
Definition observed (results : gmap text bool) (test_file : TestFile) : bool :=
  default false (results !! tf_name test_file).

(** [sum(1 for test_file in ... if ... == test_file.should_match)] *)
Definition correct_matches (results : gmap text bool) (files : list TestFile)
  : nat :=
  fold_left
    (fun acc test_file =>
       if Bool.eqb (observed results test_file) (should_match test_file)
       then acc + 1 else acc)
    files 0.

Definition division_by_zero : text := str "division by zero".

Definition _calculate_score (challenge : Challenge) (rule : text)
           (results : eval_results) : outcome Q :=
  let syntax_score := if default false (er_valid_syntax results) then 1%Q else 0%Q in
  let string_score :=
    coverage (List.length (default [] (er_expected_strings_found results)))
             (List.length (expected_strings challenge)) in
  let keyword_score :=
    coverage (List.length (default [] (er_expected_keywords_found results)))
             (List.length (expected_keywords challenge)) in
  let execution_results := default ∅ (er_execution_results results) in
  let match_score :=
    if bool_decide (execution_results = ∅) then Ok 0%Q
    else
      match List.length (test_files challenge) with
      | O => Raise division_by_zero
      | n => Ok (ratio (correct_matches execution_results (test_files challenge)) n)
      end in
  match match_score with
  | Raise e => Raise e
  | Ok match_score =>
      match er_llm_judge_score results with
      | Some llm_judge_score =>
          Ok ((2 # 10) * syntax_score + (15 # 100) * string_score
              + (1 # 10) * keyword_score + (35 # 100) * match_score
              + (2 # 10) * llm_judge_score)%Q
      | None =>
          Ok ((3 # 10) * syntax_score + (2 # 10) * string_score
              + (1 # 10) * keyword_score + (4 # 10) * match_score)%Q
      end
  end.

Section WithEnv.
Variable env : Env.
Variable evaluation_prompt : Challenge -> text -> text.
(** [config.judge_model] is set: the judge is the third evaluator. *)
Variable judge_configured : bool.

(** [for evaluator in self.evaluators: eval_results.update(...)] *)
Definition run_evaluators (challenge : Challenge) (rule : text)
  : Logged eval_results :=
  (v <- YaraValidator.evaluate env challenge rule ;;
   m <- FileMatcher.evaluate env challenge rule ;;
   let two := update (update empty_results (of_validator v)) (of_matcher m) in
   if judge_configured then
     j <- LLMJudge.evaluate env evaluation_prompt true challenge rule ;;
     ret (update two (of_judge j))
   else ret two)%logged.

(** The result of the [except Exception] handler. *)
Definition failed (challenge : Challenge) (e : text) : RuleResult :=
  mkRuleResult (ch_id challenge) None [] false ∅ [] [] 0%Q (Some e)
               None None None.

(** [not rule] for an [Optional[str]]. *)
Definition no_rule (rule : option text) : bool :=
  match rule with
  | None => true
  | Some r => is_empty r
  end.

Definition _evaluate_challenge (challenge : Challenge) : Logged RuleResult :=
  (match generate_rule env challenge with
   | Raise e => ret (failed challenge e)
   | Ok response =>
       let rule := YaraExtractor.extract_single_rule response in
       if negb (actionable challenge) && no_rule rule then
         ret (mkRuleResult (ch_id challenge) None response true ∅ [] [] 1%Q
                           None None None None)
       else if actionable challenge && no_rule rule then
         ret (mkRuleResult (ch_id challenge) None response false ∅ [] [] 0%Q
                           (Some (str "No valid YARA rule extracted"))
                           None None None)
       else
         let rule := default [] rule in
         results <- run_evaluators challenge rule ;;
         tell (CallScorer rule) ;;;
         match _calculate_score challenge rule results with
         | Raise e => ret (failed challenge e)
         | Ok score =>
             ret (mkRuleResult
                    (ch_id challenge) (Some rule) response
                    (default false (er_valid_syntax results))
                    (default ∅ (er_execution_results results))
                    (default [] (er_expected_strings_found results))
                    (default [] (er_expected_keywords_found results))
                    score
                    (default None (er_error results))
                    (er_llm_judge_score results)
                    (er_llm_judge_feedback results)
                    (er_llm_judge_details results))
         end
   end)%logged.

End WithEnv.

End Benchmark.

(** * Vocabulary of the properties *)

(** [sub] occurs in [s]. *)
Definition substring (sub s : text) : Prop :=
  exists pre post, s = pre ++ sub ++ post.

Definition whitespace_only (s : text) : Prop :=
  Forall (fun c => isspace c = true) s.

(** The text that reaches the character filter of [fix_base64_padding]:
    the output of [clean_text_output], stripped, without newlines,
    carriage returns and quotes. *)
Definition before_filter (s : text) : text :=
  remove SQ (remove DQ (remove CR (remove NL (strip (TextUtils.clean_text_output s))))).

(** The number of [=] to append to a text of length [n]. *)
Definition padding (n : nat) : nat :=
  if n mod 4 =? 0 then 0 else 4 - n mod 4.

(** What the structural gate rejects: an empty or whitespace-only text, a
    text without the keyword [rule ] (with its space), without an opening
    or a closing brace, without the marker [condition:], or with as many
    opening braces as closing ones failing to hold. *)
Definition structurally_deficient (rule : text) : Prop :=
  whitespace_only rule
  \/ ~ substring (str "rule ") rule
  \/ ~ substring (str "{") rule
  \/ ~ substring (str "}") rule
  \/ ~ substring (str "condition:") rule
  \/ count_occ ascii_dec rule "{"%char <> count_occ ascii_dec rule "}"%char.

(** An environment for the closed examples: every rule compiles to a
    matcher that finds one match, base64 decoding and [repr] are the
    identity, no text decodes as JSON and both models answer with a fixed
    abstention. *)
Definition example_env : Env :=
  mkEnv (fun _ => Compiled (fun _ => Ok 1))
        (fun s => Ok s)
        (fun s => s)
        (fun s => s)
        (fun _ => None)
        (fun _ => [])
        (fun _ => Ok (str "This behaviour is not actionable."))
        (fun _ => Ok (str "This is not JSON")).

Definition example_challenge : Challenge :=
  mkChallenge (str "l1_001") true (str "Detect the marker") [] [] [].

(** What the loop of [FileMatcher.evaluate] records for one test file:
    [False] when the payload does not decode or the matcher raises, and
    otherwise whether the matcher found a match. *)
Definition file_outcome (env : Env) (m : matcher) (test_file : TestFile) : bool :=
  match b64decode env (TextUtils.fix_base64_padding (content_b64 test_file)) with
  | Raise _ => false
  | Ok content =>
      match m content with
      | Ok n => 0 <? n
      | Raise _ => false
      end
  end.

Definition example_files : list TestFile :=
  [mkTestFile (str "malware.bin") (str "ZXZpbA") true;
   mkTestFile (str "benign.txt") (str "aGVsbG8=") false].

Definition example_challenge_with_files : Challenge :=
  mkChallenge (str "l1_002") true (str "Detect the marker") [] [] example_files.

(** The composite score as the specification words it. *)
Module Spec.

Definition syntax_score (valid_syntax : bool) : Q :=
  if valid_syntax then 1%Q else 0%Q.

(** found / total over an expected list, and 1 when the list is empty. *)
Definition feature_score (found total : nat) : Q :=
  match total with
  | O => 1%Q
  | _ => (inject_Z (Z.of_nat found) / inject_Z (Z.of_nat total))%Q
  end.

(** The test files whose observed match equals [should_match]; a file
    without an entry is observed as not matched. *)
Definition agreeing (results : gmap text bool) (files : list TestFile)
  : list TestFile :=
  List.filter
    (fun test_file =>
       Bool.eqb (default false (results !! tf_name test_file))
                (should_match test_file))
    files.

(** 0 when execution produced no result, and otherwise the share of the
    test files that agree. *)
Definition match_score (results : gmap text bool) (files : list TestFile) : Q :=
  if decide (results = ∅) then 0%Q
  else (inject_Z (Z.of_nat (List.length (agreeing results files)))
        / inject_Z (Z.of_nat (List.length files)))%Q.

Definition final (judge : option Q) (syntax strings keywords matches : Q) : Q :=
  match judge with
  | Some j =>
      ((20 # 100) * syntax + (15 # 100) * strings + (10 # 100) * keywords
       + (35 # 100) * matches + (20 # 100) * j)%Q
  | None =>
      ((30 # 100) * syntax + (20 # 100) * strings + (10 # 100) * keywords
       + (40 # 100) * matches)%Q
  end.

(** The score of a challenge and of the merged evaluation results. *)
Definition composite (challenge : Challenge) (results : Benchmark.eval_results)
  : Q :=
  final (Benchmark.er_llm_judge_score results)
        (syntax_score (default false (Benchmark.er_valid_syntax results)))
        (feature_score
           (List.length (default [] (Benchmark.er_expected_strings_found results)))
           (List.length (expected_strings challenge)))
        (feature_score
           (List.length (default [] (Benchmark.er_expected_keywords_found results)))
           (List.length (expected_keywords challenge)))
        (match_score (default ∅ (Benchmark.er_execution_results results))
                     (test_files challenge)).

End Spec.

(** Evaluation results for the example challenge with files: valid
    syntax, one file judged rightly and one wrongly, no judge. *)
Definition example_results : Benchmark.eval_results :=
  Benchmark.mkEval (Some true) (Some []) (Some []) (Some None)
    (Some (<[str "malware.bin" := true]> (<[str "benign.txt" := true]> ∅)))
    None None None.

(** A text between double quotes. *)
Definition quoted (s : string) : text := [DQ] ++ str s ++ [DQ].

(** A judge answer whose five criteria are all scored 100 (of 10), as the
    text the judge model returns and as [json.loads] decodes it. *)
Definition overrated_criterion (name : string) : text :=
  quoted name ++ str ": {" ++ quoted "score" ++ str ": 100}".

Definition overrated_answer : text :=
  str "{" ++ overrated_criterion "correctness" ++ str ", "
    ++ overrated_criterion "completeness" ++ str ", "
    ++ overrated_criterion "efficiency" ++ str ", "
    ++ overrated_criterion "best_practices" ++ str ", "
    ++ overrated_criterion "false_positive_risk" ++ str "}".

Definition overrated_json : json :=
  JObj (map (fun name => (name, JObj [(str "score", JNum 100%Q)]))
            LLMJudge.required_keys).

(** An environment with a judge: the model under test answers with a
    minimal rule, which compiles, and the judge answers
    [overrated_answer]. *)
Definition judge_env : Env :=
  mkEnv (fun _ => Compiled (fun _ => Ok 1))
        (fun s => Ok s)
        (fun s => s)
        (fun s => s)
        (fun s => if teqb s overrated_answer then Some overrated_json else None)
        (fun _ => [])
        (fun _ => Ok (str "rule a { condition: true }"))
        (fun _ => Ok overrated_answer).

(** A stand-in for the judge prompt. *)
Definition example_prompt (challenge : Challenge) (rule : text) : text :=
  description challenge ++ [NL] ++ rule.

Definition is_scorer_call (c : call) : Prop :=
  match c with CallScorer _ => True | _ => False end.

(** *** Vocabulary of the deduplication *)

(** The loop considers a candidate when its cleaned text is non-empty
    and passes the structure check. *)
Definition considered (rule : text) : Prop :=
  negb (is_empty (YaraExtractor._clean_rule rule))
  && YaraExtractor._validate_basic_structure (YaraExtractor._clean_rule rule)
  = true.

(** The key under which the loop remembers the body of a candidate. *)
Definition body_key (rule : text) : option text :=
  YaraExtractor.rule_body (YaraExtractor._clean_rule rule).

Definition mentions_import (rule : text) : bool :=
  contains (str "import") (YaraExtractor._clean_rule rule).

(** The key under which the loop remembers an accepted candidate. *)
Definition normal_form (rule : text) : text :=
  YaraExtractor.normalize (YaraExtractor._clean_rule rule).

(** A candidate with a single closing brace: its rule has no inner
    braces, and the body key covers the whole rule block. *)
Definition single_block (rule : text) : Prop :=
  count "}"%char (YaraExtractor._clean_rule rule) = 1.

(** A fenced code block tagged yara, and a response made of two. *)
Definition fenced (lines : list text) : text :=
  join [NL] ([str "```yara"] ++ lines ++ [str "```"]).

Definition two_blocks (first second : list text) : text :=
  fenced first ++ [NL; NL] ++ fenced second.

Definition rule_true : list text :=
  [str "rule a {"; str "  condition:"; str "    true"; str "}"].

Definition rule_false : list text :=
  [str "rule b {"; str "  condition:"; str "    false"; str "}"].

Definition pe_rule : list text :=
  [str "rule PERule {"; str "  condition:"; str "    pe.is_pe"; str "}"].

Definition import_line (module : string) : text :=
  str "import " ++ quoted module.

(** Two rules that differ only after the first closing brace. *)
Definition hex_rule (condition : string) : list text :=
  [str "rule a {"; str "  strings:"; str "    $a = { 4D 5A }";
   str "  condition:"; str condition; str "}"].

(** Two fenced blocks with the same rule; the first imports pe and elf,
    the second only pe. *)
Definition import_response : text :=
  two_blocks ([import_line "pe"; import_line "elf"] ++ pe_rule)
             ([import_line "pe"] ++ pe_rule).

(** *** Vocabulary of the cleaning *)

(** A rule whose opening brace is on a line of its own. *)
Definition brace_on_own_line : text :=
  join [NL] [str "rule a"; str "{"; str "    condition: true"; str "    }"].

(** A rule on one line, with its name and its condition. *)
Definition single_line_rule (name condition : text) : text :=
  str "rule " ++ name ++ str " { condition: " ++ condition ++ str " }".

(** A rule that cleaning leaves unchanged. *)
Definition clean (rule : text) : Prop := YaraExtractor._clean_rule rule = rule.

(** *** Vocabulary of the facts on regular expressions *)

Section RegexVocabulary.

Import Re.

(** [q] is reached from [p] by reading some characters. *)
Definition ahead (p q : pos) : Prop :=
  exists w, after p = w ++ after q /\ before q = rev w ++ before p.

(** The loop of a repetition, as a function of its own. *)
Section StarLoop.
Variables (g : bool) (a : re) (k : pos -> caps -> option result).
Fixpoint star_loop (fuel : nat) (p : pos) (cs : caps) {struct fuel}
  : option result :=
  match fuel with
  | O => k p cs
  | S fuel' =>
      let again p' cs' :=
        if List.length (after p') <? List.length (after p)
        then star_loop fuel' p' cs' else None in
      if g then
        match run a again p cs with
        | Some x => Some x
        | None => k p cs
        end
      else
        match k p cs with
        | Some x => Some x
        | None => run a again p cs
        end
  end.
End StarLoop.

(** Every match of [r] reads a character that satisfies [P]. *)
Fixpoint needs (P : ascii -> Prop) (r : re) : Prop :=
  match r with
  | Chr f => forall x, f x = true -> P x
  | Seq a b => needs P a \/ needs P b
  | Alt a b => needs P a /\ needs P b
  | Group _ a => needs P a
  | _ => False
  end.

Definition free_of (P : ascii -> Prop) (s : text) : Prop :=
  forall x, In x s -> ~ P x.

End RegexVocabulary.

(** A character that no repair of the cleaning looks for. *)
Definition plain (c : ascii) : bool :=
  negb (existsb (ceqb c) [NL; BQ; "$"%char; "{"%char; "/"%char; DQ]).

(** The characters that the repairs other than the declaration spacing
    look for. *)
Definition special (x : ascii) : Prop :=
  x = NL \/ x = BQ \/ x = "$"%char \/ x = "/"%char \/ x = DQ.

Definition opening_brace (x : ascii) : Prop := x = "{"%char.

(** What follows the opening brace of a single-line rule. *)
Definition rule_tail (condition : text) : text :=
  str " condition: " ++ condition ++ str " }".

(** * Vocabulary of the further properties *)

Definition is_compile_call (c : call) : bool :=
  match c with CallCompile _ => true | _ => false end.

Definition is_judge_call (c : call) : bool :=
  match c with CallJudge _ => true | _ => false end.

Definition is_scoring_call (c : call) : bool :=
  match c with CallScorer _ => true | _ => false end.

(** An environment in which the model under test answers with a minimal
    rule and the YARA engine rejects every rule. *)
Definition broken_env : Env :=
  mkEnv (fun _ => SyntaxError (str "line 1: syntax error"))
        (fun s => Ok s)
        (fun s => s)
        (fun s => s)
        (fun _ => None)
        (fun _ => [])
        (fun _ => Ok (str "rule a { condition: true }"))
        (fun _ => Ok (str "This is not JSON")).

(** [1.0 if not expected else 0.0]: the coverage of an expected list of
    which nothing was found. *)
Definition vacuous (expected : list text) : Q :=
  if is_empty expected then 1%Q else 0%Q.

(** What every extracted rule is: a non-empty text that passes the
    structure check of the extractor. *)
Definition well_formed (rule : text) : Prop :=
  rule <> [] /\ YaraExtractor._is_valid_rule_structure rule = true.

(** The invariant of the deduplication loop. *)
Definition dedup_invariant (st : YaraExtractor.dedup_state) : Prop :=
  List.Forall well_formed (YaraExtractor.cleaned_rules st)
  /\ List.NoDup (map YaraExtractor.normalize (YaraExtractor.cleaned_rules st))
  /\ (forall r, In r (YaraExtractor.cleaned_rules st) -> YaraExtractor.normalize r ∈ YaraExtractor.seen_rules st).


(** A challenge with one test file, which the rule should match. *)
Definition matching_challenge : Challenge :=
  mkChallenge (str "l1_003") true (str "Detect the marker") [] []
              [mkTestFile (str "malware.bin") (str "ZXZpbA") true].

(** The message that the loop of [FileMatcher.evaluate] stores for a test
    file on which decoding or matching raises, and [None] for a file on
    which neither does. *)
Definition file_failure (env : Env) (m : matcher) (test_file : TestFile)
  : option text :=
  match b64decode env (TextUtils.fix_base64_padding (content_b64 test_file)) with
  | Raise e =>
      Some (str "Failed to decode " ++ tf_name test_file ++ str ": " ++ e)
  | Ok content =>
      match m content with
      | Ok _ => None
      | Raise e =>
          Some (str "Failed to match " ++ tf_name test_file ++ str ": " ++ e)
      end
  end.

(** An environment like [judge_env] in which no payload decodes. *)
Definition undecodable_env : Env :=
  mkEnv (fun _ => Compiled (fun _ => Ok 1))
        (fun _ => Raise (str "Incorrect padding"))
        (fun s => s)
        (fun s => s)
        (fun _ => None)
        (fun _ => [])
        (fun _ => Ok (str "rule a { condition: true }"))
        (fun _ => Ok (str "This is not JSON")).

(** *** Vocabulary of the judge *)

(** The criterion [key] of the evaluation data is a dictionary with a
    score. *)
Definition scored (evaluation_data : list (text * json)) (key : text) : Prop :=
  exists inner,
    Dict.get key evaluation_data = Some (JObj inner)
    /\ Dict.has (str "score") inner = true.

(** The criterion [key] of the evaluation data is a dictionary whose
    score is the number [q]. *)
Definition criterion_score (evaluation_data : list (text * json)) (key : text)
           (q : Q) : Prop :=
  exists inner v,
    Dict.get key evaluation_data = Some (JObj inner)
    /\ Dict.get (str "score") inner = Some v
    /\ LLMJudge.as_number v = Some q.

(** The weighted mean of the five criteria, each divided by 10. *)
Definition weighted_mean (score_of : text -> Q) : Q :=
  ((35 # 100) * (score_of (str "correctness") / 10)
   + (25 # 100) * (score_of (str "completeness") / 10)
   + (15 # 100) * (score_of (str "efficiency") / 10)
   + (15 # 100) * (score_of (str "best_practices") / 10)
   + (10 # 100) * (score_of (str "false_positive_risk") / 10))%Q.

(** A judge answer in a fenced block, with or without the tag json. *)
Definition json_fenced (tag : text) (body : text) : text :=
  str "```" ++ tag ++ [NL] ++ body ++ [NL] ++ str "```".

(** Evaluation data with a score for every criterion. *)
Definition graded (c1 c2 c3 c4 c5 : Q) : list (text * json) :=
  [(str "correctness", JObj [(str "score", JNum c1)]);
   (str "completeness", JObj [(str "score", JNum c2)]);
   (str "efficiency", JObj [(str "score", JNum c3)]);
   (str "best_practices", JObj [(str "score", JNum c4)]);
   (str "false_positive_risk", JObj [(str "score", JNum c5)])].

(** The scores of [graded], by criterion. *)
Definition grades (c1 c2 c3 c4 c5 : Q) (key : text) : Q :=
  if teqb key (str "correctness") then c1
  else if teqb key (str "completeness") then c2
  else if teqb key (str "efficiency") then c3
  else if teqb key (str "best_practices") then c4
  else c5.

(** ** src/utils/data_utils.py *)

Module DataUtils.

Section WithEnv.
Variable env : Env.

(** One iteration of [for b64 in b64_list]: an entry whose normalized
    form does not decode is skipped. *)
Definition decode_entry (decoded : list text) (b64 : text) : list text :=
  match b64decode env (TextUtils.fix_base64_padding b64) with
  | Ok content => decoded ++ [content]
  | Raise _ => decoded
  end.

Definition decode_base64_list (b64_list : list text) : list text :=
  fold_left decode_entry b64_list [].

End WithEnv.

End DataUtils.

(** The entries of a list that decode after normalization. *)
Definition decodable (env : Env) (b64 : text) : bool :=
  match b64decode env (TextUtils.fix_base64_padding b64) with
  | Ok _ => true
  | Raise _ => false
  end.

(** ** src/llm/prompts.py and src/llm/client.py *)

Module LLMClient.

Section WithApi.

(** [repr] of a string. *)
Variable py_repr : text -> text.

(** [format_challenge_prompt] *)
Definition format_challenge_prompt (challenge : Challenge) : text :=
  let prompt :=
    str "Create a YARA rule based on the following description:"
      ++ [NL; NL] ++ description challenge in
  let prompt :=
    if negb (is_empty (expected_strings challenge)) then
      prompt ++ [NL; NL] ++ str "Hint: The rule should detect these strings: "
        ++ join (str ", ") (map py_repr (expected_strings challenge))
    else prompt in
  let prompt :=
    if negb (is_empty (expected_keywords challenge)) then
      prompt ++ [NL; NL] ++ str "Hint: Consider using these YARA features: "
        ++ join (str ", ") (expected_keywords challenge)
    else prompt in
  prompt.

(** The completion service: what its [n]-th request returns for a user
    prompt, the content of the first choice (which can be [None]) or a
    raised exception. *)
Variable create : nat -> text -> outcome (option text).

(** The state that the client changes: the number of requests sent and
    the delays slept, in seconds. *)
Record world : Type := mkWorld {
  requests : nat;
  slept : list Q
}.

(** [getattr(self.model_config, 'max_retries', 3)] and
    [getattr(self.model_config, 'retry_delay', 1.0)]: a [ModelConfig] has
    neither field, so these are the defaults. *)
Definition max_retries : nat := 3.
Definition retry_delay : Q := 1.

(** [retry_delay * (2 ** retry_count)] *)
Definition backoff (retry_count : nat) : Q :=
  (retry_delay * inject_Z (2 ^ Z.of_nat retry_count))%Q.

(** [str(max_retries)] *)
Definition max_retries_text : text := str "3".

(** [generate_rule(challenge, retry_count)]; each level of the recursion
    uses one unit of [fuel]. *)
Fixpoint generate_rule_from (fuel : nat) (challenge : Challenge)
         (retry_count : nat) (w : world) : option (outcome text * world) :=
  match fuel with
  | O => None
  | S fuel' =>
      let prompt := format_challenge_prompt challenge in
      match create (requests w) prompt with
      | Ok content =>
          Some (Ok (default [] content), mkWorld (S (requests w)) (slept w))
      | Raise e =>
          if retry_count <? max_retries then
            generate_rule_from fuel' challenge (S retry_count)
              (mkWorld (S (requests w)) (slept w ++ [backoff retry_count]))
          else
            Some (Raise (str "Failed to generate rule after " ++ max_retries_text
                           ++ str " retries: " ++ e),
                  mkWorld (S (requests w)) (slept w))
      end
  end.

(** [generate_rule(challenge)], with the fuel of its deepest recursion. *)
Definition generate_rule (challenge : Challenge) (w : world)
  : option (outcome text * world) :=
  generate_rule_from (S max_retries) challenge 0 w.

End WithApi.

End LLMClient.

(** A service that fails twice and then answers. *)
Definition flaky_service (n : nat) (prompt : text) : outcome (option text) :=
  if n <? 2 then Raise (str "timeout")
  else Ok (Some (str "rule a { condition: true }")).

(** The sum of the delays slept. *)
Definition total_delay (delays : list Q) : Q :=
  fold_right Qplus 0%Q delays.

(** ** src/benchmark.py: the loop of [run] for one model *)

Module BenchmarkRun.

Import Benchmark.

Record BenchmarkResult : Type := mkBenchmarkResult {
  levels : list text;
  total_challenges : nat;
  successful_challenges : nat;
  average_score : Q;
  results : list RuleResult
}.

(** The variables that the loop updates: [model_results],
    [total_challenges], [successful_challenges] and [total_score]. *)
Record tally : Type := mkTally {
  model_results : list RuleResult;
  total : nat;
  successful : nat;
  total_score : Q
}.

Definition tally0 : tally := mkTally [] 0 0 0%Q.

(** A loop in the monad of the call log. *)
Fixpoint fold_logged {A B} (f : A -> B -> Logged A) (l : list B) (a : A)
  : Logged A :=
  match l with
  | [] => ret a
  | x :: rest => (a' <- f a x ;; fold_logged f rest a')%logged
  end.

Section WithEnv.
Variable env : Env.
Variable evaluation_prompt : Challenge -> text -> text.
Variable judge_configured : bool.

(** The body of [for challenge in challenges]. *)
Definition count_challenge (t : tally) (challenge : Challenge) : Logged tally :=
  (result <- _evaluate_challenge env evaluation_prompt judge_configured challenge ;;
   ret (mkTally (model_results t ++ [result])
                (total t + 1)
                (if valid_syntax result then successful t + 1 else successful t)
                (total_score t + score result)%Q))%logged.

(** The body of [for model_name, client in self.llm_clients.items()],
    given for each level of [self.levels], in order, its name and the
    challenges that its [get_challenges] returned. *)
Definition run_model (challenges_of_levels : list (text * list Challenge))
  : Logged BenchmarkResult :=
  (t <- fold_logged (fun t level => fold_logged count_challenge (snd level) t)
                    challenges_of_levels tally0 ;;
   ret (mkBenchmarkResult
          (map fst challenges_of_levels)
          (total t)
          (successful t)
          (if 0 <? total t
           then (total_score t / inject_Z (Z.of_nat (total t)))%Q
           else 0%Q)
          (model_results t)))%logged.

End WithEnv.

End BenchmarkRun.

(** The sum of the scores of a list of results. *)
Definition sum_of_scores (results : list Benchmark.RuleResult) : Q :=
  fold_right (fun r acc => (Benchmark.score r + acc)%Q) 0%Q results.

(** *** Vocabulary of the matches of a regular expression *)

Section MatchVocabulary.

Import Re.

(** A regular expression without capture groups. *)
Fixpoint groupless (r : re) : Prop :=
  match r with
  | Group _ _ => False
  | Seq a b | Alt a b => groupless a /\ groupless b
  | Star _ a => groupless a
  | _ => True
  end.

(** What a match of a regular expression reads: [covers r p q] holds when
    [r] can match from the position [p] to the position [q].  A
    lookahead reads nothing. *)
Fixpoint covers (r : re) (p q : pos) : Prop :=
  match r with
  | Eps => q = p
  | Chr f =>
      exists c rest,
        after p = c :: rest /\ f c = true /\ q = Pos (c :: before p) rest
  | Seq a b => exists m, covers a p m /\ covers b m q
  | Alt a b => covers a p q \/ covers b p q
  | Star _ a => Relation_Operators.clos_refl_trans_1n pos (covers a) p q
  | Group _ a => covers a p q
  | Bol ml => at_bol ml p = true /\ q = p
  | Eol ml => at_eol ml p = true /\ q = p
  | NotAhead _ => q = p
  end.

End MatchVocabulary.

(** The shape [rule NAME {]: the keyword in any case, white space, a
    name, optional white space and the opening brace. *)
Definition rule_opening (s : text) : Prop :=
  exists keyword gap name gap',
    s = keyword ++ gap ++ name ++ gap' ++ str "{"
    /\ lower keyword = str "rule"
    /\ gap <> [] /\ List.Forall (fun c => isspace c = true) gap
    /\ name <> [] /\ List.Forall (fun c => isword c = true) name
    /\ List.Forall (fun c => isspace c = true) gap'.

(** The lines that the section ordering has gathered, in the order in
    which they are joined. *)
Definition ordered_lines (st : YaraExtractor.order_state) : list text :=
  YaraExtractor.rule_header st ++ YaraExtractor.meta_lines st
    ++ YaraExtractor.strings_lines st ++ YaraExtractor.condition_lines st.

(** A rule whose condition comes before its strings. *)
Definition misordered_rule : text :=
  join [NL] [str "rule a {"; str "  condition:"; str "    $a";
             str "  strings:"; str "    $a = x"; str "}"; str "trailing text"].

(** ** src/cli.py and src/benchmark.py: the levels of a run *)

Module Levels.

Definition level1 : text := str "level1".
Definition level2 : text := str "level2".
Definition level3 : text := str "level3".

(** The parsing of the option [--levels] in [run]. *)
Definition parse_levels (levels : text) : list text :=
  if teqb (lower levels) (str "all") then [level1; level2; level3]
  else map (fun l => str "level" ++ strip l) (split ","%char levels).

(** [name in self.config.levels] *)
Definition configured (name : text) (config_levels : list text) : bool :=
  existsb (teqb name) config_levels.

(** The keys of the dictionary that [_init_levels] builds, in the order
    of their insertion. *)
Definition _init_levels (config_levels : list text) : list text :=
  (if configured level1 config_levels then [level1] else [])
    ++ (if configured level2 config_levels then [level2] else [])
    ++ (if configured level3 config_levels then [level3] else []).

End Levels.

(** ** src/llm/generation.py: the test files of a synthetic challenge *)

Module Generation.

(** [if v:] for a decoded JSON value. *)
Definition truthy (v : json) : bool :=
  match v with
  | JNull => false
  | JBool b => b
  | JNum q => negb (Qeq_bool q 0)
  | JStr s => negb (is_empty s)
  | JArr l => negb (is_empty l)
  | JObj d => negb (is_empty d)
  end.

(** [str(n)] for a non-negative integer. *)
Definition str_of_nat (n : nat) : text :=
  str (NilEmpty.string_of_uint (Nat.to_uint n)).

Section WithEnv.

(** [str(v)] of a decoded value, and
    [base64.b64encode(s.encode()).decode()]. *)
Variable py_str : json -> text.
Variable b64encode : text -> text.

(** A value inside an f-string. *)
Definition fmt (v : json) : text :=
  match v with
  | JStr s => s
  | _ => py_str v
  end.

(** [challenge_data.get(key, default)] with a string default. *)
Definition get_or (challenge_data : list (text * json)) (key : string)
           (default : string) : json :=
  match Dict.get (str key) challenge_data with
  | Some v => v
  | None => JStr (str default)
  end.

(** [[v for k, v in challenge_data.items() if k not in [...] and
    isinstance(v, str)]] *)
Definition indicators (challenge_data : list (text * json)) : list text :=
  flat_map
    (fun kv =>
       if teqb (fst kv) (str "description")
          || teqb (fst kv) (str "expected_keywords")
       then []
       else match snd kv with JStr s => [s] | _ => [] end)
    challenge_data.

(** [seed.split(';')[0]] *)
Definition first_behavior (seed : text) : text := hd [] (split ";"%char seed).

Definition matching_file (challenge_type : text)
           (challenge_data : list (text * json)) (seed : text)
  : list TestFile :=
  if teqb challenge_type (str "behavior_based") then
    [mkTestFile (str "malware_sample.bin")
       (b64encode (str "Malware sample: "
                     ++ join (str " | ") (firstn 2 (indicators challenge_data))
                     ++ str " | Behavior: " ++ first_behavior seed))
       true]
  else if teqb challenge_type (str "network_based") then
    [mkTestFile (str "network_comm.exe")
       (b64encode (str "Connecting to "
                     ++ fmt (get_or challenge_data "domain" "unknown.com")
                     ++ str ":" ++ fmt (get_or challenge_data "port" "80")
                     ++ str " | Protocol: "
                     ++ fmt (get_or challenge_data "protocol_string" "HTTP")
                     ++ str " | Mutex: "
                     ++ fmt (get_or challenge_data "mutex_name" "MutexDefault")
                     ++ str " | " ++ first_behavior seed))
       true]
  else if teqb challenge_type (str "file_system") then
    let reg_key := match Dict.get (str "registry_key") challenge_data with
                   | Some v => v
                   | None => JStr []
                   end in
    [mkTestFile (str "file_dropper.dll")
       (b64encode (str "Dropping to: "
                     ++ fmt (get_or challenge_data "file_path" "/tmp/unknown")
                     ++ str " | Extension: "
                     ++ fmt (get_or challenge_data "file_extension" ".tmp")
                     ++ str " | Marker: "
                     ++ fmt (get_or challenge_data "marker_string" "MARKER")
                     ++ (if truthy reg_key
                         then str " | Registry: " ++ fmt reg_key else [])
                     ++ str " | Source: " ++ first_behavior seed))
       true]
  else if teqb challenge_type (str "pe_analysis") then
    [mkTestFile (str "pe_sample.exe")
       (b64encode (str "PE File | Packer: "
                     ++ fmt (get_or challenge_data "packer" "Unknown")
                     ++ str " | Import: "
                     ++ fmt (get_or challenge_data "import_function" "LoadLibrary")
                     ++ str " | Section: "
                     ++ fmt (get_or challenge_data "section_name" ".text")
                     ++ str " | Version: "
                     ++ fmt (get_or challenge_data "version_info" "1.0")
                     ++ str " | " ++ first_behavior seed))
       true]
  else [].

(** [_generate_sophisticated_test_files]; [r1] and [r2] are the two
    numbers drawn by [random.randint]. *)
Definition _generate_sophisticated_test_files (challenge_type : text)
           (challenge_data : list (text * json)) (seed : text) (r1 r2 : nat)
  : list TestFile :=
  let partial_indicator :=
    match challenge_data with
    | (_, v) :: _ => fmt v
    | [] => str "benign"
    end in
  matching_file challenge_type challenge_data seed
    ++ [mkTestFile (str "legitimate.exe")
          (b64encode (str "Legitimate software | Random data " ++ str_of_nat r1
                        ++ str " | Normal operation"))
          false;
        mkTestFile (str "partial_match.bin")
          (b64encode (str "Partial match test: " ++ partial_indicator
                        ++ str " but missing other indicators " ++ str_of_nat r2))
          false].

End WithEnv.

(** The four templates of the generator. *)
Definition template_types : list text :=
  [str "behavior_based"; str "network_based"; str "file_system";
   str "pe_analysis"].

End Generation.

(** ** The arithmetic of the scores

    The scores are Python [float]s.  A binary64 number is the rational
    that it denotes, and an operation of CPython returns the binary64
    number nearest to its exact result (ties to even): a decimal
    literal, the quotient of two [int]s, and the product, sum and
    quotient of two [float]s.  The results of this development are far
    below the overflow threshold [2^1024], and infinities and NaN do not
    arise from finite scores. *)

Module Binary64.

Definition pow2 (k : Z) : Q := (2 ^ k)%Q.

(** The integer nearest to [x], the even one of the two when [x] is
    halfway. *)
Definition rne (x : Q) : Z :=
  let f := Qfloor x in
  match (x - inject_Z f ?= 1 # 2)%Q with
  | Lt => f
  | Eq => if Z.even f then f else (f + 1)%Z
  | Gt => (f + 1)%Z
  end.

(** [floor (log2 x)] for a positive [x]. *)
Definition ilog2 (x : Q) : Z :=
  let k := (Z.log2 (Qnum x) - Z.log2 (Zpos (Qden x)))%Z in
  if Qle_bool (pow2 k) x then k else (k - 1)%Z.

(** The exponent of the unit in the last place of a positive [x]: 53
    bits of precision, and the exponent of the subnormal numbers at
    least. *)
Definition ulp_exponent (x : Q) : Z := Z.max (ilog2 x - 52) (-1074).

Definition round_pos (x : Q) : Q :=
  (inject_Z (rne (x / pow2 (ulp_exponent x))) * pow2 (ulp_exponent x))%Q.

(** The binary64 number nearest to [x], ties to even. *)
Definition round (x : Q) : Q :=
  match (x ?= 0)%Q with
  | Eq => 0%Q
  | Gt => round_pos x
  | Lt => (- round_pos (- x))%Q
  end.

(** The operand of [v / 10.0] as a [float]: a [float] is unchanged and
    an [int] is converted to the nearest binary64 number.  A number that
    rounds to [2^1024] or beyond is no [float], so it is an [int], and
    its conversion raises [OverflowError]. *)
Definition to_float (q : Q) : outcome Q :=
  if Qle_bool (pow2 1024) (Qabs (round q))
  then Raise (str "int too large to convert to float")
  else Ok (round q).

End Binary64.

(** The scorer of [src/benchmark.py] with the rounding of its arithmetic
    as a parameter: [rnd] maps the exact value of a literal, of a
    quotient, of a product or of a sum to the value that the operation
    returns.  With the identity this is [Benchmark._calculate_score],
    the scorer in exact arithmetic; with [Binary64.round] it is the
    scorer in the arithmetic of CPython. *)
Module Rounded.

Section WithRounding.

Variable rnd : Q -> Q.

(** A decimal literal such as [0.35]. *)
Definition lit (q : Q) : Q := rnd q.

Definition add (x y : Q) : Q := rnd (x + y).
Definition mul (x y : Q) : Q := rnd (x * y).
Definition div (x y : Q) : Q := rnd (x / y).

(** [a / b] for two [int]s. *)
Definition ratio (a b : nat) : Q :=
  rnd (inject_Z (Z.of_nat a) / inject_Z (Z.of_nat b)).

Definition coverage (found expected : nat) : Q :=
  if 0 <? expected then ratio found expected else 1%Q.

Definition _calculate_score (challenge : Challenge) (rule : text)
           (results : Benchmark.eval_results) : outcome Q :=
  let syntax_score :=
    if default false (Benchmark.er_valid_syntax results) then 1%Q else 0%Q in
  let string_score :=
    coverage (List.length (default [] (Benchmark.er_expected_strings_found results)))
             (List.length (expected_strings challenge)) in
  let keyword_score :=
    coverage (List.length (default [] (Benchmark.er_expected_keywords_found results)))
             (List.length (expected_keywords challenge)) in
  let execution_results := default ∅ (Benchmark.er_execution_results results) in
  let match_score :=
    if bool_decide (execution_results = ∅) then Ok 0%Q
    else
      match List.length (test_files challenge) with
      | O => Raise Benchmark.division_by_zero
      | n => Ok (ratio (Benchmark.correct_matches execution_results
                          (test_files challenge)) n)
      end in
  match match_score with
  | Raise e => Raise e
  | Ok match_score =>
      match Benchmark.er_llm_judge_score results with
      | Some llm_judge_score =>
          Ok (add (add (add (add (mul (lit (2 # 10)) syntax_score)
                                 (mul (lit (15 # 100)) string_score))
                            (mul (lit (1 # 10)) keyword_score))
                       (mul (lit (35 # 100)) match_score))
                  (mul (lit (2 # 10)) llm_judge_score))
      | None =>
          Ok (add (add (add (mul (lit (3 # 10)) syntax_score)
                            (mul (lit (2 # 10)) string_score))
                       (mul (lit (1 # 10)) keyword_score))
                  (mul (lit (4 # 10)) match_score))
      end
  end.

(** The conversion of the operand of [v / 10.0] to a [float]. *)
Variable to_float : Q -> outcome Q.

(** [src/evaluation/llm_judge.py]: one iteration of
    [for criterion, weight in weights.items()], on the pair
    (total_score, total_weight). *)
Definition add_criterion (evaluation_data : list (text * json))
           (acc : outcome (Q * Q)) (cw : text * Q) : outcome (Q * Q) :=
  match acc with
  | Raise e => Raise e
  | Ok (total_score, total_weight) =>
      match Dict.get (fst cw) evaluation_data with
      | Some (JObj inner) =>
          let v := match Dict.get (str "score") inner with
                   | Some v => v
                   | None => JNum 5%Q
                   end in
          match LLMJudge.as_number v with
          | Some q =>
              match to_float q with
              | Ok f =>
                  let score := div f 10%Q in
                  Ok (add total_score (mul score (lit (snd cw))),
                      add total_weight (lit (snd cw)))
              | Raise e => Raise e
              end
          | None => Raise LLMJudge.type_error
          end
      | _ => Ok (total_score, total_weight)
      end
  end.

Definition _calculate_overall_score (evaluation_data : list (text * json))
  : outcome Q :=
  match fold_left (add_criterion evaluation_data) LLMJudge.weights
                  (Ok (0%Q, 0%Q)) with
  | Raise e => Raise e
  | Ok (total_score, total_weight) =>
      if Qlt_le_dec 0%Q total_weight
      then Ok (div total_score total_weight)
      else Ok (1 # 2)%Q
  end.

End WithRounding.

End Rounded.

(** The scorer and the judge score in the arithmetic of CPython. *)
Definition _calculate_score_binary64 :=
  Rounded._calculate_score Binary64.round.

Definition _calculate_overall_score_binary64 :=
  Rounded._calculate_overall_score Binary64.round Binary64.to_float.

(** The sub-scores are in the unit interval: no more features are found
    than are expected, and a judge score, if any, is in [0, 1]. *)
Definition scores_in_range (challenge : Challenge)
           (results : Benchmark.eval_results) : Prop :=
  List.length (default [] (Benchmark.er_expected_strings_found results))
    <= List.length (expected_strings challenge)
  /\ List.length (default [] (Benchmark.er_expected_keywords_found results))
     <= List.length (expected_keywords challenge)
  /\ (forall j, Benchmark.er_llm_judge_score results = Some j -> (0 <= j <= 1)%Q).

(** The evaluation results of section 8 of the specification: valid
    syntax, every feature found, every file matched as expected, and a
    judge score of 0.0. *)
Definition judged_zero_results : Benchmark.eval_results :=
  Benchmark.mkEval (Some true) (Some []) (Some []) (Some None)
    (Some (<[str "malware.bin" := true]> (<[str "benign.txt" := false]> ∅)))
    (Some 0%Q) None None.

(** The score, in binary64, of a rule that is invalid and matched on no
    file, from its string score [s] and its keyword score [k]. *)
Definition uncompilable_score (s k : Q) : Q :=
  Binary64.round (Binary64.round (Binary64.round (2 # 10) * s)
                  + Binary64.round (Binary64.round (1 # 10) * k)).
(** * The rounding of binary64 *)


Section Rounding.

Import Binary64.

Local Open Scope Q_scope.

Lemma pow2_pos (k : Z) : 0 < pow2 k.
Proof. apply Qpower_0_lt. reflexivity. Qed.

Lemma pow2_plus (a b : Z) : pow2 (a + b) == pow2 a * pow2 b.
Proof. apply Qpower_plus. discriminate. Qed.

Lemma pow2_le (a b : Z) : (a <= b)%Z -> pow2 a <= pow2 b.
Proof. intros H. apply Qpower_le_compat_l; [exact H | discriminate]. Qed.

Lemma pow2_lt (a b : Z) : (a < b)%Z -> pow2 a < pow2 b.
Proof. intros H. apply Qpower_lt_compat_l; [exact H | reflexivity]. Qed.

Lemma pow2_lt_inv (a b : Z) : pow2 a < pow2 b -> (a < b)%Z.
Proof. intros H. apply (Qpower_lt_compat_l_inv 2); [exact H | reflexivity]. Qed.

Lemma pow2_inject (n : Z) : (0 <= n)%Z -> pow2 n == inject_Z (2 ^ n).
Proof. intros H. unfold pow2. rewrite (Zpower_Qpower 2 n H). reflexivity. Qed.

Lemma pow2_succ (a : Z) : pow2 (a + 1) == 2 * pow2 a.
Proof. rewrite pow2_plus. unfold pow2 at 2. rewrite Qpower_1_r. ring. Qed.

(** The bounds of a positive integer by the powers of 2. *)
Lemma log2_bounds (n : Z) :
  (0 < n)%Z ->
  pow2 (Z.log2 n) <= inject_Z n /\ inject_Z n < pow2 (Z.log2 n + 1).
Proof.
  intros H. destruct (Z.log2_spec n H) as [L U].
  rewrite !pow2_inject by (pose proof (Z.log2_nonneg n); lia).
  rewrite <- Zle_Qle, <- Zlt_Qlt. split; [exact L |].
  replace (Z.log2 n + 1)%Z with (Z.succ (Z.log2 n)) by lia. exact U.
Qed.

Lemma ilog2_spec (x : Q) :
  0 < x -> pow2 (ilog2 x) <= x /\ x < pow2 (ilog2 x + 1).
Proof.
  intros P. unfold ilog2.
  destruct x as [n d]. cbn [Qnum Qden].
  assert (N : (0 < n)%Z).
  { unfold Qlt in P. cbn in P. lia. }
  destruct (log2_bounds n N) as [NL NU].
  destruct (log2_bounds (Zpos d) eq_refl) as [DL DU].
  set (a := Z.log2 n) in *. set (b := Z.log2 (Zpos d)) in *.
  assert (X : n # d == inject_Z n / inject_Z (Zpos d)) by apply Qmake_Qdiv.
  assert (D : 0 < inject_Z (Zpos d)) by reflexivity.
  assert (E : (n # d) * inject_Z (Zpos d) == inject_Z n).
  { rewrite X. field. intros Z0. rewrite Z0 in D. discriminate D. }
  pose proof (pow2_pos (a - b)) as P1.
  pose proof (pow2_pos b) as P2.
  assert (A1 : pow2 a == pow2 (a - b) * pow2 b).
  { rewrite <- pow2_plus. replace (a - b + b)%Z with a by lia. reflexivity. }
  assert (A2 : pow2 (a + 1) == 2 * pow2 a) by apply pow2_succ.
  assert (A3 : pow2 (b + 1) == 2 * pow2 b) by apply pow2_succ.
  assert (A4 : pow2 (a - b + 1) == 2 * pow2 (a - b)) by apply pow2_succ.
  assert (A5 : pow2 (a - b) == 2 * pow2 (a - b - 1)).
  { rewrite <- pow2_succ. replace (a - b - 1 + 1)%Z with (a - b)%Z by lia.
    reflexivity. }
  destruct (Qle_bool (pow2 (a - b)) (n # d)) eqn:C.
  - apply Qle_bool_iff in C. split; [exact C |].
    rewrite A4. nra.
  - assert (C' : n # d < pow2 (a - b)).
    { apply Qnot_le_lt. intros L. apply Qle_bool_iff in L. congruence. }
    replace (a - b - 1 + 1)%Z with (a - b)%Z by lia.
    split; [| exact C'].
    nra.
Qed.

Lemma ilog2_lt (x : Q) (k : Z) : 0 < x -> x < pow2 k -> (ilog2 x < k)%Z.
Proof.
  intros P U. destruct (ilog2_spec x P) as [L _].
  apply pow2_lt_inv. lra.
Qed.

Lemma ilog2_le (x : Q) (k : Z) : 0 < x -> pow2 k <= x -> (k <= ilog2 x)%Z.
Proof.
  intros P L. destruct (ilog2_spec x P) as [_ U].
  assert (H : (k < ilog2 x + 1)%Z) by (apply pow2_lt_inv; lra).
  lia.
Qed.

Lemma ilog2_mono (x y : Q) : 0 < x -> x <= y -> (ilog2 x <= ilog2 y)%Z.
Proof.
  intros P L. apply ilog2_le; [lra |].
  destruct (ilog2_spec x P) as [L' _]. lra.
Qed.

Lemma ilog2_comp (x y : Q) : 0 < x -> x == y -> ilog2 x = ilog2 y.
Proof.
  intros P E.
  assert (P' : 0 < y) by (rewrite <- E; exact P).
  pose proof (ilog2_mono x y P) as A. pose proof (ilog2_mono y x P') as B.
  assert (x <= y) by (rewrite E; apply Qle_refl).
  assert (y <= x) by (rewrite E; apply Qle_refl).
  specialize (A ltac:(assumption)). specialize (B ltac:(assumption)). lia.
Qed.

Lemma compare_cases (p q : Q) :
  ((p ?= q) = Eq /\ p == q) \/ ((p ?= q) = Lt /\ p < q)
  \/ ((p ?= q) = Gt /\ q < p).
Proof.
  destruct (p ?= q) eqn:C.
  - left. split; [reflexivity | apply Qeq_alt; exact C].
  - right. left. split; [reflexivity | apply Qlt_alt; exact C].
  - right. right. split; [reflexivity | apply Qgt_alt; exact C].
Qed.

Lemma rne_cases (x : Q) :
  (rne x = Qfloor x /\ x - inject_Z (Qfloor x) <= 1 # 2)
  \/ (rne x = (Qfloor x + 1)%Z /\ 1 # 2 <= x - inject_Z (Qfloor x)).
Proof.
  unfold rne. cbv zeta.
  destruct (compare_cases (x - inject_Z (Qfloor x)) (1 # 2))
    as [[-> C] | [[-> C] | [-> C]]].
  - destruct (Z.even (Qfloor x)); [left | right]; (split; [reflexivity |]);
      rewrite C; apply Qle_refl.
  - left. split; [reflexivity | lra].
  - right. split; [reflexivity | lra].
Qed.

Lemma floor_bounds (x : Q) :
  inject_Z (Qfloor x) <= x /\ x < inject_Z (Qfloor x) + 1.
Proof.
  split; [apply Qfloor_le |].
  pose proof (Qlt_floor x) as H. rewrite inject_Z_plus in H. exact H.
Qed.

(** The nearest integer is within one half. *)
Lemma rne_error (x : Q) :
  - (1 # 2) <= inject_Z (rne x) - x <= 1 # 2.
Proof.
  pose proof (floor_bounds x) as [L U].
  destruct (rne_cases x) as [[-> H] | [-> H]].
  - lra.
  - rewrite inject_Z_plus. change (inject_Z 1) with 1. lra.
Qed.

Lemma rne_int (n : Z) : rne (inject_Z n) = n.
Proof.
  unfold rne. cbv zeta. rewrite Qfloor_Z.
  assert (H : (inject_Z n - inject_Z n ?= 1 # 2) = Lt).
  { apply Qlt_alt. assert (Z0 : inject_Z n - inject_Z n == 0) by ring.
    rewrite Z0. reflexivity. }
  rewrite H. reflexivity.
Qed.

Lemma rne_comp (x y : Q) : x == y -> rne x = rne y.
Proof.
  intros E. unfold rne. cbv zeta. rewrite (Qfloor_comp x y E).
  assert (H : (x - inject_Z (Qfloor y) ?= 1 # 2)
              = (y - inject_Z (Qfloor y) ?= 1 # 2)).
  { apply Qcompare_comp; [rewrite E |]; reflexivity. }
  rewrite H. reflexivity.
Qed.

Lemma rne_mono (x y : Q) : x <= y -> (rne x <= rne y)%Z.
Proof.
  intros L.
  pose proof (Qfloor_resp_le x y L) as F.
  pose proof (floor_bounds x) as [Lx Ux]. pose proof (floor_bounds y) as [Ly Uy].
  destruct (Z.eq_dec (Qfloor x) (Qfloor y)) as [E | N].
  - unfold rne. cbv zeta. rewrite E in *.
    destruct (compare_cases (x - inject_Z (Qfloor y)) (1 # 2))
      as [[-> Cx] | [[-> Cx] | [-> Cx]]];
      destruct (compare_cases (y - inject_Z (Qfloor y)) (1 # 2))
      as [[-> Cy] | [[-> Cy] | [-> Cy]]];
      try (exfalso; lra);
      destruct (Z.even (Qfloor y)); lia.
  - assert (S1 : (rne x <= Qfloor x + 1)%Z).
    { destruct (rne_cases x) as [[-> _] | [-> _]]; lia. }
    assert (S2 : (Qfloor y <= rne y)%Z).
    { destruct (rne_cases y) as [[-> _] | [-> _]]; lia. }
    lia.
Qed.

Lemma rne_ge (x : Q) (n : Z) : inject_Z n <= x -> (n <= rne x)%Z.
Proof. intros H. rewrite <- (rne_int n). apply rne_mono. exact H. Qed.

Lemma rne_le (x : Q) (n : Z) : x <= inject_Z n -> (rne x <= n)%Z.
Proof. intros H. rewrite <- (rne_int n). apply rne_mono. exact H. Qed.

Lemma ulp_exponent_mono (x y : Q) :
  0 < x -> x <= y -> (ulp_exponent x <= ulp_exponent y)%Z.
Proof.
  intros P L. unfold ulp_exponent. pose proof (ilog2_mono x y P L). lia.
Qed.

Lemma scaled (x : Q) (e : Z) : x / pow2 e * pow2 e == x.
Proof. field. pose proof (pow2_pos e) as H. intros Z0. rewrite Z0 in H. discriminate H. Qed.

Lemma scaled_lt (x : Q) (e k : Z) :
  x < pow2 (k + e) -> x / pow2 e < pow2 k.
Proof.
  intros H. rewrite pow2_plus in H. pose proof (pow2_pos e) as P.
  apply Qlt_shift_div_r; [exact P | exact H].
Qed.

Lemma scaled_le (x : Q) (e k : Z) :
  pow2 (k + e) <= x -> pow2 k <= x / pow2 e.
Proof.
  intros H. rewrite pow2_plus in H. pose proof (pow2_pos e) as P.
  apply Qle_shift_div_l; [exact P | exact H].
Qed.

(** The significand of a positive number is below [2^53], and at least
    [2^52] for a normal number. *)
Lemma significand_lt (x : Q) :
  0 < x -> x / pow2 (ulp_exponent x) < pow2 53.
Proof.
  intros P. apply scaled_lt. destruct (ilog2_spec x P) as [_ U].
  eapply Qlt_le_trans; [exact U |]. apply pow2_le. unfold ulp_exponent. lia.
Qed.

Lemma significand_ge (x : Q) :
  0 < x -> (-1074 < ulp_exponent x)%Z ->
  pow2 52 <= x / pow2 (ulp_exponent x).
Proof.
  intros P N. apply scaled_le. destruct (ilog2_spec x P) as [L _].
  eapply Qle_trans; [| exact L]. apply pow2_le. unfold ulp_exponent in *. lia.
Qed.

Lemma round_pos_nonneg (x : Q) : 0 < x -> 0 <= round_pos x.
Proof.
  intros P. unfold round_pos.
  apply Qmult_le_0_compat; [| apply Qlt_le_weak, pow2_pos].
  change 0 with (inject_Z 0). rewrite <- Zle_Qle. apply rne_ge.
  change (inject_Z 0) with 0. apply Qlt_le_weak.
  apply Qlt_shift_div_l; [apply pow2_pos | lra].
Qed.

Lemma round_pos_mono (x y : Q) :
  0 < x -> x <= y -> round_pos x <= round_pos y.
Proof.
  intros P L. assert (P' : 0 < y) by lra.
  pose proof (ulp_exponent_mono x y P L) as E.
  unfold round_pos.
  set (ex := ulp_exponent x) in *. set (ey := ulp_exponent y) in *.
  pose proof (pow2_pos ex) as Px. pose proof (pow2_pos ey) as Py.
  destruct (Z.eq_dec ex ey) as [Q | N].
  - rewrite Q in *. apply Qmult_le_compat_r; [| lra].
    rewrite <- Zle_Qle. apply rne_mono.
    apply Qle_shift_div_l; [exact Py |]. rewrite scaled. exact L.
  - assert (Lt : (ex + 1 <= ey)%Z) by lia.
    assert (Mx : (rne (x / pow2 ex) <= 2 ^ 53)%Z).
    { apply rne_le. rewrite <- pow2_inject by lia.
      apply Qlt_le_weak. apply significand_lt. exact P. }
    assert (My : (2 ^ 52 <= rne (y / pow2 ey))%Z).
    { apply rne_ge. rewrite <- pow2_inject by lia.
      apply significand_ge; [exact P' |]. subst ey.
      unfold ulp_exponent in *. lia. }
    rewrite Zle_Qle in Mx, My.
    rewrite <- pow2_inject in Mx, My by lia.
    assert (B : pow2 53 * pow2 ex <= pow2 52 * pow2 ey).
    { rewrite <- !pow2_plus. apply pow2_le. lia. }
    pose proof (pow2_pos 52). pose proof (pow2_pos 53).
    nra.
Qed.

Lemma round_pos_comp (x y : Q) : 0 < x -> x == y -> round_pos x == round_pos y.
Proof.
  intros P E. unfold round_pos, ulp_exponent.
  rewrite (ilog2_comp x y P E).
  rewrite (rne_comp (x / pow2 (Z.max (ilog2 y - 52) (-1074)))
                    (y / pow2 (Z.max (ilog2 y - 52) (-1074)))).
  - reflexivity.
  - rewrite E. reflexivity.
Qed.

#[export] Instance round_comp : Proper (Qeq ==> Qeq) round.
Proof.
  intros x y E. unfold round.
  rewrite <- (Qcompare_comp x y E 0 0 (Qeq_refl 0)).
  destruct (compare_cases x 0) as [[-> C] | [[-> C] | [-> C]]].
  - reflexivity.
  - rewrite (round_pos_comp (- x) (- y)); [reflexivity | lra | rewrite E; reflexivity].
  - apply round_pos_comp; [lra | exact E].
Qed.

(** Rounding is monotone. *)
Lemma round_mono (x y : Q) : x <= y -> round x <= round y.
Proof.
  intros L. unfold round.
  destruct (compare_cases x 0) as [[-> Cx] | [[-> Cx] | [-> Cx]]];
    destruct (compare_cases y 0) as [[-> Cy] | [[-> Cy] | [-> Cy]]];
    try (exfalso; lra).
  - apply Qle_refl.
  - apply round_pos_nonneg. lra.
  - pose proof (round_pos_nonneg (- x)). lra.
  - assert (A : round_pos (- y) <= round_pos (- x))
      by (apply round_pos_mono; lra).
    lra.
  - pose proof (round_pos_nonneg (- x)). pose proof (round_pos_nonneg y). lra.
  - apply round_pos_mono; lra.
Qed.

(** A number that needs no more than 53 bits is its own rounding. *)
Lemma round_pos_error (x : Q) (k : Z) :
  0 < x -> x < pow2 k -> (-1021 <= k)%Z ->
  - pow2 (k - 54) <= round_pos x - x <= pow2 (k - 54).
Proof.
  intros P U K.
  pose proof (ilog2_lt x k P U) as I.
  unfold round_pos. set (e := ulp_exponent x).
  assert (E : (e <= k - 53)%Z) by (subst e; unfold ulp_exponent; lia).
  pose proof (rne_error (x / pow2 e)) as [A B].
  pose proof (scaled x e) as S0.
  pose proof (pow2_pos e) as Pe.
  assert (H : pow2 e <= 2 * pow2 (k - 54)).
  { rewrite <- pow2_succ. apply pow2_le. lia. }
  set (m := inject_Z (rne (x / pow2 e))) in *.
  set (t := x / pow2 e) in *.
  split; nra.
Qed.

Lemma round_error (x : Q) (k : Z) :
  0 <= x -> x < pow2 k -> (-1021 <= k)%Z ->
  - pow2 (k - 54) <= round x - x <= pow2 (k - 54).
Proof.
  intros P U K. unfold round.
  destruct (compare_cases x 0) as [[-> C] | [[-> C] | [-> C]]].
  - pose proof (pow2_pos (k - 54)). lra.
  - exfalso. lra.
  - apply round_pos_error; assumption.
Qed.

End Rounding.
(** * Properties *)

(** ** Facts on the string primitives *)

Section StringFacts.

Lemma ceqb_eq (a b : ascii) : ceqb a b = true <-> a = b.
Proof. unfold ceqb. apply Ascii.eqb_eq. Qed.

Lemma ceqb_refl (a : ascii) : ceqb a a = true.
Proof. apply ceqb_eq. reflexivity. Qed.

Lemma startswith_spec (p s : text) :
  startswith p s = true <-> exists post, s = p ++ post.
Proof.
  revert s. induction p as [|a p IH]; intros s; simpl.
  - split; [intros _; exists s; reflexivity | reflexivity].
  - destruct s as [|b s].
    + split; [discriminate | intros [post H]; discriminate].
    + rewrite andb_true_iff, ceqb_eq, IH. split.
      * intros [-> [post ->]]. exists post. reflexivity.
      * intros [post H]. injection H as -> ->. split; [reflexivity | eauto].
Qed.

Lemma contains_spec (sub s : text) :
  contains sub s = true <-> substring sub s.
Proof.
  unfold substring. induction s as [|c s IH].
  - cbn [contains]. rewrite orb_false_r, startswith_spec. split.
    + intros [post H]. exists [], post. exact H.
    + intros [pre [post H]]. destruct pre; [exists post; exact H | discriminate].
  - cbn [contains]. rewrite orb_true_iff, startswith_spec, IH. split.
    + intros [[post H] | [pre [post H]]].
      * exists [], post. exact H.
      * exists (c :: pre), post. rewrite H. reflexivity.
    + intros [pre [post H]]. destruct pre as [|x pre].
      * left. exists post. exact H.
      * right. injection H as _ H. eauto.
Qed.

Lemma contains_false (sub s : text) :
  contains sub s = false <-> ~ substring sub s.
Proof.
  rewrite <- contains_spec. destruct (contains sub s); split; intros H;
    try reflexivity; try discriminate; try (intros K; discriminate).
  exfalso. apply H. reflexivity.
Qed.

Lemma lstrip_nil (s : text) : lstrip s = [] <-> whitespace_only s.
Proof.
  unfold whitespace_only. induction s as [|c s IH]; simpl.
  - split; [constructor | reflexivity].
  - destruct (isspace c) eqn:E.
    + rewrite IH. split; [intros H; constructor; assumption |].
      intros H. inversion H; assumption.
    + split; [discriminate |]. intros H. inversion H. congruence.
Qed.

Lemma lstrip_head (s : text) (c : ascii) (r : text) :
  lstrip s = c :: r -> isspace c = false.
Proof.
  induction s as [|x s IH]; simpl; [discriminate |].
  destruct (isspace x) eqn:E; [exact IH |].
  intros H. injection H as <- _. exact E.
Qed.

Lemma strip_nil (s : text) : strip s = [] <-> whitespace_only s.
Proof.
  unfold strip, rstrip. split.
  - intros H. apply lstrip_nil.
    assert (K : lstrip (rev (lstrip s)) = []).
    { rewrite <- (rev_involutive (lstrip (rev (lstrip s)))), H. reflexivity. }
    apply lstrip_nil in K. unfold whitespace_only in K.
    destruct (lstrip s) as [|c r] eqn:E; [reflexivity |].
    apply lstrip_head in E.
    rewrite List.Forall_forall in K. specialize (K c).
    rewrite K in E; [discriminate |].
    apply (proj1 (List.in_rev _ _)). left. reflexivity.
  - intros H. apply lstrip_nil in H. rewrite H. reflexivity.
Qed.

Lemma count_count_occ (c : ascii) (s : text) :
  count c s = count_occ ascii_dec s c.
Proof.
  unfold count. induction s as [|x s IH]; simpl; [reflexivity |].
  destruct (ascii_dec x c) as [-> | N].
  - rewrite ceqb_refl. simpl. rewrite IH. reflexivity.
  - destruct (ceqb c x) eqn:E; [apply ceqb_eq in E; congruence | exact IH].
Qed.

End StringFacts.

(** ** Facts on the regular-expression matcher *)

Section RegexFacts.

(** Substitution of the empty text for a one-character class keeps the
    characters outside the class. *)
Lemma sub_class_filter (f : ascii -> bool) (pre s : text) :
  Re.sub_from (Re.Chr f) [] 0 pre s = List.filter (fun c => negb (f c)) s.
Proof.
  revert pre. induction s as [|c s IH]; intros pre.
  - reflexivity.
  - cbn [Re.sub_from]. unfold Re.match_at. cbn [Re.run Re.after Re.before].
    destruct (f c) eqn:E; cbn [List.filter]; rewrite E; cbn [negb].
    + unfold Re.consumed. cbn [Re.after List.length].
      replace (S (List.length s) - List.length s) with 1 by lia.
      cbn. apply IH.
    + f_equal. apply IH.
Qed.

End RegexFacts.

(** ** The base64 normalizer *)

Section Base64.

Import TextUtils.

Lemma filter_non_b64 (s : text) :
  Re.sub NON_B64 [] s = List.filter is_b64_char s.
Proof.
  unfold Re.sub, NON_B64. rewrite sub_class_filter.
  apply List.filter_ext. intros c. apply negb_involutive.
Qed.

Lemma padded_length (n : nat) : (n + padding n) mod 4 = 0.
Proof.
  unfold padding. pose proof (Nat.div_mod_eq n 4) as D.
  pose proof (Nat.mod_upper_bound n 4 ltac:(lia)) as B.
  destruct (n mod 4 =? 0) eqn:E.
  - apply Nat.eqb_eq in E. rewrite Nat.add_0_r. exact E.
  - apply Nat.eqb_neq in E.
    replace (n + (4 - n mod 4)) with ((n / 4 + 1) * 4) by lia.
    apply Nat.Div0.mod_mul.
Qed.

Lemma fix_base64_padding_eq (s : text) :
  fix_base64_padding s =
  List.filter is_b64_char (before_filter s)
    ++ times "="%char (padding (List.length (List.filter is_b64_char (before_filter s)))).
Proof.
  unfold fix_base64_padding, padding. fold (before_filter s).
  rewrite filter_non_b64.
  destruct (_ mod 4 =? 0); [rewrite app_nil_r |]; reflexivity.
Qed.

(** C7. For every input string the base64 normalizer is defined (it is a
    total function: no step of it can raise), its output is the input's
    pre-cleaned text with every character outside the base64 alphabet
    removed, followed by exactly [4 - (length mod 4)] characters [=] when
    the remaining length is not a multiple of 4 and by nothing otherwise;
    hence the output holds only characters of the alphabet
    [A-Z a-z 0-9 + / =] and its length is divisible by 4. *)
Theorem C7_fix_base64_padding (s : text) :
  let kept := List.filter is_b64_char (before_filter s) in
  let missing := List.length kept mod 4 in
  fix_base64_padding s
    = kept ++ times "="%char (if missing =? 0 then 0 else 4 - missing)
  /\ List.Forall (fun c => is_b64_char c = true) (fix_base64_padding s)
  /\ List.length (fix_base64_padding s) mod 4 = 0.
Proof.
  cbv zeta. rewrite fix_base64_padding_eq. fold (padding (List.length
    (List.filter is_b64_char (before_filter s)))).
  split; [reflexivity | split].
  - apply List.Forall_app. split.
    + apply List.Forall_forall. intros c H.
      apply List.filter_In in H. apply H.
    + apply List.Forall_forall. intros c H.
      apply List.repeat_spec in H. subst c. reflexivity.
  - rewrite List.length_app. unfold times. rewrite List.repeat_length.
    apply padded_length.
Qed.

End Base64.

(** ** The structural gate *)

Section StructuralGate.

Import YaraValidator.

Lemma is_empty_true {A} (l : list A) : is_empty l = true <-> l = [].
Proof. destruct l; simpl; split; congruence. Qed.

Lemma blank_iff (rule : text) :
  is_empty rule || is_empty (strip rule) = true <-> whitespace_only rule.
Proof.
  rewrite orb_true_iff, !is_empty_true, strip_nil. split.
  - intros [-> | H]; [constructor | exact H].
  - intros H. right. exact H.
Qed.

Lemma validate_structure_cases (rule : text) :
  (exists d, _validate_structure rule = Some d /\ truthy (Some d) = true
             /\ structurally_deficient rule)
  \/ (_validate_structure rule = None /\ ~ structurally_deficient rule).
Proof.
  unfold _validate_structure, structurally_deficient.
  rewrite <- !count_count_occ.
  destruct (is_empty rule || is_empty (strip rule)) eqn:E0.
  { apply blank_iff in E0. left. eexists. repeat split. tauto. }
  assert (N0 : ~ whitespace_only rule).
  { intros H. apply blank_iff in H. congruence. }
  destruct (contains (str "rule ") rule) eqn:E1; cbn [negb];
    [apply contains_spec in E1
    | apply contains_false in E1; left; eexists; repeat split; tauto].
  destruct (contains (str "{") rule) eqn:E2; cbn [negb];
    [apply contains_spec in E2
    | apply contains_false in E2; left; eexists; repeat split; tauto].
  destruct (contains (str "}") rule) eqn:E3; cbn [negb];
    [apply contains_spec in E3
    | apply contains_false in E3; left; eexists; repeat split; tauto].
  destruct (contains (str "condition:") rule) eqn:E4; cbn [negb];
    [apply contains_spec in E4
    | apply contains_false in E4; left; eexists; repeat split; tauto].
  destruct (count "{"%char rule =? count "}"%char rule) eqn:E5; cbn [negb].
  - apply Nat.eqb_eq in E5. right. split; [reflexivity | tauto].
  - apply Nat.eqb_neq in E5. left. eexists. repeat split. tauto.
Qed.

(** C5. The structural gate returns a diagnostic exactly when the rule is
    empty or whitespace-only, or lacks the keyword [rule ], an opening
    brace, a closing brace or the marker [condition:], or has different
    numbers of opening and closing braces.  When it does, the
    syntax/feature evaluator returns [valid_syntax = false] with that
    diagnostic and its call log is empty: the compiler was not invoked.
    When it does not, the gate returns nothing and the evaluator's only
    call is the compilation of the rule. *)
Theorem C5_structural_gate (env : Env) (challenge : Challenge) (rule : text) :
  (is_Some (_validate_structure rule) <-> structurally_deficient rule)
  /\ (structurally_deficient rule ->
      valid_syntax (value (evaluate env challenge rule)) = false
      /\ error (value (evaluate env challenge rule)) = _validate_structure rule
      /\ calls (evaluate env challenge rule) = [])
  /\ (~ structurally_deficient rule ->
      _validate_structure rule = None
      /\ calls (evaluate env challenge rule) = [CallCompile rule]).
Proof.
  destruct (validate_structure_cases rule) as [[d [E [T D]]] | [E N]].
  - split; [| split].
    + rewrite E. split; [intros _; exact D | intros _; eexists; reflexivity].
    + intros _. unfold evaluate. rewrite E, T. cbn. auto.
    + intros N. contradiction.
  - split; [| split].
    + rewrite E. split; [intros [x H]; discriminate | intros D; contradiction].
    + intros D. contradiction.
    + intros _. split; [exact E |].
      unfold evaluate. rewrite E. cbn.
      destruct (yara_compile env rule); reflexivity.
Qed.

(** A rule without a closing brace stops at the gate. *)
Lemma C5_structural_gate_witness :
  structurally_deficient (str "rule a { condition: true")
  /\ valid_syntax (value (evaluate example_env example_challenge
                            (str "rule a { condition: true"))) = false
  /\ calls (evaluate example_env example_challenge
              (str "rule a { condition: true")) = [].
Proof.
  assert (D : structurally_deficient (str "rule a { condition: true")).
  { right; right; right; left. apply contains_false. vm_compute. reflexivity. }
  split; [exact D |].
  destruct (proj1 (proj2 (C5_structural_gate example_env example_challenge
                            (str "rule a { condition: true"))) D)
    as [V [_ L]].
  split; [exact V | exact L].
Defined.

End StructuralGate.

(** ** The abstention check *)

Section Abstention.

Import YaraExtractor.

Lemma indicates_no_rule_spec (response : text) :
  _indicates_no_rule response = true
  <-> exists phrase, In phrase NO_RULE_INDICATORS
                     /\ substring phrase (lower response).
Proof.
  unfold _indicates_no_rule. rewrite List.existsb_exists.
  split; intros [phrase [I H]]; exists phrase; split; try exact I;
    apply contains_spec; exact H.
Qed.

(** C4. When the lowercased response contains one of the eight abstention
    phrases, [extract_rules] returns the empty list, whatever else the
    response contains. *)
Theorem C4_abstention_overrides (response : text) :
  NO_RULE_INDICATORS
    = [str "not actionable"; str "cannot be detected"; str "no yara rule";
       str "not possible"; str "cannot create"; str "not suitable";
       str "beyond yara"; str "beyond the capabilities"]
  /\ ((exists phrase, In phrase NO_RULE_INDICATORS
                      /\ substring phrase (lower response))
      -> extract_rules response = []).
Proof.
  split; [reflexivity |].
  intros H. apply indicates_no_rule_spec in H.
  unfold extract_rules. rewrite H.
  destruct (is_empty response); reflexivity.
Qed.

(** An abstention that also carries a well-formed rule yields no rule. *)
Lemma C4_abstention_overrides_witness :
  (exists phrase, In phrase NO_RULE_INDICATORS
                  /\ substring phrase
                       (lower (str "Not actionable, but: rule a { condition: true }")))
  /\ extract_rules (str "Not actionable, but: rule a { condition: true }") = [].
Proof.
  assert (H : exists phrase, In phrase NO_RULE_INDICATORS
                /\ substring phrase
                     (lower (str "Not actionable, but: rule a { condition: true }"))).
  { exists (str "not actionable"). split; [left; reflexivity |].
    exists [], (str ", but: rule a { condition: true }"). reflexivity. }
  split; [exact H |].
  exact (proj2 (C4_abstention_overrides
                  (str "Not actionable, but: rule a { condition: true }")) H).
Defined.

End Abstention.

(** ** The execution evaluator *)

Section Execution.

Import FileMatcher.

Variable env : Env.

Lemma match_file_results (m : matcher) (res : results) (tf : TestFile) :
  execution_results (match_file env m res tf)
  = <[tf_name tf := file_outcome env m tf]> (execution_results res).
Proof.
  unfold match_file, file_outcome.
  destruct (b64decode env _) as [content | e]; [| reflexivity].
  destruct (m content); reflexivity.
Qed.

Lemma fold_match_file_snoc (m : matcher) (files : list TestFile)
      (tf : TestFile) (res : results) :
  execution_results (fold_left (match_file env m) (files ++ [tf]) res)
  = <[tf_name tf := file_outcome env m tf]>
      (execution_results (fold_left (match_file env m) files res)).
Proof. rewrite List.fold_left_app. cbn. apply match_file_results. Qed.

(** Every file visited by the loop has an entry. *)
Lemma fold_match_file_entry (m : matcher) (files : list TestFile) (res : results) :
  forall tf, In tf files ->
    is_Some (execution_results (fold_left (match_file env m) files res)
               !! tf_name tf).
Proof.
  induction files as [|last files IH] using List.rev_ind; intros tf I.
  - destruct I.
  - rewrite fold_match_file_snoc. apply List.in_app_or in I.
    destruct (decide (tf_name last = tf_name tf)) as [E | N].
    + rewrite E, lookup_insert_eq. eexists. reflexivity.
    + rewrite lookup_insert_ne by exact N.
      destruct I as [I | [-> | []]]; [apply IH; exact I | contradiction].
Qed.

(** With distinct names the entry of a file is its own outcome. *)
Lemma fold_match_file_outcome (m : matcher) (files : list TestFile) (res : results) :
  List.NoDup (map tf_name files) ->
  forall tf, In tf files ->
    execution_results (fold_left (match_file env m) files res) !! tf_name tf
    = Some (file_outcome env m tf).
Proof.
  induction files as [|last files IH] using List.rev_ind; intros D tf I.
  - destruct I.
  - rewrite fold_match_file_snoc. rewrite List.map_app in D. cbn in D.
    apply List.in_app_or in I. destruct I as [I | [-> | []]].
    + assert (N : tf_name last <> tf_name tf).
      { intros E. apply List.NoDup_remove_2 in D. apply D.
        rewrite app_nil_r, E. apply List.in_map. exact I. }
      rewrite lookup_insert_ne by exact N.
      apply IH; [| exact I].
      apply List.NoDup_remove_1 in D. rewrite app_nil_r in D. exact D.
    + apply lookup_insert_eq.
Qed.

(** C10. Once the rule has compiled, the mapping returned by the
    execution evaluator has an entry under the name of every test file
    of the challenge.  A file whose payload does not decode, or on which
    the matcher raises, has the outcome [false]; when the names of the
    test files are distinct each file's entry is its own outcome, so such
    a file is recorded as [false] and not left out. *)
Theorem C10_every_file_recorded (challenge : Challenge) (rule : text)
        (m : matcher) :
  yara_compile env rule = Compiled m ->
  (forall tf, In tf (test_files challenge) ->
     is_Some (execution_results (value (evaluate env challenge rule))
                !! tf_name tf))
  /\ (forall tf,
        (forall e, b64decode env (TextUtils.fix_base64_padding (content_b64 tf))
                   = Raise e -> file_outcome env m tf = false)
        /\ (forall content e,
              b64decode env (TextUtils.fix_base64_padding (content_b64 tf))
              = Ok content -> m content = Raise e ->
              file_outcome env m tf = false))
  /\ (List.NoDup (map tf_name (test_files challenge)) ->
      forall tf, In tf (test_files challenge) ->
        execution_results (value (evaluate env challenge rule)) !! tf_name tf
        = Some (file_outcome env m tf)).
Proof.
  intros C.
  assert (E : test_files challenge <> [] ->
              execution_results (value (evaluate env challenge rule))
              = execution_results
                  (fold_left (match_file env m) (test_files challenge)
                             (mkResults ∅ None))).
  { intros N. unfold evaluate.
    destruct (test_files challenge) as [|f fs]; [contradiction |].
    rewrite C. reflexivity. }
  split; [| split].
  - intros tf I. rewrite E; [| intros K; rewrite K in I; destruct I].
    apply fold_match_file_entry. exact I.
  - intros tf. unfold file_outcome. split.
    + intros e ->. reflexivity.
    + intros content e -> ->. reflexivity.
  - intros D tf I. rewrite E; [| intros K; rewrite K in I; destruct I].
    apply fold_match_file_outcome; assumption.
Qed.

End Execution.

(** Both files of the example challenge are recorded. *)
Lemma C10_every_file_recorded_witness :
  yara_compile example_env (str "rule a { condition: true }")
  = Compiled (fun _ => Ok 1)
  /\ forall tf, In tf (test_files example_challenge_with_files) ->
       is_Some (FileMatcher.execution_results
                  (value (FileMatcher.evaluate example_env
                            example_challenge_with_files
                            (str "rule a { condition: true }")))
                  !! tf_name tf).
Proof.
  split; [reflexivity |].
  exact (proj1 (C10_every_file_recorded example_env
                  example_challenge_with_files
                  (str "rule a { condition: true }") (fun _ => Ok 1)
                  eq_refl)).
Defined.

(** ** The composite scorer *)

Section Scorer.

Import Benchmark.

Lemma correct_matches_from (results : gmap text bool) (files : list TestFile)
      (acc : nat) :
  fold_left
    (fun acc test_file =>
       if Bool.eqb (observed results test_file) (should_match test_file)
       then acc + 1 else acc) files acc
  = acc + List.length (Spec.agreeing results files).
Proof.
  revert acc. induction files as [|tf files IH]; intros acc.
  - cbn. lia.
  - cbn [fold_left Spec.agreeing List.filter]. rewrite IH.
    unfold observed, Spec.agreeing.
    destruct (Bool.eqb _ _); cbn [List.length]; lia.
Qed.

Lemma correct_matches_agreeing (results : gmap text bool) (files : list TestFile) :
  correct_matches results files = List.length (Spec.agreeing results files).
Proof. unfold correct_matches. rewrite correct_matches_from. reflexivity. Qed.

Lemma coverage_feature_score (found total : nat) :
  coverage found total = Spec.feature_score found total.
Proof. destruct total; reflexivity. Qed.

End Scorer.

(** ** The call log *)

Section CallLog.

Lemma value_bind {A B} (m : Logged A) (f : A -> Logged B) :
  value (bind m f) = value (f (value m)).
Proof. unfold value, bind. destruct m as [a l1]. cbn. destruct (f a). reflexivity. Qed.

Lemma calls_bind {A B} (m : Logged A) (f : A -> Logged B) :
  calls (bind m f) = calls m ++ calls (f (value m)).
Proof. unfold calls, value, bind. destruct m as [a l1]. cbn. destruct (f a). reflexivity. Qed.

Lemma validator_no_scorer (env : Env) (challenge : Challenge) (rule : text) :
  List.Forall (fun c => ~ is_scorer_call c)
              (calls (YaraValidator.evaluate env challenge rule)).
Proof.
  unfold YaraValidator.evaluate.
  destruct (YaraValidator.truthy _); [constructor |].
  rewrite calls_bind. apply List.Forall_app. split.
  - repeat constructor. intros [].
  - cbn. destruct (yara_compile env rule); constructor.
Qed.

Lemma matcher_no_scorer (env : Env) (challenge : Challenge) (rule : text) :
  List.Forall (fun c => ~ is_scorer_call c)
              (calls (FileMatcher.evaluate env challenge rule)).
Proof.
  unfold FileMatcher.evaluate.
  destruct (test_files challenge); [constructor |].
  rewrite calls_bind. apply List.Forall_app. split.
  - repeat constructor. intros [].
  - cbn. destruct (yara_compile env rule); constructor.
Qed.

Lemma judge_no_scorer (env : Env) (prompt : Challenge -> text -> text)
      (client : bool) (challenge : Challenge) (rule : text) :
  List.Forall (fun c => ~ is_scorer_call c)
              (calls (LLMJudge.evaluate env prompt client challenge rule)).
Proof.
  unfold LLMJudge.evaluate.
  destruct client; [| constructor]. cbn [negb].
  rewrite calls_bind. apply List.Forall_app. split.
  - repeat constructor. intros [].
  - cbn. destruct (LLMJudge._get_llm_evaluation env _); [| constructor].
    destruct (LLMJudge._parse_evaluation_response env _); [| constructor].
    destruct (LLMJudge._calculate_overall_score _); constructor.
Qed.

Lemma evaluators_no_scorer (env : Env) (prompt : Challenge -> text -> text)
      (judge : bool) (challenge : Challenge) (rule : text) :
  List.Forall (fun c => ~ is_scorer_call c)
              (calls (Benchmark.run_evaluators env prompt judge challenge rule)).
Proof.
  unfold Benchmark.run_evaluators.
  rewrite calls_bind. apply List.Forall_app. split;
    [apply validator_no_scorer |].
  rewrite calls_bind. apply List.Forall_app. split;
    [apply matcher_no_scorer |].
  destruct judge; [| constructor].
  rewrite calls_bind. apply List.Forall_app. split;
    [apply judge_no_scorer | constructor].
Qed.

End CallLog.

(** ** The evaluation of one challenge *)

Section Evaluation.

Import Benchmark.

Variable env : Env.
Variable prompt : Challenge -> text -> text.
Variable judge : bool.

(** C2. When the model answered and no rule was extracted, the result of
    a non-actionable challenge has [valid_syntax = true] and score 1, and
    the result of an actionable challenge has [valid_syntax = false] and
    score 0; in both no rule is reported.  In particular an abstention
    phrase in the answer to a non-actionable challenge gives score 1.
    The composite scorer is called only on a rule that was extracted
    from the answer. *)
Theorem C2_abstention_short_circuit (challenge : Challenge) :
  (forall response,
      generate_rule env challenge = Ok response ->
      YaraExtractor.extract_single_rule response = None ->
      (actionable challenge = false ->
       valid_syntax (value (_evaluate_challenge env prompt judge challenge)) = true
       /\ score (value (_evaluate_challenge env prompt judge challenge)) = 1%Q
       /\ generated_rule (value (_evaluate_challenge env prompt judge challenge)) = None)
      /\ (actionable challenge = true ->
          valid_syntax (value (_evaluate_challenge env prompt judge challenge)) = false
          /\ score (value (_evaluate_challenge env prompt judge challenge)) = 0%Q
          /\ generated_rule (value (_evaluate_challenge env prompt judge challenge)) = None))
  /\ (forall response,
        generate_rule env challenge = Ok response ->
        YaraExtractor._indicates_no_rule response = true ->
        actionable challenge = false ->
        YaraExtractor.extract_rules response = []
        /\ score (value (_evaluate_challenge env prompt judge challenge)) = 1%Q)
  /\ (forall rule,
        In (CallScorer rule) (calls (_evaluate_challenge env prompt judge challenge)) ->
        exists response,
          generate_rule env challenge = Ok response
          /\ YaraExtractor.extract_single_rule response = Some rule).
Proof.
  split; [| split].
  - intros response G X. unfold _evaluate_challenge. rewrite G, X.
    split; intros A; rewrite A; cbn; auto.
  - intros response G I A.
    assert (X : YaraExtractor.extract_rules response = []).
    { unfold YaraExtractor.extract_rules. rewrite I.
      destruct (is_empty response); reflexivity. }
    split; [exact X |].
    unfold _evaluate_challenge, YaraExtractor.extract_single_rule.
    rewrite G, X, A. reflexivity.
  - intros rule I. unfold _evaluate_challenge in I.
    destruct (generate_rule env challenge) as [response | e] eqn:G;
      [| destruct I].
    exists response. split; [reflexivity |].
    destruct (YaraExtractor.extract_single_rule response) as [r|] eqn:X.
    + destruct (negb (actionable challenge) && no_rule (Some r)); [destruct I |].
      destruct (actionable challenge && no_rule (Some r)); [destruct I |].
      cbn [default] in I. rewrite calls_bind in I.
      apply List.in_app_or in I. destruct I as [I | I].
      * pose proof (evaluators_no_scorer env prompt judge challenge r) as F.
        rewrite List.Forall_forall in F. destruct (F _ I). exact Logic.I.
      * rewrite calls_bind in I. cbn [calls tell snd] in I.
        apply List.in_app_or in I. destruct I as [[I | []] | I].
        -- injection I as ->. reflexivity.
        -- cbn in I. destruct (_calculate_score _ _ _); destruct I.
    + cbn [no_rule] in I. rewrite !andb_true_r in I.
      destruct (actionable challenge); destruct I.
Qed.

End Evaluation.

(** The example model abstains on an actionable challenge: score 0. *)
Lemma C2_abstention_short_circuit_witness :
  generate_rule example_env example_challenge
  = Ok (str "This behaviour is not actionable.")
  /\ YaraExtractor.extract_single_rule (str "This behaviour is not actionable.") = None
  /\ actionable example_challenge = true
  /\ Benchmark.valid_syntax
       (value (Benchmark._evaluate_challenge example_env example_prompt false
                 example_challenge)) = false
  /\ Benchmark.score
       (value (Benchmark._evaluate_challenge example_env example_prompt false
                 example_challenge)) = 0%Q.
Proof.
  assert (X : YaraExtractor.extract_single_rule
                (str "This behaviour is not actionable.") = None).
  { vm_compute. reflexivity. }
  split; [reflexivity |]. split; [exact X |]. split; [reflexivity |].
  destruct (proj2 (proj1 (C2_abstention_short_circuit example_env example_prompt
                            false example_challenge)
                     (str "This behaviour is not actionable.") eq_refl X)
              eq_refl) as [V [S _]].
  split; [exact V | exact S].
Defined.

(** ** The judge *)

Section Judge.

Import LLMJudge.

Variable env : Env.
Variable prompt : Challenge -> text -> text.

Lemma fallback_criteria (response : text) :
  forall key, In key required_keys ->
    exists inner,
      Dict.get key (fallback response) = Some (JObj inner)
      /\ Dict.get (str "score") inner = Some (JNum 5%Q).
Proof.
  intros key I. unfold required_keys in I. cbn [In] in I.
  repeat (destruct I as [<- | I]; [eexists; split; reflexivity |]).
  destruct I.
Qed.

Lemma fallback_overall (response : text) :
  exists q, _calculate_overall_score (fallback response) = Ok q
            /\ (q == 1 # 2)%Q.
Proof. eexists. split; [vm_compute; reflexivity | vm_compute; reflexivity]. Qed.


End Judge.


(** ** The range of the score *)

Section ScoreRange.

Import Benchmark.

Lemma ratio_range (a b : nat) :
  a <= b -> 0 < b -> (0 <= ratio a b <= 1)%Q.
Proof.
  intros L P. unfold ratio.
  assert (B : (0 < inject_Z (Z.of_nat b))%Q).
  { change 0%Q with (inject_Z 0). rewrite <- Zlt_Qlt. lia. }
  split.
  - apply Qle_shift_div_l; [exact B |]. rewrite Qmult_0_l.
    change 0%Q with (inject_Z 0). rewrite <- Zle_Qle. lia.
  - apply Qle_shift_div_r; [exact B |]. rewrite Qmult_1_l.
    rewrite <- Zle_Qle. lia.
Qed.

Lemma coverage_range (found expected : nat) :
  found <= expected -> (0 <= coverage found expected <= 1)%Q.
Proof.
  intros L. unfold coverage. destruct (0 <? expected) eqn:E.
  - apply Nat.ltb_lt in E. apply ratio_range; assumption.
  - split; discriminate.
Qed.

Lemma agreeing_length (results : gmap text bool) (files : list TestFile) :
  List.length (Spec.agreeing results files) <= List.length files.
Proof. unfold Spec.agreeing. apply List.filter_length_le. Qed.

(** The composite score is in [0, 1] when the found features are at most
    the expected ones and a judge score, if any, is in [0, 1]. *)
Lemma calculate_score_range (challenge : Challenge) (rule : text)
      (results : eval_results) (final : Q) :
  _calculate_score challenge rule results = Ok final ->
  List.length (default [] (er_expected_strings_found results))
    <= List.length (expected_strings challenge) ->
  List.length (default [] (er_expected_keywords_found results))
    <= List.length (expected_keywords challenge) ->
  (forall j, er_llm_judge_score results = Some j -> (0 <= j <= 1)%Q) ->
  (0 <= final <= 1)%Q.
Proof.
  intros E HS HK J. unfold _calculate_score in E. cbv zeta in E.
  pose proof (coverage_range _ _ HS) as [S0 S1].
  pose proof (coverage_range _ _ HK) as [K0 K1].
  set (s := coverage _ (List.length (expected_strings challenge))) in *.
  set (k := coverage _ (List.length (expected_keywords challenge))) in *.
  set (v := if default false (er_valid_syntax results) then 1%Q else 0%Q) in E.
  assert (V : (0 <= v <= 1)%Q).
  { subst v. destruct (default false (er_valid_syntax results)); split; discriminate. }
  destruct V as [V0 V1].
  assert (R : exists m, (0 <= m <= 1)%Q /\
                match er_llm_judge_score results with
                | Some j => Ok ((2 # 10) * v + (15 # 100) * s + (1 # 10) * k
                                + (35 # 100) * m + (2 # 10) * j)%Q
                | None => Ok ((3 # 10) * v + (2 # 10) * s + (1 # 10) * k
                              + (4 # 10) * m)%Q
                end = Ok final).
  { destruct (bool_decide _).
    - exists 0%Q. split; [split; discriminate | exact E].
    - destruct (List.length (test_files challenge)) as [|n] eqn:L; [discriminate |].
      eexists. split; [| exact E].
      apply ratio_range; [| lia].
      rewrite correct_matches_agreeing, <- L. apply agreeing_length. }
  destruct R as [m [[M0 M1] R]].
  destruct (er_llm_judge_score results) as [j|].
  - destruct (J j eq_refl) as [J0 J1]. injection R as <-. split; lra.
  - injection R as <-. split; lra.
Qed.


Lemma find_expected_strings_le (env : Env) (rule : text) (expected : list text) :
  List.length (YaraValidator._find_expected_strings env rule expected)
    <= List.length expected.
Proof. apply List.filter_length_le. Qed.

Lemma find_expected_keywords_le (env : Env) (rule : text) (expected : list text) :
  List.length (YaraValidator._find_expected_keywords rule expected)
    <= List.length expected.
Proof. apply List.filter_length_le. Qed.

Lemma validator_found_le (env : Env) (challenge : Challenge) (rule : text) :
  List.length (YaraValidator.expected_strings_found
                 (value (YaraValidator.evaluate env challenge rule)))
    <= List.length (expected_strings challenge)
  /\ List.length (YaraValidator.expected_keywords_found
                    (value (YaraValidator.evaluate env challenge rule)))
       <= List.length (expected_keywords challenge).
Proof.
  unfold YaraValidator.evaluate.
  destruct (YaraValidator.truthy _); [cbn; lia |].
  rewrite value_bind.
  destruct (yara_compile env rule); cbn; try lia.
  split.
  - destruct (expected_strings challenge) as [|e es]; [cbn; lia |].
    exact (find_expected_strings_le env rule (e :: es)).
  - destruct (expected_keywords challenge) as [|e es]; [cbn; lia |].
    exact (find_expected_keywords_le env rule (e :: es)).
Qed.

Lemma run_evaluators_fields (env : Env) (prompt : Challenge -> text -> text)
      (judge : bool) (challenge : Challenge) (rule : text) :
  er_expected_strings_found (value (run_evaluators env prompt judge challenge rule))
  = Some (YaraValidator.expected_strings_found
            (value (YaraValidator.evaluate env challenge rule)))
  /\ er_expected_keywords_found (value (run_evaluators env prompt judge challenge rule))
     = Some (YaraValidator.expected_keywords_found
               (value (YaraValidator.evaluate env challenge rule))).
Proof.
  unfold run_evaluators. rewrite !value_bind.
  destruct judge; [rewrite value_bind |]; cbn; split; reflexivity.
Qed.

(** The score of a result is in [0, 1] whenever its judge score, if it has
    one, is in [0, 1]; in particular without a judge. *)
Lemma evaluate_challenge_range (env : Env) (prompt : Challenge -> text -> text)
      (judge : bool) (challenge : Challenge) :
  (forall j, llm_judge_score (value (_evaluate_challenge env prompt judge challenge))
             = Some j -> (0 <= j <= 1)%Q) ->
  (0 <= score (value (_evaluate_challenge env prompt judge challenge)) <= 1)%Q.
Proof.
  unfold _evaluate_challenge.
  destruct (generate_rule env challenge) as [response | e];
    [| intros _; cbn; split; discriminate].
  destruct (negb (actionable challenge) && _); [intros _; cbn; split; discriminate |].
  destruct (actionable challenge && _); [intros _; cbn; split; discriminate |].
  cbv zeta. rewrite !value_bind.
  set (rule := default [] (YaraExtractor.extract_single_rule response)).
  set (results := value (run_evaluators env prompt judge challenge rule)).
  destruct (_calculate_score challenge rule results) as [final | e] eqn:E;
    [| intros _; cbn; split; discriminate].
  cbn. intros J.
  destruct (run_evaluators_fields env prompt judge challenge rule) as [FS FK].
  destruct (validator_found_le env challenge rule) as [LS LK].
  apply (calculate_score_range challenge rule results final E).
  - subst results. rewrite FS. exact LS.
  - subst results. rewrite FK. exact LK.
  - exact J.
Qed.

(** C3 (at a failing input).  With a judge configured, a minimal rule
    that compiles and a judge answer that scores every criterion 100,
    the judge score is 10 and the score of the result is 49/20, which is
    greater than 1. *)
Theorem C3_judge_score_out_of_range :
  (exists j,
      llm_judge_score (value (_evaluate_challenge judge_env example_prompt true
                                example_challenge)) = Some j
      /\ (j == 10)%Q)
  /\ (score (value (_evaluate_challenge judge_env example_prompt true
                      example_challenge)) == 49 # 20)%Q
  /\ (1 < score (value (_evaluate_challenge judge_env example_prompt true
                          example_challenge)))%Q.
Proof.
  split; [| split].
  - eexists. split; vm_compute; reflexivity.
  - vm_compute. reflexivity.
  - vm_compute. reflexivity.
Qed.

End ScoreRange.

(** ** The arithmetic of the scorer *)

Section ScorerArithmetic.

Import Benchmark Binary64.

Local Open Scope Q_scope.

(** The unit roundoff. *)
Lemma pow2_roundoff : pow2 (1 - 54) == 1 # 9007199254740992.
Proof. reflexivity. Qed.

Lemma round_0 : round 0 == 0.
Proof. reflexivity. Qed.

Lemma round_1 : round 1 == 1.
Proof. vm_compute. reflexivity. Qed.

(** Below 2 a rounding moves a number by at most [2^-53]. *)
Lemma round_near (x : Q) :
  0 <= x -> x < 2 ->
  - (1 # 9007199254740992) <= round x - x <= 1 # 9007199254740992.
Proof.
  intros P U. rewrite <- pow2_roundoff. apply round_error; [exact P | | lia].
  exact U.
Qed.

Lemma round_unit (x : Q) : 0 <= x <= 1 -> 0 <= round x <= 1.
Proof.
  intros [L U]. split.
  - apply Qle_trans with (round 0); [rewrite round_0; apply Qle_refl |].
    apply round_mono. exact L.
  - apply Qle_trans with (round 1); [| rewrite round_1; apply Qle_refl].
    apply round_mono. exact U.
Qed.

Lemma round_nonneg (x : Q) : 0 <= x -> 0 <= round x.
Proof.
  intros L. apply Qle_trans with (round 0); [rewrite round_0; apply Qle_refl |].
  apply round_mono. exact L.
Qed.

(** One weighted term: the product of a rounded weight and a sub-score
    that is within [2^-53] of its exact value. *)
Lemma term_near (W S s : Q) :
  0 <= W <= 1 -> 0 <= S <= 1 -> 0 <= s <= 1 ->
  - (1 # 9007199254740992) <= s - S <= 1 # 9007199254740992 ->
  0 <= Rounded.mul round (Rounded.lit round W) s
  /\ - (3 # 9007199254740992)
     <= Rounded.mul round (Rounded.lit round W) s - W * S
     <= 3 # 9007199254740992.
Proof.
  intros [W0 W1] [S0 S1] [s0 s1] [E0 E1].
  unfold Rounded.mul, Rounded.lit.
  assert (Wn : - (1 # 9007199254740992) <= round W - W <= 1 # 9007199254740992).
  { destruct (Qlt_le_dec W 1) as [L | G].
    - apply round_near; lra.
    - assert (Q1 : W == 1) by lra. rewrite Q1, round_1. split; discriminate. }
  pose proof (round_unit W (conj W0 W1)) as [w0 w1].
  set (w := round W) in *.
  assert (P0 : 0 <= w * s) by nra.
  assert (P1 : w * s <= 1) by nra.
  assert (Pn : - (1 # 9007199254740992) <= round (w * s) - w * s
               <= 1 # 9007199254740992).
  { destruct (Qlt_le_dec (w * s) 1) as [L | G].
    - apply round_near; lra.
    - assert (Q1 : w * s == 1) by lra. rewrite Q1, round_1. split; discriminate. }
  split; [apply round_nonneg; exact P0 |].
  destruct Wn as [Wa Wb]. destruct Pn as [Pa Pb].
  set (p := round (w * s)) in *.
  split; nra.
Qed.


Lemma sum_near (a b : Q) :
  0 <= a -> 0 <= b -> a + b < 2 ->
  0 <= Rounded.add round a b
  /\ - (1 # 9007199254740992) <= Rounded.add round a b - (a + b)
     <= 1 # 9007199254740992.
Proof.
  intros A B U. unfold Rounded.add. split.
  - apply round_nonneg. lra.
  - apply round_near; lra.
Qed.

Lemma ratio_near (a b : nat) :
  (a <= b)%nat -> (0 < b)%nat ->
  0 <= Rounded.ratio round a b <= 1
  /\ - (1 # 9007199254740992) <= Rounded.ratio round a b - ratio a b
     <= 1 # 9007199254740992.
Proof.
  intros L P. pose proof (ratio_range a b L P) as [R0 R1].
  unfold Rounded.ratio. fold (ratio a b). split.
  - apply round_unit. split; assumption.
  - destruct (Qlt_le_dec (ratio a b) 1) as [U | G].
    + apply round_near; lra.
    + assert (Q1 : ratio a b == 1) by lra. rewrite Q1, round_1. split; discriminate.
Qed.

Lemma coverage_near (found expected : nat) :
  (found <= expected)%nat ->
  0 <= Rounded.coverage round found expected <= 1
  /\ - (1 # 9007199254740992)
     <= Rounded.coverage round found expected - coverage found expected
     <= 1 # 9007199254740992.
Proof.
  intros L. unfold Rounded.coverage, coverage.
  destruct (0 <? expected)%nat eqn:E.
  - apply Nat.ltb_lt in E. apply ratio_near; assumption.
  - repeat split; discriminate.
Qed.

(** The weighted sum of four and of five sub-scores, each operation
    rounded, is within [2^-48] of the exact weighted sum. *)
Lemma weighted_sum_near (W1 W2 W3 W4 W5 S1 S2 S3 S4 S5 s1 s2 s3 s4 s5 : Q) :
  0 <= W1 -> 0 <= W2 -> 0 <= W3 -> 0 <= W4 -> 0 <= W5 ->
  W1 + W2 + W3 + W4 + W5 <= 1 ->
  0 <= S1 <= 1 -> 0 <= S2 <= 1 -> 0 <= S3 <= 1 -> 0 <= S4 <= 1 -> 0 <= S5 <= 1 ->
  0 <= s1 <= 1 -> 0 <= s2 <= 1 -> 0 <= s3 <= 1 -> 0 <= s4 <= 1 -> 0 <= s5 <= 1 ->
  - (1 # 9007199254740992) <= s1 - S1 <= 1 # 9007199254740992 ->
  - (1 # 9007199254740992) <= s2 - S2 <= 1 # 9007199254740992 ->
  - (1 # 9007199254740992) <= s3 - S3 <= 1 # 9007199254740992 ->
  - (1 # 9007199254740992) <= s4 - S4 <= 1 # 9007199254740992 ->
  - (1 # 9007199254740992) <= s5 - S5 <= 1 # 9007199254740992 ->
  let term W s := Rounded.mul round (Rounded.lit round W) s in
  let sum4 :=
    Rounded.add round
      (Rounded.add round (Rounded.add round (term W1 s1) (term W2 s2)) (term W3 s3))
      (term W4 s4) in
  - (15 # 9007199254740992)
  <= sum4 - (W1 * S1 + W2 * S2 + W3 * S3 + W4 * S4)
  <= 15 # 9007199254740992
  /\ - (19 # 9007199254740992)
     <= Rounded.add round sum4 (term W5 s5)
        - (W1 * S1 + W2 * S2 + W3 * S3 + W4 * S4 + W5 * S5)
     <= 19 # 9007199254740992.
Proof.
  intros w1 w2 w3 w4 w5 WS A1 A2 A3 A4 A5 B1 B2 B3 B4 B5 E1 E2 E3 E4 E5 term sum4.
  destruct (term_near W1 S1 s1 ltac:(lra) A1 B1 E1) as [T1 N1].
  destruct (term_near W2 S2 s2 ltac:(lra) A2 B2 E2) as [T2 N2].
  destruct (term_near W3 S3 s3 ltac:(lra) A3 B3 E3) as [T3 N3].
  destruct (term_near W4 S4 s4 ltac:(lra) A4 B4 E4) as [T4 N4].
  destruct (term_near W5 S5 s5 ltac:(lra) A5 B5 E5) as [T5 N5].
  fold (term W1 s1) in T1, N1. fold (term W2 s2) in T2, N2.
  fold (term W3 s3) in T3, N3. fold (term W4 s4) in T4, N4.
  fold (term W5 s5) in T5, N5.
  assert (P1 : 0 <= W1 * S1 <= W1) by (split; nra).
  assert (P2 : 0 <= W2 * S2 <= W2) by (split; nra).
  assert (P3 : 0 <= W3 * S3 <= W3) by (split; nra).
  assert (P4 : 0 <= W4 * S4 <= W4) by (split; nra).
  assert (P5 : 0 <= W5 * S5 <= W5) by (split; nra).
  set (t1 := term W1 s1) in *. set (t2 := term W2 s2) in *.
  set (t3 := term W3 s3) in *. set (t4 := term W4 s4) in *.
  set (t5 := term W5 s5) in *.
  set (p1 := W1 * S1) in *. set (p2 := W2 * S2) in *. set (p3 := W3 * S3) in *.
  set (p4 := W4 * S4) in *. set (p5 := W5 * S5) in *.
  destruct (sum_near t1 t2 T1 T2 ltac:(lra)) as [X2 Y2].
  set (a2 := Rounded.add round t1 t2) in *.
  destruct (sum_near a2 t3 X2 T3 ltac:(lra)) as [X3 Y3].
  set (a3 := Rounded.add round a2 t3) in *.
  destruct (sum_near a3 t4 X3 T4 ltac:(lra)) as [X4 Y4].
  subst sum4. fold a2. fold a3.
  set (a4 := Rounded.add round a3 t4) in *.
  destruct (sum_near a4 t5 X4 T5 ltac:(lra)) as [X5 Y5].
  set (a5 := Rounded.add round a4 t5) in *.
  split; lra.
Qed.


(** In exact arithmetic the scorer returns the score of the
    specification. *)
Lemma calculate_score_exact (challenge : Challenge) (rule : text)
      (results : eval_results) :
  (default ∅ (er_execution_results results) <> ∅ -> test_files challenge <> []) ->
  exists final,
    _calculate_score challenge rule results = Ok final
    /\ final == Spec.composite challenge results.
Proof.
  intros P. unfold _calculate_score, Spec.composite, Spec.match_score.
  rewrite !coverage_feature_score, correct_matches_agreeing.
  destruct (decide (default ∅ (er_execution_results results) = ∅)) as [E | N].
  - rewrite bool_decide_eq_true_2 by exact E.
    destruct (er_llm_judge_score results) as [j|]; eexists;
      (split; [reflexivity |]); unfold Spec.final, Spec.syntax_score; ring.
  - rewrite bool_decide_eq_false_2 by exact N.
    specialize (P N).
    destruct (test_files challenge) as [|f fs] eqn:F; [contradiction |].
    cbn [List.length]. unfold ratio.
    destruct (er_llm_judge_score results) as [j|]; eexists;
      (split; [reflexivity |]); unfold Spec.final, Spec.syntax_score; ring.
Qed.

(** The match score of the scorer, exact and rounded. *)
Lemma match_score_near (challenge : Challenge) (results : eval_results) :
  (default ∅ (er_execution_results results) <> ∅ -> test_files challenge <> []) ->
  exists M m,
    (if bool_decide (default ∅ (er_execution_results results) = ∅) then Ok 0
     else match List.length (test_files challenge) with
          | O => Raise division_by_zero
          | n => Ok (ratio (correct_matches (default ∅ (er_execution_results results))
                              (test_files challenge)) n)
          end) = Ok M
    /\ (if bool_decide (default ∅ (er_execution_results results) = ∅) then Ok 0
        else match List.length (test_files challenge) with
             | O => Raise division_by_zero
             | n => Ok (Rounded.ratio round
                          (correct_matches (default ∅ (er_execution_results results))
                             (test_files challenge)) n)
             end) = Ok m
    /\ 0 <= M <= 1 /\ 0 <= m <= 1
    /\ - (1 # 9007199254740992) <= m - M <= 1 # 9007199254740992.
Proof.
  intros P.
  destruct (bool_decide (default ∅ (er_execution_results results) = ∅)) eqn:B.
  - exists 0, 0. repeat split; discriminate.
  - apply bool_decide_eq_false in B. specialize (P B).
    destruct (List.length (test_files challenge)) as [|n] eqn:L.
    { destruct (test_files challenge); [contradiction | discriminate L]. }
    assert (A : (correct_matches (default ∅ (er_execution_results results))
                   (test_files challenge) <= S n)%nat).
    { rewrite correct_matches_agreeing, <- L. apply agreeing_length. }
    destruct (ratio_near _ (S n) A ltac:(lia)) as [R N].
    pose proof (ratio_range _ (S n) A ltac:(lia)) as R'.
    eexists _, _. split; [reflexivity |]. split; [reflexivity |].
    split; [exact R' |]. split; [exact R | exact N].
Qed.



(** C1 (as stated) fails.  With a judge score of 0.0 and every other
    sub-score 1 the specification has a final score of 0.80; the scorer
    returns 0.7999999999999999, the binary64 number just below. *)
Lemma C1_counterexample :
  exists final,
    _calculate_score_binary64 example_challenge_with_files
      (str "rule a { condition: true }") judged_zero_results = Ok final
    /\ final == 7205759403792793 # 9007199254740992
    /\ Spec.composite example_challenge_with_files judged_zero_results == 8 # 10
    /\ ~ final == Spec.composite example_challenge_with_files judged_zero_results.
Proof.
  eexists. split; [reflexivity |].
  split; [vm_compute; reflexivity |].
  split; [vm_compute; reflexivity |].
  vm_compute. discriminate.
Qed.


End ScorerArithmetic.

(** ** Deduplication *)

Section Deduplication.

Import YaraExtractor.

Lemma dedup_step_not_considered (st : dedup_state) (rule : text) :
  ~ considered rule -> dedup_step st rule = st.
Proof.
  unfold considered, dedup_step. intros N.
  destruct (negb _ && _); [contradiction N; reflexivity | reflexivity].
Qed.

Lemma dedup_step_bodies_grow (st : dedup_state) (rule : text) :
  seen_rule_bodies st ⊆ seen_rule_bodies (dedup_step st rule).
Proof.
  unfold dedup_step, accept. cbv zeta.
  repeat match goal with
         | |- context [if ?b then _ else _] => destruct b
         | |- context [match ?o with Some _ => _ | None => _ end] => destruct o
         end; cbn; set_solver.
Qed.

Lemma dedup_fold_bodies_grow (rules : list text) (st : dedup_state) :
  seen_rule_bodies st ⊆ seen_rule_bodies (fold_left dedup_step rules st).
Proof.
  revert st. induction rules as [|r rules IH]; intros st; cbn; [set_solver |].
  etransitivity; [apply (dedup_step_bodies_grow st r) | apply IH].
Qed.

Lemma dedup_step_records_body (st : dedup_state) (rule body : text) :
  considered rule -> body_key rule = Some body ->
  body ∈ seen_rule_bodies (dedup_step st rule).
Proof.
  unfold considered, body_key, dedup_step. intros C B. cbv zeta.
  rewrite C, B. cbv beta iota.
  assert (A : forall bodies cleaned,
             bodies = seen_rule_bodies (accept st bodies cleaned)).
  { intros bodies cleaned. unfold accept. cbv zeta.
    destruct (bool_decide _); reflexivity. }
  destruct (bool_decide (body ∈ seen_rule_bodies st)) eqn:E.
  - apply bool_decide_eq_true in E.
    destruct (negb (contains (str "import") (_clean_rule rule))); cbn [andb].
    + exact E.
    + rewrite <- A. apply elem_of_union_l, elem_of_singleton. reflexivity.
  - cbn [andb]. rewrite <- A.
    apply elem_of_union_l, elem_of_singleton. reflexivity.
Qed.

Lemma dedup_fold_records_body (rules : list text) (st : dedup_state)
      (rule body : text) :
  In rule rules -> considered rule -> body_key rule = Some body ->
  body ∈ seen_rule_bodies (fold_left dedup_step rules st).
Proof.
  revert st. induction rules as [|r rules IH]; intros st I C B; [destruct I |].
  cbn. destruct I as [-> | I].
  - apply (dedup_fold_bodies_grow rules).
    apply dedup_step_records_body; assumption.
  - apply IH; assumption.
Qed.

Lemma dedup_step_skips (st : dedup_state) (rule body : text) :
  body_key rule = Some body -> body ∈ seen_rule_bodies st ->
  mentions_import rule = false ->
  dedup_step st rule = st.
Proof.
  unfold body_key, mentions_import, dedup_step. intros B S M. cbv zeta.
  rewrite B, M, (bool_decide_eq_true_2 _ S). cbn.
  destruct (negb _ && _); reflexivity.
Qed.

Lemma dedup_step_rules_grow (st : dedup_state) (rule x : text) :
  In x (cleaned_rules st) -> In x (cleaned_rules (dedup_step st rule)).
Proof.
  unfold dedup_step, accept. intros I. cbv zeta.
  repeat match goal with
         | |- context [if ?b then _ else _] => destruct b
         | |- context [match ?o with Some _ => _ | None => _ end] => destruct o
         end; cbn; try exact I; apply List.in_or_app; left; exact I.
Qed.

Lemma dedup_fold_rules_grow (rules : list text) (st : dedup_state) (x : text) :
  In x (cleaned_rules st) -> In x (cleaned_rules (fold_left dedup_step rules st)).
Proof.
  revert st. induction rules as [|r rules IH]; intros st I; cbn; [exact I |].
  apply IH, dedup_step_rules_grow, I.
Qed.

(** The normal forms already seen are those of earlier candidates. *)
Lemma dedup_step_seen (st : dedup_state) (rule n : text) :
  n ∈ seen_rules (dedup_step st rule) ->
  n ∈ seen_rules st \/ n = normal_form rule.
Proof.
  unfold dedup_step, accept, normal_form. cbv zeta.
  repeat match goal with
         | |- context [if ?b then _ else _] => destruct b
         | |- context [match ?o with Some _ => _ | None => _ end] => destruct o
         end; cbn; intros H;
    first [ left; exact H
          | apply elem_of_union in H; destruct H as [H | H];
            [right; apply elem_of_singleton in H; exact H | left; exact H] ].
Qed.

Lemma dedup_fold_seen (rules : list text) (n : text) :
  n ∈ seen_rules (fold_left dedup_step rules (mkDedup [] ∅ ∅)) ->
  exists rule, In rule rules /\ n = normal_form rule.
Proof.
  induction rules as [|r rules IH] using List.rev_ind; cbn.
  - set_solver.
  - rewrite List.fold_left_app. cbn. intros H.
    apply dedup_step_seen in H. destruct H as [H | ->].
    + destruct (IH H) as [rule [I E]]. exists rule.
      split; [apply List.in_or_app; left; exact I | exact E].
    + exists r. split; [apply List.in_or_app; right; left |]; reflexivity.
Qed.

Lemma dedup_step_keeps (st : dedup_state) (rule : text) :
  considered rule -> mentions_import rule = true ->
  normal_form rule ∉ seen_rules st ->
  In (_clean_rule rule) (cleaned_rules (dedup_step st rule)).
Proof.
  unfold considered, mentions_import, normal_form, dedup_step, accept.
  intros C M N. cbv zeta. rewrite C, M. cbn [negb].
  rewrite (bool_decide_eq_false_2 _ N).
  destruct (rule_body (_clean_rule rule)); [rewrite andb_false_r |]; cbn;
    apply List.in_or_app; right; left; reflexivity.
Qed.




(** The body key stops at the first closing brace: two rules that share
    their text up to the end of a hex string, and differ after it, count
    as duplicates and only the first is returned. *)
Lemma dedup_truncated_body :
  body_key (join [NL] (hex_rule "    $a"))
  = Some (str "rule a { strings: $a = { 4D 5A }")
  /\ extract_rules (two_blocks (hex_rule "    $a") (hex_rule "    not $a"))
     = [join [NL] (hex_rule "    $a")].
Proof. split; vm_compute; reflexivity. Qed.

End Deduplication.

(** ** Facts on the matcher: soundness, absence, repetition *)

Section RegexSoundness.

Import Re.


Lemma ahead_refl (p : pos) : ahead p p.
Proof. exists []. split; reflexivity. Qed.

Lemma ahead_trans (p q r : pos) : ahead p q -> ahead q r -> ahead p r.
Proof.
  intros [w [A B]] [v [C D]]. exists (w ++ v). split.
  - rewrite A, C, app_assoc. reflexivity.
  - rewrite D, B, rev_app_distr, app_assoc. reflexivity.
Qed.

Lemma ahead_step (p : pos) (c : ascii) (rest : text) :
  after p = c :: rest -> ahead p (Pos (c :: before p) rest).
Proof. intros E. exists [c]. split; [exact E | reflexivity]. Qed.


Lemma run_star (g : bool) (a : re) k p cs :
  run (Star g a) k p cs = star_loop g a k (S (List.length (after p))) p cs.
Proof. reflexivity. Qed.

(** A result of [run] is a result of its continuation, at a position
    ahead. *)
Lemma run_sound (r : re) :
  forall k p cs x,
    run r k p cs = Some x ->
    exists q cs', ahead p q /\ k q cs' = Some x.
Proof.
  induction r as [| f | a IHa b IHb | a IHa b IHb | g a IHa | n a IHa | ml | ml | a IHa];
    intros k p cs x H.
  - exists p, cs. split; [apply ahead_refl | exact H].
  - cbn [run] in H. destruct (after p) as [|c rest] eqn:E; [discriminate |].
    destruct (f c); [| discriminate].
    eexists _, cs. split; [apply ahead_step; exact E | exact H].
  - cbn [run] in H. apply IHa in H. destruct H as [q [cs' [A H]]].
    apply IHb in H. destruct H as [q' [cs'' [B H]]].
    exists q', cs''. split; [eapply ahead_trans; eassumption | exact H].
  - cbn [run] in H. destruct (run a k p cs) eqn:E.
    + injection H as <-. apply IHa in E. exact E.
    + apply IHb in H. exact H.
  - rewrite run_star in H.
    remember (S (List.length (after p))) as fuel eqn:F. clear F.
    revert p cs x H. induction fuel as [|fuel IHf]; intros p cs x H.
    + exists p, cs. split; [apply ahead_refl | exact H].
    + cbn [star_loop] in H. cbv zeta in H.
      assert (B : forall y,
                 run a (fun p' cs' =>
                          if List.length (after p') <? List.length (after p)
                          then star_loop g a k fuel p' cs' else None) p cs = Some y ->
                 exists q cs', ahead p q /\ k q cs' = Some y).
      { intros y E. apply IHa in E. destruct E as [q [cs' [A E]]].
        destruct (List.length (after q) <? List.length (after p)); [| discriminate].
        apply IHf in E. destruct E as [q' [cs'' [A' E]]].
        exists q', cs''. split; [eapply ahead_trans; eassumption | exact E]. }
      destruct g.
      * destruct (run a _ p cs) eqn:E.
        -- injection H as <-. apply B. reflexivity.
        -- exists p, cs. split; [apply ahead_refl | exact H].
      * destruct (k p cs) eqn:E.
        -- injection H as <-. exists p, cs. split; [apply ahead_refl | exact E].
        -- apply B. exact H.
  - cbn [run] in H. apply IHa in H. destruct H as [q [cs' [A H]]].
    eexists q, _. split; [exact A | exact H].
  - cbn [run] in H. destruct (at_bol ml p); [| discriminate].
    exists p, cs. split; [apply ahead_refl | exact H].
  - cbn [run] in H. destruct (at_eol ml p); [| discriminate].
    exists p, cs. split; [apply ahead_refl | exact H].
  - cbn [run] in H. destruct (run a _ p cs); [discriminate |].
    exists p, cs. split; [apply ahead_refl | exact H].
Qed.

End RegexSoundness.

Section RegexAbsence.

Import Re.

Lemma free_of_ahead (P : ascii -> Prop) (p q : pos) :
  ahead p q -> free_of P (after p) -> free_of P (after q).
Proof.
  intros [w [A _]] F x I. apply F. rewrite A. apply List.in_or_app. right. exact I.
Qed.

Lemma run_none (r : re) k p cs :
  (forall q cs', ahead p q -> k q cs' = None) -> run r k p cs = None.
Proof.
  intros H. destruct (run r k p cs) as [x|] eqn:E; [| reflexivity].
  apply run_sound in E. destruct E as [q [cs' [A E]]].
  rewrite (H q cs' A) in E. discriminate.
Qed.

Lemma needs_none (P : ascii -> Prop) (r : re) :
  needs P r -> forall k p cs, free_of P (after p) -> run r k p cs = None.
Proof.
  induction r as [| f | a IHa b IHb | a IHa b IHb | g a IHa | n a IHa | ml | ml | a IHa];
    cbn [needs]; intros N k p cs F; try contradiction.
  - cbn [run]. destruct (after p) as [|c rest] eqn:E; [reflexivity |].
    destruct (f c) eqn:Fc; [| reflexivity].
    exfalso. apply (F c); [left; reflexivity | apply N, Fc].
  - cbn [run]. destruct N as [N | N].
    + apply IHa; assumption.
    + apply run_none. intros q cs' A. apply IHb; [exact N |].
      eapply free_of_ahead; eassumption.
  - cbn [run]. destruct N as [Na Nb].
    rewrite (IHa Na) by exact F. apply IHb; assumption.
  - cbn [run]. apply IHa; assumption.
Qed.

Lemma free_of_tail (P : ascii -> Prop) (c : ascii) (s : text) :
  free_of P (c :: s) -> free_of P s.
Proof. intros F x I. apply F. right. exact I. Qed.

Lemma sub_needs (P : ascii -> Prop) (r : re) (tpl : list piece) :
  needs P r -> forall s pre, free_of P s -> sub_from r tpl 0 pre s = s.
Proof.
  intros N s. induction s as [|c s IH]; intros pre F; cbn [sub_from];
    unfold match_at; rewrite (needs_none P r N) by exact F; [reflexivity |].
  f_equal. apply IH. eapply free_of_tail. exact F.
Qed.

Lemma search_needs (P : ascii -> Prop) (r : re) :
  needs P r -> forall s pre, free_of P s -> search_from r pre s = None.
Proof.
  intros N s. induction s as [|c s IH]; intros pre F; cbn [search_from];
    unfold match_at; rewrite (needs_none P r N) by exact F; [reflexivity |].
  apply IH. eapply free_of_tail. exact F.
Qed.

End RegexAbsence.

Section StarFacts.

Import Re.

Lemma run_chr (f : ascii -> bool) k pre c rest cs :
  run (Chr f) k (Pos pre (c :: rest)) cs
  = if f c then k (Pos (c :: pre) rest) cs else None.
Proof. reflexivity. Qed.

Lemma star_chr_nil (g : bool) (f : ascii -> bool) k pre cs :
  run (Star g (Chr f)) k (Pos pre []) cs = k (Pos pre []) cs.
Proof. rewrite run_star. cbn. destruct g; [reflexivity |]. destruct (k _ _); reflexivity. Qed.

Lemma star_chr_step (f : ascii -> bool) k pre c rest cs :
  run (Star true (Chr f)) k (Pos pre (c :: rest)) cs
  = if f c
    then match run (Star true (Chr f)) k (Pos (c :: pre) rest) cs with
         | Some x => Some x
         | None => k (Pos pre (c :: rest)) cs
         end
    else k (Pos pre (c :: rest)) cs.
Proof.
  rewrite !run_star. cbn [after List.length].
  cbn [star_loop]. cbv zeta. cbn [run after before].
  destruct (f c); [| reflexivity].
  cbn [after List.length].
  replace (List.length rest <? S (List.length rest)) with true
    by (symmetry; apply Nat.ltb_lt; lia).
  reflexivity.
Qed.

(** A greedy repetition of a class reads a whole block of the class
    when the continuation accepts what follows. *)
Lemma greedy_block (f : ascii -> bool) k (w rest : text) cs x :
  List.Forall (fun c => f c = true) w ->
  match rest with [] => True | c :: _ => f c = false end ->
  forall pre,
    k (Pos (rev w ++ pre) rest) cs = Some x ->
    run (Star true (Chr f)) k (Pos pre (w ++ rest)) cs = Some x.
Proof.
  intros W R. induction W as [|c w Fc W IH]; intros pre K.
  - cbn [app rev] in *. destruct rest as [|c rest].
    + rewrite star_chr_nil. exact K.
    + rewrite star_chr_step, R. exact K.
  - cbn [app]. rewrite star_chr_step, Fc.
    rewrite (IH (c :: pre)); [reflexivity |].
    cbn [rev] in K. rewrite <- app_assoc in K. exact K.
Qed.

End StarFacts.

Section Family.

Import Re YaraExtractor.


Lemma word_not_space (c : ascii) : isword c = true -> isspace c = false.
Proof.
  destruct c as [[] [] [] [] [] [] [] []]; vm_compute; intros H;
    first [reflexivity | discriminate].
Qed.

Lemma word_plain (c : ascii) : isword c = true -> plain c = true.
Proof.
  destruct c as [[] [] [] [] [] [] [] []]; vm_compute; intros H;
    first [reflexivity | discriminate].
Qed.

Lemma run_seq (a b : re) k p cs :
  run (Seq a b) k p cs = run a (fun p' cs' => run b k p' cs') p cs.
Proof. reflexivity. Qed.

Lemma run_group (n : nat) (a : re) k p cs :
  run (Group n a) k p cs
  = run a (fun p' cs' => k p' ((n, consumed p p') :: cs')) p cs.
Proof. reflexivity. Qed.

Lemma run_literals (w : text) k pre rest cs :
  run (seqs (map lit w)) k (Pos pre (w ++ rest)) cs
  = k (Pos (rev w ++ pre) rest) cs.
Proof.
  revert pre. induction w as [|c w IH]; intros pre; [reflexivity |].
  destruct w as [|c' w].
  - cbn [map seqs app rev]. unfold lit. rewrite run_chr, ceqb_refl. reflexivity.
  - change (seqs (map lit (c :: c' :: w)))
      with (Seq (lit c) (seqs (map lit (c' :: w)))).
    rewrite run_seq. change ((c :: c' :: w) ++ rest) with (c :: ((c' :: w) ++ rest)).
    unfold lit at 1. rewrite run_chr, ceqb_refl, IH.
    cbn [rev]. rewrite <- !app_assoc. reflexivity.
Qed.

Lemma consumed_block (a b w t : text) :
  consumed (Pos a (w ++ t)) (Pos b t) = w.
Proof.
  unfold consumed. cbn [after]. rewrite List.length_app.
  replace (List.length w + List.length t - List.length t) with (List.length w) by lia.
  rewrite List.firstn_app, List.firstn_all, Nat.sub_diag. cbn. apply app_nil_r.
Qed.

Lemma match_declaration (name rest : text) :
  name <> [] ->
  List.Forall (fun c => isword c = true) name ->
  exists b,
    match_at RULE_DECLARATION
             (Pos [] (str "rule" ++ SP :: name ++ SP :: "{"%char :: rest))
    = Some (Pos b rest, [(1, name)]).
Proof.
  intros N W. destruct name as [|n0 name]; [contradiction |].
  inversion W as [|? ? W0 W1]; subst.
  eexists. unfold match_at, RULE_DECLARATION. cbn [seqs].
  rewrite run_seq. unfold lits. rewrite run_literals.
  rewrite run_seq. unfold plus at 1. rewrite run_seq.
  unfold space at 1. rewrite run_chr.
  change (isspace SP) with true. cbv iota.
  change ((n0 :: name) ++ SP :: "{"%char :: rest)
    with (n0 :: (name ++ SP :: "{"%char :: rest)).
  unfold space at 1. rewrite star_chr_step, (word_not_space n0 W0).
  rewrite run_seq, run_group. unfold plus at 1. rewrite run_seq.
  unfold word at 1. rewrite run_chr, W0.
  unfold word at 1.
  erewrite greedy_block; [reflexivity | exact W1 | reflexivity |].
  rewrite run_seq. unfold space at 1.
  rewrite star_chr_step. change (isspace SP) with true. cbv iota.
  rewrite star_chr_step. change (isspace "{"%char) with false. cbv iota.
  unfold lit. rewrite run_chr, ceqb_refl.
  rewrite (consumed_block _ _ (n0 :: name) (SP :: "{"%char :: rest)).
  reflexivity.
Qed.

End Family.

Section Family2.

Import Re YaraExtractor.

Lemma sub_from_skip (r : re) (tpl : list piece) (w rest : text) :
  forall pre,
    sub_from r tpl (List.length w) pre (w ++ rest)
    = sub_from r tpl 0 (rev w ++ pre) rest.
Proof.
  induction w as [|c w IH]; intros pre; [reflexivity |].
  cbn [List.length app sub_from rev]. rewrite IH, <- app_assoc. reflexivity.
Qed.

Lemma sub_from_match (r : re) (tpl : list piece) (pre w rest b : text) (cs : caps) :
  w <> [] ->
  match_at r (Pos pre (w ++ rest)) = Some (Pos b rest, cs) ->
  sub_from r tpl 0 pre (w ++ rest)
  = expand tpl cs ++ sub_from r tpl 0 (rev w ++ pre) rest.
Proof.
  intros N M. destruct w as [|c w]; [contradiction |].
  change ((c :: w) ++ rest) with (c :: (w ++ rest)) at 1.
  cbn [sub_from].
  change (c :: (w ++ rest)) with ((c :: w) ++ rest).
  rewrite M, consumed_block. cbn [List.length].
  f_equal. rewrite sub_from_skip. cbn [rev]. rewrite <- app_assoc. reflexivity.
Qed.

Lemma plain_not_special (c : ascii) : plain c = true -> ~ special c.
Proof.
  intros P S. unfold special in S.
  repeat (destruct S as [-> | S]; [discriminate P |]). subst c. discriminate P.
Qed.

Lemma plain_not_brace (c : ascii) : plain c = true -> ~ opening_brace c.
Proof. intros P S. unfold opening_brace in S. subst c. discriminate P. Qed.

Lemma free_of_app (P : ascii -> Prop) (a b : text) :
  free_of P a -> free_of P b -> free_of P (a ++ b).
Proof.
  intros A B x I. apply List.in_app_or in I. destruct I; [apply A | apply B]; assumption.
Qed.

Lemma free_of_cons (P : ascii -> Prop) (c : ascii) (s : text) :
  ~ P c -> free_of P s -> free_of P (c :: s).
Proof. intros C S x [<- | I]; [exact C | apply S, I]. Qed.

Lemma free_of_nil (P : ascii -> Prop) : free_of P [].
Proof. intros x []. Qed.

Lemma free_of_forall (P : ascii -> Prop) (f : ascii -> bool) (s : text) :
  (forall c, f c = true -> ~ P c) ->
  List.Forall (fun c => f c = true) s -> free_of P s.
Proof.
  intros H F x I. rewrite List.Forall_forall in F. apply H, F, I.
Qed.

End Family2.

Section Family3.

Import Re YaraExtractor.


Variables name cond : text.
Hypothesis name_nonempty : name <> [].
Hypothesis name_word : List.Forall (fun c => isword c = true) name.
Hypothesis cond_plain : List.Forall (fun c => plain c = true) cond.


Lemma line_shape :
  single_line_rule name cond
  = str "rule" ++ SP :: name ++ SP :: "{"%char :: (rule_tail cond).
Proof. reflexivity. Qed.

Ltac literal_free :=
  repeat (apply free_of_cons;
          [ first [ intros E; discriminate E
                  | intros E; unfold special in E;
                    repeat (destruct E as [E | E]; [discriminate E |]);
                    discriminate E ] |]);
  try apply free_of_nil.

Lemma tail_free_special : free_of special (rule_tail cond).
Proof.
  unfold rule_tail. apply free_of_app; [unfold str; cbn; literal_free |].
  apply free_of_app; [| unfold str; cbn; literal_free].
  eapply free_of_forall; [apply plain_not_special | exact cond_plain].
Qed.

Lemma tail_free_brace : free_of opening_brace (rule_tail cond).
Proof.
  unfold rule_tail. apply free_of_app; [unfold str; cbn; literal_free |].
  apply free_of_app; [| unfold str; cbn; literal_free].
  eapply free_of_forall; [apply plain_not_brace | exact cond_plain].
Qed.

Lemma line_free_special : free_of special (single_line_rule name cond).
Proof.
  rewrite line_shape. apply free_of_app; [unfold str; cbn; literal_free |].
  apply free_of_cons; [intros E; unfold special in E;
                       repeat (destruct E as [E | E]; [discriminate E |]);
                       discriminate E |].
  apply free_of_app.
  - eapply free_of_forall; [| exact name_word].
    intros c W. apply plain_not_special, word_plain, W.
  - do 2 (apply free_of_cons;
          [intros E; unfold special in E;
           repeat (destruct E as [E | E]; [discriminate E |]);
           discriminate E |]).
    apply tail_free_special.
Qed.


Ltac needs_unfold :=
  unfold lits, lit, plus, opt, str;
  cbn [needs seqs map list_ascii_of_string app].

Lemma needs_leading_fence : needs special LEADING_FENCE.
Proof.
  unfold LEADING_FENCE. needs_unfold. right. left. left.
  intros x E. apply ceqb_eq in E. subst x. unfold special. tauto.
Qed.

Lemma needs_trailing_fence : needs special TRAILING_FENCE.
Proof.
  unfold TRAILING_FENCE. needs_unfold. left.
  intros x E. apply ceqb_eq in E. subst x. unfold special. tauto.
Qed.

Lemma needs_tight_assign : needs special TIGHT_ASSIGN.
Proof.
  unfold TIGHT_ASSIGN. needs_unfold. left.
  intros x E. apply ceqb_eq in E. subst x. unfold special. tauto.
Qed.

Lemma needs_quoted_assign : needs special QUOTED_ASSIGN.
Proof.
  unfold QUOTED_ASSIGN. needs_unfold. left. left.
  intros x E. apply ceqb_eq in E. subst x. unfold special. tauto.
Qed.

Lemma needs_brace_in_literal : needs special BRACE_IN_LITERAL.
Proof.
  unfold BRACE_IN_LITERAL. needs_unfold. split; left;
    intros x E; apply ceqb_eq in E; subst x; unfold special; tauto.
Qed.

Lemma needs_declaration : needs opening_brace RULE_DECLARATION.
Proof.
  unfold RULE_DECLARATION. needs_unfold. right. right. right. right.
  intros x E. apply ceqb_eq in E. subst x. reflexivity.
Qed.

Lemma line_split :
  str "rule" ++ SP :: name ++ SP :: "{"%char :: (rule_tail cond)
  = (str "rule" ++ SP :: name ++ [SP; "{"%char]) ++ (rule_tail cond).
Proof.
  unfold str. cbn [list_ascii_of_string app]. rewrite <- app_assoc. reflexivity.
Qed.

Lemma sub_declaration :
  sub RULE_DECLARATION [Lit (str "rule "); Ref 1; Lit (str " {")]
      (single_line_rule name cond)
  = single_line_rule name cond.
Proof.
  destruct (match_declaration name (rule_tail cond) name_nonempty name_word) as [b M].
  rewrite line_shape. unfold sub. rewrite line_split in M |- *.
  assert (N : str "rule" ++ SP :: name ++ [SP; "{"%char] <> [])
    by (unfold str; cbn; discriminate).
  rewrite (sub_from_match _ _ _ _ _ _ _ N M).
  rewrite (sub_needs opening_brace _ _ needs_declaration) by apply tail_free_brace.
  unfold expand. cbn [flat_map get_group Nat.eqb]. unfold str.
  cbn [list_ascii_of_string app]. rewrite <- !app_assoc. reflexivity.
Qed.


Lemma line_no_newline : forall x, In x (single_line_rule name cond) -> x <> NL.
Proof.
  intros x I E. apply (line_free_special x I). left. exact E.
Qed.

(** A pattern anchored at a line start does not match inside a line. *)
Lemma sub_bol_inside (r : re) (tpl : list piece) :
  forall s pre,
    pre <> [] ->
    (forall x, In x pre -> x <> NL) ->
    (forall x, In x s -> x <> NL) ->
    sub_from (Seq (Bol true) r) tpl 0 pre s = s.
Proof.
  assert (M : forall pre s, pre <> [] -> (forall x, In x pre -> x <> NL) ->
                            match_at (Seq (Bol true) r) (Pos pre s) = None).
  { intros pre s N P. unfold match_at. cbn [run]. unfold at_bol. cbn [before].
    destruct pre as [|c pre]; [contradiction |].
    destruct (ceqb c NL) eqn:E; [| reflexivity].
    apply ceqb_eq in E. exfalso. apply (P c); [left; reflexivity | exact E]. }
  induction s as [|c s IH]; intros pre N P S; cbn [sub_from];
    rewrite (M pre _ N P); [reflexivity |].
  f_equal. apply IH.
  - discriminate.
  - intros x [<- | I]; [apply S; left; reflexivity | apply P, I].
  - intros x I. apply S. right. exact I.
Qed.

Lemma sub_from_cons_none (r : re) (tpl : list piece) pre c s :
  match_at r (Pos pre (c :: s)) = None ->
  sub_from r tpl 0 pre (c :: s) = c :: sub_from r tpl 0 (c :: pre) s.
Proof. intros M. cbn [sub_from]. rewrite M. reflexivity. Qed.

Lemma sub_anchored (r : re) (tpl : list piece) :
  (forall rest, match_at (Seq (Bol true) r)
                         (Pos [] ("r"%char :: rest)) = None) ->
  sub (Seq (Bol true) r) tpl (single_line_rule name cond)
  = single_line_rule name cond.
Proof.
  intros M. pose proof line_no_newline as L. revert L.
  rewrite line_shape. unfold sub, str. cbn [list_ascii_of_string app].
  intros L. rewrite sub_from_cons_none by apply M. f_equal.
  apply sub_bol_inside.
  - discriminate.
  - intros x [<- | []]. discriminate.
  - intros x I. apply L. right. exact I.
Qed.

Lemma sub_bare_section :
  sub BARE_SECTION [Ref 1; Lit (str ":")] (single_line_rule name cond)
  = single_line_rule name cond.
Proof.
  apply (sub_anchored _ _). intros rest. vm_compute. reflexivity.
Qed.

Lemma sub_spaced_section :
  sub SPACED_SECTION [Ref 1; Lit (str ":")] (single_line_rule name cond)
  = single_line_rule name cond.
Proof.
  apply (sub_anchored _ _). intros rest. vm_compute. reflexivity.
Qed.


Lemma rstrip_last (s : text) (c : ascii) :
  isspace c = false -> rstrip (s ++ [c]) = s ++ [c].
Proof.
  intros E. unfold rstrip. rewrite rev_app_distr. cbn [rev app lstrip].
  rewrite E. change (c :: rev s) with (rev [c] ++ rev s).
  rewrite <- rev_app_distr, rev_involutive. reflexivity.
Qed.

Lemma strip_line : strip (single_line_rule name cond) = single_line_rule name cond.
Proof.
  unfold strip.
  assert (L : lstrip (single_line_rule name cond) = single_line_rule name cond)
    by reflexivity.
  rewrite L. unfold single_line_rule.
  change (str " }") with ([SP] ++ ["}"%char]).
  rewrite !app_assoc. apply rstrip_last. reflexivity.
Qed.

Lemma split_no_separator (c : ascii) (s : text) :
  (forall x, In x s -> x <> c) -> split c s = [s].
Proof.
  induction s as [|x s IH]; intros H; [reflexivity |].
  cbn [split]. destruct (ceqb c x) eqn:E.
  - apply ceqb_eq in E. exfalso. apply (H x); [left; reflexivity | congruence].
  - rewrite IH; [reflexivity |]. intros y I. apply H. right. exact I.
Qed.

Lemma split_line : split NL (single_line_rule name cond) = [single_line_rule name cond].
Proof. apply split_no_separator, line_no_newline. Qed.

Lemma dedent_line : dedent (single_line_rule name cond) = single_line_rule name cond.
Proof. unfold dedent. rewrite split_line. reflexivity. Qed.

Lemma normalize_line :
  _normalize_section_order (single_line_rule name cond)
  = single_line_rule name cond.
Proof.
  unfold _normalize_section_order, matches, search.
  rewrite (search_needs special _ needs_brace_in_literal) by apply line_free_special.
  rewrite split_line. cbn [order_lines]. rewrite strip_line.
  assert (S : startswith (str "rule ") (single_line_rule name cond) = true)
    by reflexivity.
  assert (C : contains (str "{") (single_line_rule name cond) = true).
  { apply contains_spec. exists (str "rule " ++ name ++ str " "), (rule_tail cond).
    unfold single_line_rule, rule_tail, str. cbn [list_ascii_of_string app].
    rewrite <- !app_assoc. reflexivity. }
  rewrite S, C. cbn. reflexivity.
Qed.

(** A single-line rule with an identifier for name and a plain condition
    is left unchanged by the cleaning. *)
Lemma clean_single_line :
  _clean_rule (single_line_rule name cond) = single_line_rule name cond.
Proof.
  unfold _clean_rule, _fix_common_syntax_issues.
  rewrite strip_line.
  unfold sub at 7. rewrite (sub_needs special _ _ needs_leading_fence) by apply line_free_special.
  unfold sub at 6. rewrite (sub_needs special _ _ needs_trailing_fence) by apply line_free_special.
  rewrite dedent_line, sub_declaration.
  change (sub (seqs [Bol true; Star true space; section_name; Star true space; Eol true]))
    with (sub BARE_SECTION).
  rewrite sub_bare_section, sub_spaced_section.
  unfold sub at 2. rewrite (sub_needs special _ _ needs_tight_assign) by apply line_free_special.
  unfold sub at 1. rewrite (sub_needs special _ _ needs_quoted_assign) by apply line_free_special.
  apply normalize_line.
Qed.

End Family3.

(** ** Cleaning *)

Section Cleaning.

Import YaraExtractor.




End Cleaning.
(** * Further properties of the extraction *)

Section Extraction.

Import YaraExtractor.

(** What one iteration of the deduplication loop does to the list of
    accepted rules: nothing, or it appends the cleaned candidate, which
    is then well formed and has a normal form not seen before. *)
Lemma dedup_step_cases (st : dedup_state) (rule : text) :
  (cleaned_rules (dedup_step st rule) = cleaned_rules st
   /\ seen_rules (dedup_step st rule) = seen_rules st)
  \/ (cleaned_rules (dedup_step st rule) = cleaned_rules st ++ [_clean_rule rule]
      /\ seen_rules (dedup_step st rule)
         = ({[ normalize (_clean_rule rule) ]} ∪ seen_rules st)
      /\ (normalize (_clean_rule rule) ∉ seen_rules st)
      /\ well_formed (_clean_rule rule)).
Proof.
  unfold dedup_step, _validate_basic_structure. cbv zeta.
  destruct (negb (is_empty (_clean_rule rule))
            && _is_valid_rule_structure (_clean_rule rule)) eqn:C;
    [| left; split; reflexivity].
  apply andb_prop in C. destruct C as [C1 C2].
  assert (W : well_formed (_clean_rule rule)).
  { split; [| exact C2]. intros E. rewrite E in C1. discriminate C1. }
  assert (A : forall bodies,
             (cleaned_rules (accept st bodies (_clean_rule rule)) = cleaned_rules st
              /\ seen_rules (accept st bodies (_clean_rule rule)) = seen_rules st)
             \/ (cleaned_rules (accept st bodies (_clean_rule rule))
                 = cleaned_rules st ++ [_clean_rule rule]
                 /\ seen_rules (accept st bodies (_clean_rule rule))
                    = ({[ normalize (_clean_rule rule) ]} ∪ seen_rules st)
                 /\ (normalize (_clean_rule rule) ∉ seen_rules st)
                 /\ well_formed (_clean_rule rule))).
  { intros bodies. unfold accept. cbv zeta.
    destruct (bool_decide _) eqn:B; [left; split; reflexivity | right].
    apply bool_decide_eq_false in B. repeat split; try assumption; apply W. }
  destruct (rule_body (_clean_rule rule)) as [body |]; [| apply A].
  destruct (bool_decide _ && negb _); [left; split; reflexivity | apply A].
Qed.

Lemma dedup_step_invariant (st : dedup_state) (rule : text) :
  dedup_invariant st -> dedup_invariant (dedup_step st rule).
Proof.
  intros [W [D S]].
  destruct (dedup_step_cases st rule) as [[E1 E2] | [E1 [E2 [N Wr]]]];
    unfold dedup_invariant; rewrite E1, E2.
  - repeat split; assumption.
  - split; [| split].
    + apply List.Forall_app. split; [exact W |]. constructor; [exact Wr | constructor].
    + rewrite List.map_app. cbn.
      apply List.NoDup_app; repeat split.
      * exact D.
      * constructor; [intros [] | constructor].
      * intros x I [E | []]. subst x. apply List.in_map_iff in I.
        destruct I as [r [E I]]. apply N. rewrite <- E. apply S, I.
    + intros r I. apply List.in_app_or in I. destruct I as [I | [<- | []]].
      * apply elem_of_union_r, S, I.
      * apply elem_of_union_l, elem_of_singleton. reflexivity.
Qed.

Lemma dedup_fold_invariant (rules : list text) (st : dedup_state) :
  dedup_invariant st -> dedup_invariant (fold_left dedup_step rules st).
Proof.
  revert st. induction rules as [|r rules IH]; intros st I; cbn; [exact I |].
  apply IH, dedup_step_invariant, I.
Qed.

Lemma dedup_invariant_start : dedup_invariant (mkDedup [] ∅ ∅).
Proof.
  split; [constructor | split; [constructor |]]. intros r [].
Qed.

Lemma extract_rules_invariant (response : text) :
  List.Forall well_formed (extract_rules response)
  /\ List.NoDup (map normalize (extract_rules response)).
Proof.
  unfold extract_rules.
  destruct (is_empty response); [split; constructor |].
  destruct (_indicates_no_rule response); [split; constructor |].
  destruct (dedup_fold_invariant (candidates response) _ dedup_invariant_start)
    as [W [D _]].
  split; assumption.
Qed.

(** Every extracted rule is a non-empty text that passes the structure
    check; so [extract_single_rule] returns [None] or such a rule, and
    the test [not rule] of the benchmark holds exactly when nothing was
    extracted. *)
Theorem extracted_rules_well_formed (response : text) :
  (forall rule, In rule (extract_rules response) -> well_formed rule)
  /\ (forall rule, extract_single_rule response = Some rule -> well_formed rule)
  /\ (Benchmark.no_rule (extract_single_rule response) = true
      <-> extract_rules response = []).
Proof.
  destruct (extract_rules_invariant response) as [W _].
  rewrite List.Forall_forall in W.
  split; [exact W | split].
  - unfold extract_single_rule. intros rule E.
    destruct (extract_rules response) as [|r rs]; [discriminate E |].
    injection E as <-. apply W. left. reflexivity.
  - unfold extract_single_rule, Benchmark.no_rule.
    destruct (extract_rules response) as [|r rs]; [tauto |].
    split; [| discriminate].
    destruct (W r (or_introl eq_refl)) as [N _].
    destruct r; [contradiction | discriminate].
Qed.

(** No two extracted rules are equal, even up to runs of white space. *)
Theorem extracted_rules_distinct (response : text) :
  List.NoDup (map normalize (extract_rules response))
  /\ List.NoDup (extract_rules response).
Proof.
  destruct (extract_rules_invariant response) as [_ D].
  split; [exact D |]. eapply List.NoDup_map_inv. exact D.
Qed.

Lemma dedup_fold_sublist (rules : list text) (st : dedup_state) :
  exists more,
    cleaned_rules (fold_left dedup_step rules st) = cleaned_rules st ++ more
    /\ sublist more (map _clean_rule rules).
Proof.
  revert st. induction rules as [|r rules IH]; intros st; cbn [fold_left map].
  - exists []. split; [symmetry; apply app_nil_r | constructor].
  - destruct (IH (dedup_step st r)) as [more [E S]].
    destruct (dedup_step_cases st r) as [[E1 _] | [E1 _]]; rewrite E1 in E.
    + exists more. split; [exact E |]. apply sublist_cons, S.
    + exists (_clean_rule r :: more). split.
      * rewrite E, <- app_assoc. reflexivity.
      * apply sublist_skip, S.
Qed.

(** The extracted rules are cleaned candidates, in the order of the
    candidates: extraction drops candidates, it neither reorders them nor
    adds a rule. *)
Theorem extracted_rules_are_cleaned_candidates (response : text) :
  sublist (extract_rules response) (map _clean_rule (candidates response)).
Proof.
  unfold extract_rules.
  destruct (is_empty response); [apply sublist_nil_l |].
  destruct (_indicates_no_rule response); [apply sublist_nil_l |].
  unfold dedup.
  destruct (dedup_fold_sublist (candidates response) (mkDedup [] ∅ ∅))
    as [more [E S]].
  rewrite E. exact S.
Qed.

End Extraction.
(** * Further properties of the pipeline *)

Section Pipeline.

Import Benchmark.

Variable env : Env.
Variable prompt : Challenge -> text -> text.

Lemma no_judge_no_score (challenge : Challenge) :
  llm_judge_score (value (_evaluate_challenge env prompt false challenge)) = None.
Proof.
  unfold _evaluate_challenge.
  destruct (generate_rule env challenge) as [response | e]; [| reflexivity].
  destruct (negb (actionable challenge) && _); [reflexivity |].
  destruct (actionable challenge && _); [reflexivity |].
  cbv zeta. rewrite !value_bind.
  destruct (_calculate_score _ _ _) as [final | e]; [| reflexivity].
  cbn. unfold run_evaluators. rewrite !value_bind. reflexivity.
Qed.

(** Without a judge the score of every result is in the unit interval. *)
Theorem score_in_unit_interval_without_judge (challenge : Challenge) :
  (0 <= score (value (_evaluate_challenge env prompt false challenge)) <= 1)%Q.
Proof.
  apply evaluate_challenge_range. intros j H.
  rewrite no_judge_no_score in H. discriminate H.
Qed.

Lemma matcher_results_of_no_files (challenge : Challenge) (rule : text) :
  test_files challenge = [] ->
  FileMatcher.evaluate env challenge rule = (FileMatcher.mkResults ∅ None, []).
Proof. unfold FileMatcher.evaluate. intros ->. reflexivity. Qed.

Lemma run_evaluators_execution (judge : bool) (challenge : Challenge) (rule : text) :
  er_execution_results (value (run_evaluators env prompt judge challenge rule))
  = Some (FileMatcher.execution_results
            (value (FileMatcher.evaluate env challenge rule))).
Proof.
  unfold run_evaluators. rewrite !value_bind.
  destruct judge; [rewrite value_bind |]; reflexivity.
Qed.

Lemma calculate_score_defined (judge : bool) (challenge : Challenge)
      (rule : text) :
  exists final,
    _calculate_score challenge rule
      (value (run_evaluators env prompt judge challenge rule)) = Ok final.
Proof.
  unfold _calculate_score. cbv zeta.
  rewrite run_evaluators_execution. cbn [default].
  destruct (test_files challenge) as [|f fs] eqn:F.
  - rewrite (matcher_results_of_no_files challenge rule F). cbn.
    destruct (er_llm_judge_score _); eexists; reflexivity.
  - destruct (bool_decide _); cbn [List.length];
      destruct (er_llm_judge_score _); eexists; reflexivity.
Qed.

(** The scorer returns a score on whatever the evaluators produce: its
    division by the number of test files is never a division by zero,
    and no result of an evaluated rule comes from the exception handler. *)
Theorem scorer_returns_a_score (judge : bool) (challenge : Challenge)
        (rule : text) :
  exists final,
    _calculate_score challenge rule
      (value (run_evaluators env prompt judge challenge rule)) = Ok final.
Proof. apply calculate_score_defined. Qed.

Lemma single_rule_not_empty (response rule : text) :
  YaraExtractor.extract_single_rule response = Some rule ->
  is_empty rule = false.
Proof.
  unfold YaraExtractor.extract_single_rule. intros E.
  destruct (extract_rules_invariant response) as [W _].
  destruct (YaraExtractor.extract_rules response) as [|r rs]; [discriminate E |].
  injection E as <-. apply List.Forall_inv in W. destruct W as [N _].
  destruct r; [contradiction | reflexivity].
Qed.

(** The result of a challenge for which a rule was extracted. *)
Lemma evaluated_result (judge : bool) (challenge : Challenge)
      (response rule : text) :
  generate_rule env challenge = Ok response ->
  YaraExtractor.extract_single_rule response = Some rule ->
  let results := value (run_evaluators env prompt judge challenge rule) in
  exists final,
    _calculate_score challenge rule results = Ok final
    /\ value (_evaluate_challenge env prompt judge challenge)
       = mkRuleResult (ch_id challenge) (Some rule) response
           (default false (er_valid_syntax results))
           (default ∅ (er_execution_results results))
           (default [] (er_expected_strings_found results))
           (default [] (er_expected_keywords_found results))
           final
           (default None (er_error results))
           (er_llm_judge_score results)
           (er_llm_judge_feedback results)
           (er_llm_judge_details results).
Proof.
  intros G E results.
  destruct (calculate_score_defined judge challenge rule) as [final F].
  exists final. split; [exact F |].
  unfold _evaluate_challenge. rewrite G, E. unfold no_rule.
  rewrite (single_rule_not_empty response rule E).
  rewrite !andb_false_r. cbv zeta. cbn [default].
  subst results. rewrite value_bind. cbv beta. rewrite value_bind. cbv beta.
  unfold id. rewrite F. reflexivity.
Qed.

Lemma run_evaluators_error (judge : bool) (challenge : Challenge) (rule : text) :
  er_error (value (run_evaluators env prompt judge challenge rule))
  = Some (FileMatcher.error (value (FileMatcher.evaluate env challenge rule))).
Proof.
  unfold run_evaluators. rewrite !value_bind.
  destruct judge; [rewrite value_bind |]; reflexivity.
Qed.

Lemma run_evaluators_syntax (judge : bool) (challenge : Challenge) (rule : text) :
  er_valid_syntax (value (run_evaluators env prompt judge challenge rule))
  = Some (YaraValidator.valid_syntax
            (value (YaraValidator.evaluate env challenge rule))).
Proof.
  unfold run_evaluators. rewrite !value_bind.
  destruct judge; [rewrite value_bind |]; reflexivity.
Qed.

(** The error of the result of an evaluated rule is the one of the
    execution evaluator: its entry overwrites the one of the syntax
    evaluator when the dictionaries are merged.  So for a challenge
    without test files the result carries no error, whatever the syntax
    evaluator reported. *)
Theorem result_error_is_execution_error (judge : bool) (challenge : Challenge)
        (response rule : text) :
  generate_rule env challenge = Ok response ->
  YaraExtractor.extract_single_rule response = Some rule ->
  error (value (_evaluate_challenge env prompt judge challenge))
  = FileMatcher.error (value (FileMatcher.evaluate env challenge rule))
  /\ valid_syntax (value (_evaluate_challenge env prompt judge challenge))
     = YaraValidator.valid_syntax
         (value (YaraValidator.evaluate env challenge rule))
  /\ (test_files challenge = [] ->
      error (value (_evaluate_challenge env prompt judge challenge)) = None).
Proof.
  intros G E.
  destruct (evaluated_result judge challenge response rule G E) as [final [_ R]].
  rewrite R. cbn [error valid_syntax].
  rewrite run_evaluators_error, run_evaluators_syntax. cbn [default].
  split; [reflexivity | split; [reflexivity |]].
  intros F. rewrite (matcher_results_of_no_files challenge rule F). reflexivity.
Qed.

End Pipeline.

(** In the environment where no rule compiles, the syntax evaluator
    reports the syntax error and the result carries none. *)
Lemma result_error_is_execution_error_witness :
  YaraValidator.error
    (value (YaraValidator.evaluate broken_env example_challenge
              (str "rule a { condition: true }")))
  = Some (str "YARA syntax error: line 1: syntax error")
  /\ Benchmark.error
       (value (Benchmark._evaluate_challenge broken_env example_prompt false
                 example_challenge))
     = None.
Proof.
  split; [reflexivity |].
  exact (proj2 (proj2 (result_error_is_execution_error broken_env example_prompt
                         false example_challenge
                         (str "rule a { condition: true }")
                         (str "rule a { condition: true }")
                         eq_refl eq_refl)) eq_refl).
Defined.
(** * Scores of evaluated rules *)

Section PipelineScores.

Import Benchmark.

Variable env : Env.
Variable prompt : Challenge -> text -> text.

Lemma run_evaluators_no_judge (challenge : Challenge) (rule : text) :
  er_llm_judge_score (value (run_evaluators env prompt false challenge rule))
  = None.
Proof. unfold run_evaluators. rewrite !value_bind. reflexivity. Qed.

(** What the syntax evaluator returns on a rule that the engine rejects. *)
Lemma validator_rejects (challenge : Challenge) (rule : text) :
  (forall m, yara_compile env rule <> Compiled m) ->
  YaraValidator.valid_syntax (value (YaraValidator.evaluate env challenge rule))
  = false
  /\ YaraValidator.expected_strings_found
       (value (YaraValidator.evaluate env challenge rule)) = []
  /\ YaraValidator.expected_keywords_found
       (value (YaraValidator.evaluate env challenge rule)) = [].
Proof.
  intros N. unfold YaraValidator.evaluate.
  destruct (YaraValidator.truthy _); [repeat split |].
  rewrite value_bind.
  destruct (yara_compile env rule) as [m | e | e] eqn:C;
    [destruct (N m); reflexivity | |]; repeat split.
Qed.

Lemma matcher_rejects (challenge : Challenge) (rule : text) :
  (forall m, yara_compile env rule <> Compiled m) ->
  FileMatcher.execution_results
    (value (FileMatcher.evaluate env challenge rule)) = ∅.
Proof.
  intros N. unfold FileMatcher.evaluate.
  destruct (test_files challenge); [reflexivity |].
  rewrite value_bind.
  destruct (yara_compile env rule) as [m | e | e] eqn:C;
    [destruct (N m); reflexivity | |]; reflexivity.
Qed.

Lemma ratio_zero (n : nat) : (ratio 0 n == 0)%Q.
Proof. unfold ratio. cbn. unfold Qdiv. apply Qmult_0_l. Qed.

Lemma coverage_of_nothing (expected : list text) :
  (coverage 0 (List.length expected) == vacuous expected)%Q.
Proof.
  unfold coverage, vacuous. destruct expected as [|e es]; cbn [List.length is_empty].
  - reflexivity.
  - cbn [Nat.ltb Nat.leb]. apply ratio_zero.
Qed.

Lemma uncompilable_terms (s k v w : Q) :
  (s == v)%Q -> (k == w)%Q ->
  (v == 0 \/ v == 1)%Q -> (w == 0 \/ w == 1)%Q ->
  (Rounded.add Binary64.round
     (Rounded.add Binary64.round
        (Rounded.add Binary64.round
           (Rounded.mul Binary64.round (Rounded.lit Binary64.round (3 # 10)) 0)
           (Rounded.mul Binary64.round (Rounded.lit Binary64.round (2 # 10)) s))
        (Rounded.mul Binary64.round (Rounded.lit Binary64.round (1 # 10)) k))
     (Rounded.mul Binary64.round (Rounded.lit Binary64.round (4 # 10)) 0)
   == uncompilable_score v w)%Q.
Proof.
  unfold Rounded.add, Rounded.mul, Rounded.lit, uncompilable_score.
  intros Es Ek [V | V] [W | W]; rewrite Es, Ek, V, W; vm_compute; reflexivity.
Qed.

Lemma rounded_coverage_of_nothing (expected : list text) :
  (Rounded.coverage Binary64.round 0 (List.length expected)
   == vacuous expected)%Q.
Proof.
  unfold Rounded.coverage, vacuous.
  destruct expected as [|e es]; cbn [List.length is_empty].
  - reflexivity.
  - cbn [Nat.ltb Nat.leb]. unfold Rounded.ratio.
    rewrite (ratio_zero (S (List.length es))). reflexivity.
Qed.

Lemma vacuous_cases (expected : list text) :
  (vacuous expected == 0 \/ vacuous expected == 1)%Q.
Proof. unfold vacuous. destruct (is_empty expected); [right | left]; reflexivity. Qed.


End PipelineScores.

(** * The best scores *)

Section BestScores.

Import Benchmark.

Variable env : Env.
Variable prompt : Challenge -> text -> text.

Lemma ratio_one (a b : nat) : a <= b -> 0 < b -> (ratio a b == 1)%Q -> a = b.
Proof.
  intros L P E. unfold ratio in E.
  assert (B : ~ (inject_Z (Z.of_nat b) == 0)%Q).
  { intros Z0. change 0%Q with (inject_Z 0) in Z0.
    apply (proj1 (inject_Z_injective _ _)) in Z0. lia. }
  apply (Qmult_inj_r _ _ _ B) in E.
  rewrite Qmult_1_l in E. rewrite Qmult_comm, Qmult_div_r in E by exact B.
  apply (proj1 (inject_Z_injective _ _)) in E. lia.
Qed.

Lemma coverage_one (found expected : nat) :
  found <= expected -> (coverage found expected == 1)%Q -> found = expected.
Proof.
  intros L E. unfold coverage in E. destruct (0 <? expected) eqn:P.
  - apply Nat.ltb_lt in P. apply ratio_one; assumption.
  - apply Nat.ltb_ge in P. lia.
Qed.

Lemma filter_all {A} (f : A -> bool) (l : list A) :
  List.length (List.filter f l) = List.length l ->
  forall x, In x l -> f x = true.
Proof.
  induction l as [|a l IH]; intros E x I; [destruct I |].
  cbn [List.filter] in E. destruct (f a) eqn:F.
  - cbn [List.length] in E. destruct I as [<- | I]; [exact F |].
    apply IH; [lia | exact I].
  - pose proof (List.filter_length_le f l). cbn [List.length] in E. lia.
Qed.

(** The components of the score without a judge, each in the unit
    interval. *)
Lemma score_components (challenge : Challenge) (rule : text) (final : Q) :
  _calculate_score challenge rule
    (value (run_evaluators env prompt false challenge rule)) = Ok final ->
  exists syntax strings keywords matches : Q,
    (final == (3 # 10) * syntax + (2 # 10) * strings + (1 # 10) * keywords
              + (4 # 10) * matches)%Q
    /\ (0 <= syntax <= 1)%Q /\ (0 <= strings <= 1)%Q
    /\ (0 <= keywords <= 1)%Q /\ (0 <= matches <= 1)%Q
    /\ ((syntax == 1)%Q ->
        YaraValidator.valid_syntax
          (value (YaraValidator.evaluate env challenge rule)) = true)
    /\ ((strings == 1)%Q ->
        List.length (YaraValidator.expected_strings_found
                       (value (YaraValidator.evaluate env challenge rule)))
        = List.length (expected_strings challenge))
    /\ ((keywords == 1)%Q ->
        List.length (YaraValidator.expected_keywords_found
                       (value (YaraValidator.evaluate env challenge rule)))
        = List.length (expected_keywords challenge))
    /\ (test_files challenge = [] -> (matches == 0)%Q)
    /\ ((matches == 1)%Q ->
        test_files challenge <> []
        /\ forall tf, In tf (test_files challenge) ->
             observed (FileMatcher.execution_results
                         (value (FileMatcher.evaluate env challenge rule))) tf
             = should_match tf).
Proof.
  intros F.
  destruct (run_evaluators_fields env prompt false challenge rule) as [FS FK].
  pose proof (run_evaluators_syntax env prompt false challenge rule) as FV.
  pose proof (run_evaluators_execution env prompt false challenge rule) as FX.
  pose proof (run_evaluators_no_judge env prompt challenge rule) as FJ.
  destruct (validator_found_le env challenge rule) as [LS LK].
  unfold _calculate_score in F. cbv zeta in F.
  rewrite FS, FK, FV, FX, FJ in F. cbn [default] in F. unfold id in F.
  set (v := value (YaraValidator.evaluate env challenge rule)) in *.
  set (x := FileMatcher.execution_results
              (value (FileMatcher.evaluate env challenge rule))) in *.
  exists (if YaraValidator.valid_syntax v then 1%Q else 0%Q).
  exists (coverage (List.length (YaraValidator.expected_strings_found v))
                   (List.length (expected_strings challenge))).
  exists (coverage (List.length (YaraValidator.expected_keywords_found v))
                   (List.length (expected_keywords challenge))).
  assert (S : (0 <= (if YaraValidator.valid_syntax v then 1 else 0) <= 1)%Q
              /\ (((if YaraValidator.valid_syntax v then 1 else 0) == 1)%Q ->
                  YaraValidator.valid_syntax v = true)).
  { destruct (YaraValidator.valid_syntax v); (split; [split; discriminate |]).
    - intros _. reflexivity.
    - intros E. unfold Qeq in E. cbn in E. discriminate E. }
  destruct S as [S1 S2].
  destruct (bool_decide (x = ∅)) eqn:X; rewrite ?X in F; cbv beta iota in F.
  - injection F as <-. exists 0%Q.
    split; [reflexivity |].
    split; [exact S1 |].
    split; [apply coverage_range, LS |].
    split; [apply coverage_range, LK |].
    split; [split; discriminate |].
    split; [exact S2 |].
    split; [apply coverage_one, LS |].
    split; [apply coverage_one, LK |].
    split; [reflexivity |].
    intros E. discriminate E.
  - destruct (test_files challenge) as [|f fs] eqn:T.
    + exfalso. apply bool_decide_eq_false in X. apply X. subst x.
      rewrite (matcher_results_of_no_files env challenge rule T). reflexivity.
    + cbn [List.length] in F. injection F as <-.
      rewrite correct_matches_agreeing.
      pose proof (agreeing_length x (f :: fs)) as A.
      exists (ratio (List.length (Spec.agreeing x (f :: fs))) (S (List.length fs))).
      split; [reflexivity |].
      split; [exact S1 |].
      split; [apply coverage_range, LS |].
      split; [apply coverage_range, LK |].
      split; [apply ratio_range; [exact A | cbn; lia] |].
      split; [exact S2 |].
      split; [apply coverage_one, LS |].
      split; [apply coverage_one, LK |].
      split; [discriminate |].
      intros E. split; [discriminate |].
      apply ratio_one in E; [| exact A | cbn; lia].
      intros tf I. unfold Spec.agreeing in E.
      pose proof (filter_all _ _ E tf I) as B. cbn beta in B.
      apply Bool.eqb_prop in B. exact B.
Qed.

Lemma filter_whole {A} (f : A -> bool) (l : list A) :
  List.length (List.filter f l) = List.length l -> List.filter f l = l.
Proof.
  induction l as [|a l IH]; intros E; [reflexivity |].
  cbn [List.filter] in *. destruct (f a).
  - cbn [List.length] in E. f_equal. apply IH. lia.
  - pose proof (List.filter_length_le f l). cbn [List.length] in E. lia.
Qed.

(** When the syntax evaluator finds as many features as are expected, it
    has found them all. *)
Lemma validator_found_all (challenge : Challenge) (rule : text) :
  (List.length (YaraValidator.expected_strings_found
                  (value (YaraValidator.evaluate env challenge rule)))
   = List.length (expected_strings challenge) ->
   YaraValidator.expected_strings_found
     (value (YaraValidator.evaluate env challenge rule))
   = expected_strings challenge)
  /\ (List.length (YaraValidator.expected_keywords_found
                     (value (YaraValidator.evaluate env challenge rule)))
      = List.length (expected_keywords challenge) ->
      YaraValidator.expected_keywords_found
        (value (YaraValidator.evaluate env challenge rule))
      = expected_keywords challenge).
Proof.
  assert (N : forall l : list text, List.length (@nil text) = List.length l -> [] = l).
  { intros [|a l] E; [reflexivity | discriminate E]. }
  unfold YaraValidator.evaluate.
  destruct (YaraValidator.truthy _); [split; apply N |].
  rewrite value_bind.
  destruct (yara_compile env rule); cbn [value fst ret YaraValidator.expected_strings_found
                                          YaraValidator.expected_keywords_found];
    try (split; apply N).
  split.
  - destruct (expected_strings challenge) as [|e es]; [reflexivity |].
    exact (filter_whole _ (e :: es)).
  - destruct (expected_keywords challenge) as [|e es]; [reflexivity |].
    exact (filter_whole _ (e :: es)).
Qed.

(** Without a judge, a result with the full score 1 for an extracted
    rule certifies that the rule compiled, that every expected string
    and keyword was found, and that the challenge has test files on each
    of which the rule behaved as expected. *)
Theorem full_score_certifies (challenge : Challenge) (response rule : text) :
  generate_rule env challenge = Ok response ->
  YaraExtractor.extract_single_rule response = Some rule ->
  (score (value (_evaluate_challenge env prompt false challenge)) == 1)%Q ->
  valid_syntax (value (_evaluate_challenge env prompt false challenge)) = true
  /\ expected_strings_found (value (_evaluate_challenge env prompt false challenge))
     = expected_strings challenge
  /\ expected_keywords_found (value (_evaluate_challenge env prompt false challenge))
     = expected_keywords challenge
  /\ test_files challenge <> []
  /\ (forall tf, In tf (test_files challenge) ->
        observed (execution_results
                    (value (_evaluate_challenge env prompt false challenge))) tf
        = should_match tf).
Proof.
  intros G E.
  destruct (evaluated_result env prompt false challenge response rule G E)
    as [final [F R]].
  rewrite R. cbn [valid_syntax execution_results expected_strings_found
                  expected_keywords_found score].
  destruct (run_evaluators_fields env prompt false challenge rule) as [FS FK].
  rewrite FS, FK, (run_evaluators_syntax env prompt false challenge rule),
    (run_evaluators_execution env prompt false challenge rule).
  cbn [default].
  destruct (score_components challenge rule final F)
    as [s [c [k [m [EQ [[S0 S1] [[C0 C1] [[K0 K1] [[M0 M1] [HS [HC [HK [_ HM]]]]]]]]]]]]].
  destruct (validator_found_all challenge rule) as [AS AK].
  intros ONE.
  assert (Es : (s == 1)%Q) by lra.
  assert (Ec : (c == 1)%Q) by lra.
  assert (Ek : (k == 1)%Q) by lra.
  assert (Em : (m == 1)%Q) by lra.
  split; [exact (HS Es) |].
  split; [exact (AS (HC Ec)) |].
  split; [exact (AK (HK Ek)) |].
  exact (HM Em).
Qed.

(** Without a judge, the result of an actionable challenge that has no
    test files scores at most 0.6: the share of the file matches is
    lost. *)
Theorem score_ceiling_without_test_files (challenge : Challenge) :
  actionable challenge = true ->
  test_files challenge = [] ->
  (score (value (_evaluate_challenge env prompt false challenge)) <= 6 # 10)%Q.
Proof.
  intros A T.
  destruct (generate_rule env challenge) as [response | e] eqn:G.
  - destruct (YaraExtractor.extract_single_rule response) as [rule |] eqn:E.
    + destruct (evaluated_result env prompt false challenge response rule G E)
        as [final [F R]].
      rewrite R. cbn [score].
      destruct (score_components challenge rule final F)
        as [s [c [k [m [EQ [[S0 S1] [[C0 C1] [[K0 K1] [_ [_ [_ [_ [HM _]]]]]]]]]]]]].
      specialize (HM T). lra.
    + unfold _evaluate_challenge. rewrite G, E, A. cbn. discriminate.
  - unfold _evaluate_challenge. rewrite G. cbn. discriminate.
Qed.

End BestScores.

(** The example challenge is actionable and has no test files. *)
Lemma score_ceiling_without_test_files_witness :
  (Benchmark.score
     (value (Benchmark._evaluate_challenge judge_env example_prompt false
               example_challenge)) <= 6 # 10)%Q.
Proof.
  exact (score_ceiling_without_test_files judge_env example_prompt
           example_challenge eq_refl eq_refl).
Defined.

(** The minimal rule on a challenge whose only test file it matches. *)
Lemma full_score_certifies_witness :
  Benchmark.valid_syntax
    (value (Benchmark._evaluate_challenge judge_env example_prompt false
              matching_challenge)) = true
  /\ test_files matching_challenge <> [].
Proof.
  destruct (full_score_certifies judge_env example_prompt matching_challenge
              (str "rule a { condition: true }")
              (str "rule a { condition: true }") eq_refl eq_refl
              ltac:(vm_compute; reflexivity)) as [V [_ [_ [T _]]]].
  split; assumption.
Defined.
(** * The external calls of one evaluation *)

Section Calls.

Import Benchmark.

Variable env : Env.
Variable prompt : Challenge -> text -> text.

Lemma validator_calls (challenge : Challenge) (rule : text) :
  calls (YaraValidator.evaluate env challenge rule)
  = if YaraValidator.truthy (YaraValidator._validate_structure rule)
    then [] else [CallCompile rule].
Proof.
  unfold YaraValidator.evaluate.
  destruct (YaraValidator.truthy _); [reflexivity |].
  rewrite calls_bind. cbn. destruct (yara_compile env rule); reflexivity.
Qed.

Lemma matcher_calls (challenge : Challenge) (rule : text) :
  calls (FileMatcher.evaluate env challenge rule)
  = if is_empty (test_files challenge) then [] else [CallCompile rule].
Proof.
  unfold FileMatcher.evaluate.
  destruct (test_files challenge); [reflexivity |].
  rewrite calls_bind. cbn. destruct (yara_compile env rule); reflexivity.
Qed.

Lemma judge_calls (challenge : Challenge) (rule : text) :
  calls (LLMJudge.evaluate env prompt true challenge rule)
  = [CallJudge (prompt challenge rule)].
Proof.
  unfold LLMJudge.evaluate. cbn [negb]. rewrite calls_bind. cbn.
  destruct (LLMJudge._get_llm_evaluation env _); [| reflexivity].
  destruct (LLMJudge._parse_evaluation_response env _); [| reflexivity].
  destruct (LLMJudge._calculate_overall_score _); reflexivity.
Qed.

Lemma evaluators_calls (judge : bool) (challenge : Challenge) (rule : text) :
  calls (run_evaluators env prompt judge challenge rule)
  = (if YaraValidator.truthy (YaraValidator._validate_structure rule)
     then [] else [CallCompile rule])
    ++ (if is_empty (test_files challenge) then [] else [CallCompile rule])
    ++ (if judge then [CallJudge (prompt challenge rule)] else []).
Proof.
  unfold run_evaluators.
  rewrite calls_bind, validator_calls. f_equal.
  rewrite calls_bind, matcher_calls. f_equal.
  destruct judge; [| reflexivity].
  rewrite calls_bind, judge_calls. cbn. reflexivity.
Qed.

(** The log of the calls of one evaluation. *)
Lemma evaluation_log (judge : bool) (challenge : Challenge) :
  calls (_evaluate_challenge env prompt judge challenge)
  = match generate_rule env challenge with
    | Raise _ => []
    | Ok response =>
        match YaraExtractor.extract_single_rule response with
        | None => []
        | Some rule =>
            (if YaraValidator.truthy (YaraValidator._validate_structure rule)
             then [] else [CallCompile rule])
            ++ (if is_empty (test_files challenge) then [] else [CallCompile rule])
            ++ (if judge then [CallJudge (prompt challenge rule)] else [])
            ++ [CallScorer rule]
        end
    end.
Proof.
  unfold _evaluate_challenge.
  destruct (generate_rule env challenge) as [response | e]; [| reflexivity].
  destruct (YaraExtractor.extract_single_rule response) as [rule |] eqn:E.
  - unfold no_rule. rewrite (single_rule_not_empty response rule E).
    rewrite !andb_false_r. cbv zeta. cbn [default]. unfold id.
    rewrite calls_bind, evaluators_calls. rewrite <- !app_assoc.
    do 3 f_equal. cbv beta. rewrite calls_bind. cbn [calls tell snd].
    destruct (_calculate_score _ _ _); reflexivity.
  - cbn [no_rule]. rewrite !andb_true_r.
    destruct (actionable challenge); reflexivity.
Qed.

(** One evaluation compiles the rule at most twice (once to validate it
    when its structure is accepted, once to run it when the challenge
    has test files), asks the judge at most once and only when a judge is
    configured, and scores at most once; when the model raises or no rule
    is extracted it makes none of these calls.  For an extracted rule the
    calls are, in this order: the compilations, the judge, the scorer,
    all on that rule. *)
Theorem evaluation_call_budget (judge : bool) (challenge : Challenge) :
  List.length (List.filter is_compile_call
                 (calls (_evaluate_challenge env prompt judge challenge))) <= 2
  /\ List.length (List.filter is_judge_call
                    (calls (_evaluate_challenge env prompt judge challenge)))
     <= (if judge then 1 else 0)
  /\ List.length (List.filter is_scoring_call
                    (calls (_evaluate_challenge env prompt judge challenge))) <= 1
  /\ (forall e, generate_rule env challenge = Raise e ->
        calls (_evaluate_challenge env prompt judge challenge) = [])
  /\ (forall response,
        generate_rule env challenge = Ok response ->
        YaraExtractor.extract_single_rule response = None ->
        calls (_evaluate_challenge env prompt judge challenge) = [])
  /\ (forall response rule,
        generate_rule env challenge = Ok response ->
        YaraExtractor.extract_single_rule response = Some rule ->
        calls (_evaluate_challenge env prompt judge challenge)
        = (if YaraValidator.truthy (YaraValidator._validate_structure rule)
           then [] else [CallCompile rule])
          ++ (if is_empty (test_files challenge) then [] else [CallCompile rule])
          ++ (if judge then [CallJudge (prompt challenge rule)] else [])
          ++ [CallScorer rule]).
Proof.
  rewrite evaluation_log.
  destruct (generate_rule env challenge) as [response | e].
  - destruct (YaraExtractor.extract_single_rule response) as [rule |] eqn:E.
    + split; [| split; [| split; [| split; [| split]]]].
      * destruct (YaraValidator.truthy _), (is_empty _), judge; cbn; lia.
      * destruct (YaraValidator.truthy _), (is_empty _), judge; cbn; lia.
      * destruct (YaraValidator.truthy _), (is_empty _), judge; cbn; lia.
      * intros e G. discriminate G.
      * intros response' G E'. injection G as <-.
        rewrite E in E'. discriminate E'.
      * intros response' rule' G E'. injection G as <-.
        rewrite E in E'. injection E' as <-. reflexivity.
    + repeat split; try (destruct judge; cbn; lia).
      intros response' rule' G E'. injection G as <-.
      rewrite E in E'. discriminate E'.
  - repeat split; try (destruct judge; cbn; lia).
    intros response rule G. discriminate G.
Qed.

End Calls.

(** The calls for the minimal rule on the example challenge with files,
    with a judge: two compilations, the judge and the scorer. *)
Lemma evaluation_call_budget_witness :
  calls (Benchmark._evaluate_challenge judge_env example_prompt true
           example_challenge_with_files)
  = [CallCompile (str "rule a { condition: true }");
     CallCompile (str "rule a { condition: true }");
     CallJudge (example_prompt example_challenge_with_files
                  (str "rule a { condition: true }"));
     CallScorer (str "rule a { condition: true }")].
Proof.
  exact (proj2 (proj2 (proj2 (proj2 (proj2
           (evaluation_call_budget judge_env example_prompt true
              example_challenge_with_files)))))
           (str "rule a { condition: true }")
           (str "rule a { condition: true }") eq_refl eq_refl).
Defined.
(** * Further properties of the evaluators *)

Section Evaluators.

Variable env : Env.

(** The syntax evaluator reports an error exactly when it reports the
    rule as invalid, and then it reports no feature as found; the rule
    is valid exactly when it passes the structure check and compiles. *)
Theorem validator_error_iff_invalid (challenge : Challenge) (rule : text) :
  (YaraValidator.valid_syntax (value (YaraValidator.evaluate env challenge rule))
   = true
   <-> YaraValidator.error (value (YaraValidator.evaluate env challenge rule))
       = None)
  /\ (YaraValidator.valid_syntax (value (YaraValidator.evaluate env challenge rule))
      = true
      <-> YaraValidator._validate_structure rule = None
          /\ exists m, yara_compile env rule = Compiled m)
  /\ (YaraValidator.valid_syntax (value (YaraValidator.evaluate env challenge rule))
      = false ->
      YaraValidator.expected_strings_found
        (value (YaraValidator.evaluate env challenge rule)) = []
      /\ YaraValidator.expected_keywords_found
           (value (YaraValidator.evaluate env challenge rule)) = []).
Proof.
  unfold YaraValidator.evaluate. cbv zeta.
  destruct (validate_structure_cases rule) as [[msg [E [T _]]] | [E _]];
    rewrite E.
  - rewrite T. cbn. repeat split; try discriminate.
    intros [K _]. discriminate K.
  - cbn [YaraValidator.truthy]. rewrite value_bind. cbn [tell value fst].
    destruct (yara_compile env rule) as [m | e | e]; cbn.
    + repeat split; try discriminate. exists m. reflexivity.
    + repeat split; try discriminate. intros [_ [m K]]. discriminate K.
    + repeat split; try discriminate. intros [_ [m K]]. discriminate K.
Qed.

Lemma filter_sublist {A} (f : A -> bool) (l : list A) :
  sublist (List.filter f l) l.
Proof.
  induction l as [|a l IH]; cbn [List.filter]; [constructor |].
  destruct (f a); [apply sublist_skip | apply sublist_cons]; exact IH.
Qed.

(** The expected strings reported as found are expected strings, in the
    order and with the repetitions of the challenge, and an expected
    string that occurs verbatim in the rule is always among them. *)
Theorem expected_strings_found_spec (rule : text) (expected : list text) :
  sublist (YaraValidator._find_expected_strings env rule expected) expected
  /\ (forall e, In e expected -> substring e rule ->
        In e (YaraValidator._find_expected_strings env rule expected))
  /\ (forall e, In e (YaraValidator._find_expected_strings env rule expected) ->
        In e expected
        /\ (substring e rule \/ substring (py_repr env e) rule
            \/ substring (hex_of_bytes env e) rule
            \/ substring (YaraValidator.double_backslashes e) rule)).
Proof.
  unfold YaraValidator._find_expected_strings.
  split; [apply filter_sublist | split].
  - intros e I S. apply List.filter_In. split; [exact I |].
    apply contains_spec in S. rewrite S. reflexivity.
  - intros e I. apply List.filter_In in I. destruct I as [I C].
    split; [exact I |].
    rewrite !orb_true_iff, !contains_spec in C. tauto.
Qed.

Lemma teqb_eq (a b : text) : teqb a b = true -> a = b.
Proof.
  revert b. induction a as [|x a IH]; intros [|y b] T; try discriminate T;
    [reflexivity |].
  cbn in T. apply andb_prop in T. destruct T as [T1 T2].
  apply ceqb_eq in T1. subst y. f_equal. apply IH, T2.
Qed.

Lemma lower_char_lower (c : ascii) : lower_char (lower_char c) = lower_char c.
Proof.
  destruct c as [[] [] [] [] [] [] [] []]; vm_compute; reflexivity.
Qed.

Lemma lower_lower (s : text) : lower (lower s) = lower s.
Proof.
  unfold lower. rewrite List.map_map. apply List.map_ext.
  intros c. apply lower_char_lower.
Qed.

(** The expected keywords reported as found are expected keywords, in
    the order and with the spelling of the challenge; the search ignores
    the case of the rule and of the keyword; a keyword other than [pe]
    and [elf] is found exactly when it occurs in the rule up to case. *)
Theorem expected_keywords_found_spec (rule : text) (expected : list text) :
  sublist (YaraValidator._find_expected_keywords rule expected) expected
  /\ YaraValidator._find_expected_keywords (lower rule) expected
     = YaraValidator._find_expected_keywords rule expected
  /\ YaraValidator._find_expected_keywords rule (map lower expected)
     = map lower (YaraValidator._find_expected_keywords rule expected)
  /\ (forall k, lower k <> str "pe" -> lower k <> str "elf" ->
        (In k (YaraValidator._find_expected_keywords rule expected)
         <-> In k expected /\ substring (lower k) (lower rule))).
Proof.
  unfold YaraValidator._find_expected_keywords. cbv zeta.
  split; [apply filter_sublist | split; [| split]].
  - rewrite lower_lower. reflexivity.
  - induction expected as [|k ks IH]; [reflexivity |].
    cbn [map List.filter]. rewrite lower_lower, IH.
    match goal with |- (if ?b then _ else _) = _ => destruct b end; reflexivity.
  - intros k P E. rewrite List.filter_In.
    assert (TP : teqb (lower k) (str "pe") = false).
    { destruct (teqb (lower k) (str "pe")) eqn:T; [| reflexivity].
      exfalso. apply P, teqb_eq, T. }
    assert (TE : teqb (lower k) (str "elf") = false).
    { destruct (teqb (lower k) (str "elf")) eqn:T; [| reflexivity].
      exfalso. apply E, teqb_eq, T. }
    rewrite TP, TE. cbn [orb]. rewrite contains_spec. reflexivity.
Qed.

Lemma evaluate_compiled (challenge : Challenge) (rule : text) (m : matcher) :
  yara_compile env rule = Compiled m ->
  value (FileMatcher.evaluate env challenge rule)
  = fold_left (FileMatcher.match_file env m) (test_files challenge)
              (FileMatcher.mkResults ∅ None).
Proof.
  intros C. unfold FileMatcher.evaluate. cbv zeta.
  destruct (test_files challenge) as [|f fs]; [reflexivity |].
  rewrite value_bind. cbn [tell value fst]. rewrite C. reflexivity.
Qed.

Lemma fold_match_file_keys (m : matcher) (files : list TestFile)
      (res : FileMatcher.results) (name : text) :
  is_Some (FileMatcher.execution_results
             (fold_left (FileMatcher.match_file env m) files res) !! name) ->
  is_Some (FileMatcher.execution_results res !! name)
  \/ In name (map tf_name files).
Proof.
  induction files as [|last files IH] using List.rev_ind; intros S.
  - left. exact S.
  - rewrite fold_match_file_snoc in S. rewrite List.map_app, List.in_app_iff.
    destruct (decide (tf_name last = name)) as [E | N].
    + right. right. left. exact E.
    + rewrite lookup_insert_ne in S by exact N.
      destruct (IH S) as [K | K]; [left; exact K | right; left; exact K].
Qed.

(** The execution results have no entry under a name that is not the
    name of a test file, and they are empty exactly when the challenge
    has no test file or the rule does not compile. *)
Theorem execution_results_keys (challenge : Challenge) (rule : text) :
  (forall name,
      is_Some (FileMatcher.execution_results
                 (value (FileMatcher.evaluate env challenge rule)) !! name) ->
      In name (map tf_name (test_files challenge)))
  /\ (FileMatcher.execution_results
        (value (FileMatcher.evaluate env challenge rule)) = ∅
      <-> test_files challenge = []
          \/ forall m, yara_compile env rule <> Compiled m).
Proof.
  destruct (yara_compile env rule) as [m | e | e] eqn:C.
  - rewrite (evaluate_compiled challenge rule m C). split.
    + intros name S. apply fold_match_file_keys in S.
      destruct S as [[b S] | S]; [| exact S].
      cbn in S. rewrite lookup_empty in S. discriminate S.
    + split.
      * intros E. left. destruct (test_files challenge) as [|f fs]; [reflexivity |].
        exfalso.
        destruct (fold_match_file_entry env m (f :: fs)
                    (FileMatcher.mkResults ∅ None) f (or_introl eq_refl))
          as [b S].
        rewrite E, lookup_empty in S. discriminate S.
      * intros [K | K]; [rewrite K; reflexivity | destruct (K m); reflexivity].
  - assert (N : forall m, yara_compile env rule <> Compiled m).
    { intros m K. rewrite C in K. discriminate K. }
    rewrite <- C. rewrite (matcher_rejects env challenge rule N). split.
    + intros name [b S]. rewrite lookup_empty in S. discriminate S.
    + split; [intros _; right; exact N | reflexivity].
  - assert (N : forall m, yara_compile env rule <> Compiled m).
    { intros m K. rewrite C in K. discriminate K. }
    rewrite <- C. rewrite (matcher_rejects env challenge rule N). split.
    + intros name [b S]. rewrite lookup_empty in S. discriminate S.
    + split; [intros _; right; exact N | reflexivity].
Qed.

Lemma fold_match_file_later (m : matcher) (after : list TestFile)
      (res : FileMatcher.results) (name : text) :
  ~ In name (map tf_name after) ->
  FileMatcher.execution_results
    (fold_left (FileMatcher.match_file env m) after res) !! name
  = FileMatcher.execution_results res !! name.
Proof.
  induction after as [|last after IH] using List.rev_ind; intros N.
  - reflexivity.
  - rewrite fold_match_file_snoc. rewrite List.map_app, List.in_app_iff in N.
    rewrite lookup_insert_ne; [apply IH; tauto |].
    intros E. apply N. right. left. exact E.
Qed.

(** When test files share a name, the entry under that name is the
    outcome of the last of them: the outcome of an earlier file of the
    same name is overwritten. *)
Theorem later_file_overrides (challenge : Challenge) (rule : text) (m : matcher)
        (before after : list TestFile) (tf : TestFile) :
  yara_compile env rule = Compiled m ->
  test_files challenge = before ++ tf :: after ->
  ~ In (tf_name tf) (map tf_name after) ->
  FileMatcher.execution_results
    (value (FileMatcher.evaluate env challenge rule)) !! tf_name tf
  = Some (file_outcome env m tf).
Proof.
  intros C F N. rewrite (evaluate_compiled challenge rule m C), F.
  rewrite List.fold_left_app. cbn [fold_left].
  rewrite fold_match_file_later by exact N.
  rewrite match_file_results. apply lookup_insert_eq.
Qed.

Lemma match_file_error (m : matcher) (res : FileMatcher.results) (tf : TestFile) :
  FileMatcher.error (FileMatcher.match_file env m res tf)
  = match file_failure env m tf with
    | Some e => Some e
    | None => FileMatcher.error res
    end.
Proof.
  unfold FileMatcher.match_file, file_failure. cbv zeta.
  destruct (b64decode env _) as [content | e]; [| reflexivity].
  destruct (m content); reflexivity.
Qed.

Lemma fold_match_file_error_none (m : matcher) (files : list TestFile)
      (res : FileMatcher.results) :
  FileMatcher.error (fold_left (FileMatcher.match_file env m) files res) = None
  <-> FileMatcher.error res = None
      /\ forall tf, In tf files -> file_failure env m tf = None.
Proof.
  revert res. induction files as [|f files IH]; intros res; cbn [fold_left].
  - split; [intros E; split; [exact E | intros tf []] | intros [E _]; exact E].
  - rewrite IH, match_file_error. split.
    + intros [E A]. destruct (file_failure env m f) eqn:FF; [discriminate E |].
      split; [exact E |]. intros tf [<- | I]; [exact FF | apply A, I].
    + intros [E A]. rewrite (A f (or_introl eq_refl)).
      split; [exact E |]. intros tf I. apply A. right. exact I.
Qed.

Lemma fold_match_file_error_keeps (m : matcher) (after : list TestFile)
      (res : FileMatcher.results) :
  (forall x, In x after -> file_failure env m x = None) ->
  FileMatcher.error (fold_left (FileMatcher.match_file env m) after res)
  = FileMatcher.error res.
Proof.
  revert res. induction after as [|f after IH]; intros res A; cbn [fold_left].
  - reflexivity.
  - rewrite IH by (intros x I; apply A; right; exact I).
    rewrite match_file_error, (A f (or_introl eq_refl)). reflexivity.
Qed.

(** Once the rule has compiled, the execution evaluator reports no error
    exactly when every test file decoded and was matched without an
    exception; otherwise its error is the message of the last file that
    failed, and every file that failed is recorded as not matched. *)
Theorem execution_error_spec (challenge : Challenge) (rule : text) (m : matcher) :
  yara_compile env rule = Compiled m ->
  (FileMatcher.error (value (FileMatcher.evaluate env challenge rule)) = None
   <-> forall tf, In tf (test_files challenge) -> file_failure env m tf = None)
  /\ (forall before after tf e,
        test_files challenge = before ++ tf :: after ->
        file_failure env m tf = Some e ->
        (forall x, In x after -> file_failure env m x = None) ->
        FileMatcher.error (value (FileMatcher.evaluate env challenge rule))
        = Some e)
  /\ (forall tf e, file_failure env m tf = Some e ->
        file_outcome env m tf = false).
Proof.
  intros C. rewrite (evaluate_compiled challenge rule m C).
  split; [| split].
  - rewrite fold_match_file_error_none. cbn [FileMatcher.error]. tauto.
  - intros before after tf e F FF A. rewrite F, List.fold_left_app.
    cbn [fold_left]. rewrite fold_match_file_error_keeps by exact A.
    rewrite match_file_error, FF. reflexivity.
  - intros tf e. unfold file_failure, file_outcome.
    destruct (b64decode env _) as [content | e']; [| reflexivity].
    destruct (m content); [discriminate | reflexivity].
Qed.

End Evaluators.

(** Of the two example files the second is the last of its name. *)
Lemma later_file_overrides_witness :
  FileMatcher.execution_results
    (value (FileMatcher.evaluate example_env example_challenge_with_files
              (str "rule a { condition: true }"))) !! str "benign.txt"
  = Some true.
Proof.
  exact (later_file_overrides example_env example_challenge_with_files
           (str "rule a { condition: true }") (fun _ => Ok 1)
           [mkTestFile (str "malware.bin") (str "ZXZpbA") true] []
           (mkTestFile (str "benign.txt") (str "aGVsbG8=") false)
           eq_refl eq_refl (fun H => H)).
Defined.

(** When no payload decodes, the error names the last test file. *)
Lemma execution_error_spec_witness :
  FileMatcher.error
    (value (FileMatcher.evaluate undecodable_env example_challenge_with_files
              (str "rule a { condition: true }")))
  = Some (str "Failed to decode benign.txt: Incorrect padding").
Proof.
  exact (proj1 (proj2 (execution_error_spec undecodable_env
                         example_challenge_with_files
                         (str "rule a { condition: true }") (fun _ => Ok 1)
                         eq_refl))
           [mkTestFile (str "malware.bin") (str "ZXZpbA") true] []
           (mkTestFile (str "benign.txt") (str "aGVsbG8=") false)
           (str "Failed to decode benign.txt: Incorrect padding")
           eq_refl eq_refl (fun x H => match H with end)).
Defined.
(** * Further properties of the judge *)

Section JudgeData.

Import LLMJudge.

Variable env : Env.

Lemma teqb_refl (a : text) : teqb a a = true.
Proof. induction a as [|x a IH]; [reflexivity |]. cbn. rewrite ceqb_refl. exact IH. Qed.

Lemma teqb_neq (a b : text) : a <> b -> teqb a b = false.
Proof.
  intros N. destruct (teqb a b) eqn:T; [| reflexivity].
  contradiction N. apply teqb_eq, T.
Qed.

Lemma get_set_same {A} (k : text) (v : A) (d : list (text * A)) :
  Dict.get k (Dict.set k v d) = Some v.
Proof.
  induction d as [|[k' v'] d IH]; cbn.
  - rewrite teqb_refl. reflexivity.
  - destruct (teqb k k') eqn:T; cbn; rewrite T; [reflexivity | exact IH].
Qed.

Lemma get_set_other {A} (k k' : text) (v : A) (d : list (text * A)) :
  k' <> k -> Dict.get k' (Dict.set k v d) = Dict.get k' d.
Proof.
  intros N. induction d as [|[k0 v0] d IH]; cbn.
  - rewrite (teqb_neq k' k N). reflexivity.
  - destruct (teqb k k0) eqn:T; cbn.
    + apply teqb_eq in T. subst k0. rewrite (teqb_neq k' k N). reflexivity.
    + destruct (teqb k' k0); [reflexivity | exact IH].
Qed.

Lemma has_set_same {A} (k : text) (v : A) (d : list (text * A)) :
  Dict.has k (Dict.set k v d) = true.
Proof. unfold Dict.has. rewrite get_set_same. reflexivity. Qed.

Lemma fill_key_scores (d : list (text * json)) (key : text) :
  scored (fill_key env d key) key.
Proof.
  unfold scored, fill_key.
  destruct (Dict.get key d) as [v |] eqn:G.
  - destruct v as [| b | q | s | l | inner];
      try (rewrite get_set_same; eexists; split; reflexivity).
    destruct (Dict.has (str "score") inner) eqn:H.
    + exists inner. split; assumption.
    + rewrite get_set_same. eexists. split; [reflexivity |].
      apply has_set_same.
  - rewrite get_set_same. eexists. split; reflexivity.
Qed.

Lemma fill_key_keeps (d : list (text * json)) (key other : text) :
  scored d other -> scored (fill_key env d key) other.
Proof.
  intros S. destruct (teqb other key) eqn:T;
    [apply teqb_eq in T; subst other
    | assert (N : other <> key)
        by (intros K; rewrite K, teqb_refl in T; discriminate T)].
  - apply fill_key_scores.
  - destruct S as [inner [G H]]. exists inner. split; [| exact H].
    unfold fill_key.
    destruct (Dict.get key d) as [v |].
    + destruct v as [| b | q | s | l | inner'];
        try (rewrite get_set_other by exact N; exact G).
      destruct (Dict.has (str "score") inner'); [exact G |].
      rewrite get_set_other by exact N. exact G.
    + rewrite get_set_other by exact N. exact G.
Qed.

Lemma fill_keys_scored (keys : list text) (d : list (text * json)) (key : text) :
  In key keys \/ scored d key -> scored (fold_left (fill_key env) keys d) key.
Proof.
  revert d. induction keys as [|k keys IH]; intros d [I | S]; cbn [fold_left].
  - destruct I.
  - exact S.
  - apply IH. destruct I as [-> | I]; [right; apply fill_key_scores | left; exact I].
  - apply IH. right. apply fill_key_keeps, S.
Qed.

(** Whatever the judge answered, the evaluation data that the parser
    returns has each of the five criteria as a dictionary with a score:
    a criterion that is missing, is not a dictionary or has no score is
    given the score 5. *)
Theorem parsed_criteria_are_scored (response : text)
        (evaluation_data : list (text * json)) :
  _parse_evaluation_response env response = Ok evaluation_data ->
  forall key, In key required_keys -> scored evaluation_data key.
Proof.
  unfold _parse_evaluation_response.
  destruct (json_loads env _) as [v |].
  - destruct v as [| b | q | s | l | d]; try discriminate.
    intros E key I. injection E as <-.
    exact (fill_keys_scored required_keys d key (or_introl I)).
  - intros E key I. injection E as <-.
    unfold required_keys in I. cbn in I.
    destruct I as [<- | [<- | [<- | [<- | [<- | []]]]]];
      (eexists; split; reflexivity).
Qed.

End JudgeData.

(** The example judge answers with a text that is not JSON. *)
Lemma parsed_criteria_are_scored_witness :
  scored (LLMJudge.fallback (str "This is not JSON")) (str "efficiency").
Proof.
  apply (parsed_criteria_are_scored example_env (str "This is not JSON")
           (LLMJudge.fallback (str "This is not JSON")) eq_refl).
  right. right. left. reflexivity.
Defined.

Section JudgeScore.

Import LLMJudge.

Lemma add_criterion_scored (d : list (text * json)) (key : text) (w q ts tw : Q) :
  criterion_score d key q ->
  add_criterion d (Ok (ts, tw)) (key, w)
  = Ok ((ts + (q / 10) * w)%Q, (tw + w)%Q).
Proof.
  intros [inner [v [G [S N]]]]. unfold add_criterion. cbn [fst snd].
  rewrite G, S, N. reflexivity.
Qed.

Lemma tenth (x : Q) : (x / 10 == x * (1 # 10))%Q.
Proof. unfold Qdiv. reflexivity. Qed.

Import Binary64.

Local Open Scope Q_scope.

Lemma round_10 : round 10 == 10.
Proof. vm_compute. reflexivity. Qed.

(** The conversion of a score between 0 and 10. *)
Lemma to_float_small (q : Q) :
  0 <= q <= 10 ->
  to_float q = Ok (round q)
  /\ 0 <= round q <= 10
  /\ - (1 # 1125899906842624) <= round q - q <= 1 # 1125899906842624.
Proof.
  intros [L U].
  assert (R : 0 <= round q <= 10).
  { split; [apply round_nonneg; exact L |].
    apply Qle_trans with (round 10); [apply round_mono; exact U |].
    rewrite round_10. apply Qle_refl. }
  split; [| split; [exact R |]].
  - unfold to_float.
    destruct (Qle_bool (pow2 1024) (Qabs (round q))) eqn:B; [| reflexivity].
    exfalso. apply Qle_bool_iff in B. rewrite Qabs_pos in B by apply R.
    assert (T : 10 < pow2 1024) by (vm_compute; reflexivity).
    destruct R as [_ R]. lra.
  - assert (E : pow2 (4 - 54) == 1 # 1125899906842624) by reflexivity.
    rewrite <- E. apply round_error; [exact L | | lia].
    assert (T : pow2 4 == 16) by reflexivity. rewrite T. lra.
Qed.

(** The normalized score [v / 10.0] of a score between 0 and 10. *)
Lemma normalized_near (q : Q) :
  0 <= q <= 10 ->
  0 <= Rounded.div round (round q) 10 <= 1
  /\ - (2 # 9007199254740992) <= Rounded.div round (round q) 10 - q / 10
     <= 2 # 9007199254740992.
Proof.
  intros H. destruct (to_float_small q H) as [_ [[F0 F1] [Fa Fb]]].
  destruct H as [Q0 Q1].
  unfold Rounded.div. set (f := round q) in *.
  assert (D : 0 <= f / 10 <= 1).
  { rewrite tenth. split; lra. }
  split; [apply round_unit; exact D |].
  assert (N : - (1 # 9007199254740992) <= round (f / 10) - f / 10
              <= 1 # 9007199254740992).
  { destruct (Qlt_le_dec (f / 10) 1) as [L | G].
    - apply round_near; lra.
    - assert (Q2 : f / 10 == 1) by lra. rewrite Q2, round_1. split; discriminate. }
  rewrite !tenth in *. set (r := round (f * (1 # 10))) in *.
  split; lra.
Qed.

(** One weighted term of the judge score. *)
Lemma judge_term_near (W q : Q) :
  0 <= W <= 1 -> 0 <= q <= 10 ->
  let t := Rounded.mul round (Rounded.div round (round q) 10)
                       (Rounded.lit round W) in
  0 <= t <= round (round W)
  /\ - (4 # 9007199254740992) <= t - W * (q / 10) <= 4 # 9007199254740992.
Proof.
  intros [W0 W1] H t. destruct (normalized_near q H) as [[R0 R1] [Ra Rb]].
  destruct H as [Q0 Q1].
  subst t. unfold Rounded.mul, Rounded.lit.
  set (r := Rounded.div round (round q) 10) in *.
  assert (Wn : - (1 # 9007199254740992) <= round W - W <= 1 # 9007199254740992).
  { destruct (Qlt_le_dec W 1) as [L | G].
    - apply round_near; lra.
    - assert (Q2 : W == 1) by lra. rewrite Q2, round_1. split; discriminate. }
  pose proof (round_unit W (conj W0 W1)) as [w0 w1].
  set (w := round W) in *.
  assert (P0 : 0 <= r * w) by nra.
  assert (P1 : r * w <= w) by nra.
  assert (Pn : - (1 # 9007199254740992) <= round (r * w) - r * w
               <= 1 # 9007199254740992).
  { destruct (Qlt_le_dec (r * w) 1) as [L | G].
    - apply round_near; lra.
    - assert (Q2 : r * w == 1) by lra. rewrite Q2, round_1. split; discriminate. }
  assert (S0 : 0 <= q / 10 <= 1) by (rewrite tenth; split; lra).
  split; [split |].
  - apply round_nonneg. exact P0.
  - apply round_mono. exact P1.
  - destruct Wn as [Wa Wb]. destruct Pn as [Pa Pb].
    set (p := round (r * w)) in *. set (s := q / 10) in *.
    split; nra.
Qed.


(** The accumulation of the five terms, each within [4 * 2^-53] of its
    exact value and at most its weight. *)
Lemma accumulated_near (t1 t2 t3 t4 t5 w1 w2 w3 w4 w5 p1 p2 p3 p4 p5 : Q) :
  0 <= t1 <= w1 -> 0 <= t2 <= w2 -> 0 <= t3 <= w3 -> 0 <= t4 <= w4 ->
  0 <= t5 <= w5 ->
  0 <= p1 -> 0 <= p2 -> 0 <= p3 -> 0 <= p4 -> 0 <= p5 ->
  p1 + p2 + p3 + p4 + p5 <= 1 ->
  - (4 # 9007199254740992) <= t1 - p1 <= 4 # 9007199254740992 ->
  - (4 # 9007199254740992) <= t2 - p2 <= 4 # 9007199254740992 ->
  - (4 # 9007199254740992) <= t3 - p3 <= 4 # 9007199254740992 ->
  - (4 # 9007199254740992) <= t4 - p4 <= 4 # 9007199254740992 ->
  - (4 # 9007199254740992) <= t5 - p5 <= 4 # 9007199254740992 ->
  let sum x1 x2 x3 x4 x5 :=
    Rounded.add round
      (Rounded.add round
         (Rounded.add round
            (Rounded.add round (Rounded.add round 0 x1) x2) x3) x4) x5 in
  0 <= sum t1 t2 t3 t4 t5 <= sum w1 w2 w3 w4 w5
  /\ - (25 # 9007199254740992)
     <= sum t1 t2 t3 t4 t5 - (p1 + p2 + p3 + p4 + p5)
     <= 25 # 9007199254740992.
Proof.
  intros [T1 U1] [T2 U2] [T3 U3] [T4 U4] [T5 U5] P1 P2 P3 P4 P5 PS
         N1 N2 N3 N4 N5 sum.
  subst sum. cbv beta.
  destruct (sum_near 0 t1 ltac:(lra) T1 ltac:(lra)) as [X1 Y1].
  assert (M1 : Rounded.add round 0 t1 <= Rounded.add round 0 w1)
    by (apply round_mono; lra).
  set (a1 := Rounded.add round 0 t1) in *.
  set (b1 := Rounded.add round 0 w1) in *.
  destruct (sum_near a1 t2 X1 T2 ltac:(lra)) as [X2 Y2].
  assert (M2 : Rounded.add round a1 t2 <= Rounded.add round b1 w2)
    by (apply round_mono; lra).
  set (a2 := Rounded.add round a1 t2) in *.
  set (b2 := Rounded.add round b1 w2) in *.
  destruct (sum_near a2 t3 X2 T3 ltac:(lra)) as [X3 Y3].
  assert (M3 : Rounded.add round a2 t3 <= Rounded.add round b2 w3)
    by (apply round_mono; lra).
  set (a3 := Rounded.add round a2 t3) in *.
  set (b3 := Rounded.add round b2 w3) in *.
  destruct (sum_near a3 t4 X3 T4 ltac:(lra)) as [X4 Y4].
  assert (M4 : Rounded.add round a3 t4 <= Rounded.add round b3 w4)
    by (apply round_mono; lra).
  set (a4 := Rounded.add round a3 t4) in *.
  set (b4 := Rounded.add round b3 w4) in *.
  destruct (sum_near a4 t5 X4 T5 ltac:(lra)) as [X5 Y5].
  assert (M5 : Rounded.add round a4 t5 <= Rounded.add round b4 w5)
    by (apply round_mono; lra).
  split; [split; [exact X5 | exact M5] |].
  set (a5 := Rounded.add round a4 t5) in *.
  split; lra.
Qed.

Lemma rounded_add_criterion_scored (d : list (text * json)) (key : text)
      (w q ts tw : Q) :
  criterion_score d key q -> 0 <= q <= 10 ->
  Rounded.add_criterion round to_float d (Ok (ts, tw)) (key, w)
  = Ok (Rounded.add round ts
          (Rounded.mul round (Rounded.div round (round q) 10)
             (Rounded.lit round w)),
        Rounded.add round tw (Rounded.lit round w)).
Proof.
  intros [inner [v [G [S N]]]] R. unfold Rounded.add_criterion. cbn [fst snd].
  rewrite G, S, N. destruct (to_float_small q R) as [-> _]. reflexivity.
Qed.

(** A score that is too large for a [float] makes the judge score raise
    [OverflowError]. *)
Lemma rounded_add_criterion_overflow (d : list (text * json)) (key : text)
      (w q ts tw : Q) :
  criterion_score d key q -> pow2 1024 <= Qabs (round q) ->
  Rounded.add_criterion round to_float d (Ok (ts, tw)) (key, w)
  = Raise (str "int too large to convert to float").
Proof.
  intros [inner [v [G [S N]]]] R. unfold Rounded.add_criterion. cbn [fst snd].
  rewrite G, S, N. unfold to_float.
  apply Qle_bool_iff in R. rewrite R. reflexivity.
Qed.

#[local] Opaque round.


End JudgeScore.


Section FencedAnswers.

Import LLMJudge.

Lemma split_on_skip (sep : text) (w rest cur : text) :
  split_on_from sep (List.length w) cur (w ++ rest) = split_on_from sep 0 cur rest.
Proof.
  induction w as [|x w IH]; [reflexivity |]. cbn. exact IH.
Qed.

Lemma startswith_app (p s : text) : startswith p (p ++ s) = true.
Proof. apply startswith_spec. exists s. reflexivity. Qed.

Lemma split_on_at_sep (c : ascii) (sep rest cur : text) :
  split_on_from (c :: sep) 0 cur ((c :: sep) ++ rest)
  = rev cur :: split_on_from (c :: sep) 0 [] rest.
Proof.
  cbn [split_on_from app].
  change (c :: sep ++ rest) with ((c :: sep) ++ rest).
  rewrite startswith_app. f_equal.
  replace (List.length (c :: sep) - 1) with (List.length sep) by (cbn; lia).
  apply split_on_skip.
Qed.

Lemma split_on_free (sep s t cur : text) :
  List.Forall (fun x => x <> BQ) s ->
  split_on_from (BQ :: sep) 0 cur (s ++ t)
  = split_on_from (BQ :: sep) 0 (rev s ++ cur) t.
Proof.
  revert cur. induction s as [|x s IH]; intros cur F; [reflexivity |].
  inversion F as [|? ? N F']; subst.
  cbn [app split_on_from startswith].
  destruct (ceqb BQ x) eqn:E; [apply ceqb_eq in E; congruence |].
  cbn [andb]. rewrite IH by exact F'. cbn [rev]. rewrite <- app_assoc.
  reflexivity.
Qed.

Lemma contains_free (sep s t : text) :
  List.Forall (fun x => x <> BQ) s ->
  contains (BQ :: sep) (s ++ t) = contains (BQ :: sep) t.
Proof.
  induction s as [|x s IH]; intros F; [reflexivity |].
  inversion F as [|? ? N F']; subst.
  cbn [app contains startswith].
  destruct (ceqb BQ x) eqn:E; [apply ceqb_eq in E; congruence |].
  cbn [andb orb]. apply IH, F'.
Qed.

Lemma lstrip_keeps (s : text) (c : ascii) (r : text) :
  isspace c = false -> lstrip (c :: r) = c :: r.
Proof. intros E. cbn. rewrite E. reflexivity. Qed.

(** A text that starts and ends with a backquote is its own [strip]. *)
Lemma strip_backquoted (mid : text) :
  strip (BQ :: mid ++ [BQ]) = BQ :: mid ++ [BQ].
Proof.
  unfold strip, rstrip.
  change (lstrip (BQ :: mid ++ [BQ])) with (BQ :: mid ++ [BQ]).
  change (BQ :: mid ++ [BQ]) with ((BQ :: mid) ++ [BQ]).
  rewrite List.rev_app_distr. cbn [rev app].
  change (lstrip (BQ :: rev mid ++ [BQ])) with (BQ :: rev mid ++ [BQ]).
  change (BQ :: rev mid ++ [BQ]) with ([BQ] ++ rev (BQ :: mid)).
  rewrite List.rev_app_distr, rev_involutive. reflexivity.
Qed.

Lemma lstrip_app_space (s : text) (c : ascii) :
  isspace c = true ->
  lstrip (s ++ [c]) = match lstrip s with [] => [] | l => l ++ [c] end.
Proof.
  intros E. induction s as [|x s IH]; cbn.
  - rewrite E. reflexivity.
  - destruct (isspace x); [exact IH | reflexivity].
Qed.

Lemma strip_newlines (s : text) : strip (NL :: s ++ [NL]) = strip s.
Proof.
  unfold strip, rstrip.
  change (lstrip (NL :: s ++ [NL])) with (lstrip (s ++ [NL])).
  rewrite lstrip_app_space by reflexivity.
  destruct (lstrip s) as [|c l]; [reflexivity |].
  change ((c :: l) ++ [NL]) with ((c :: l) ++ [NL]).
  rewrite List.rev_app_distr. cbn [rev app].
  change (lstrip (NL :: rev l ++ [c])) with (lstrip (rev l ++ [c])).
  reflexivity.
Qed.

Lemma split_on_json_tail (cur : text) :
  split_on_from (str "```json") 0 cur (str "```") = [rev cur ++ str "```"].
Proof.
  change (split_on_from (str "```json") 0 cur (str "```"))
    with [rev (rev (str "```") ++ cur)].
  rewrite List.rev_app_distr, rev_involutive. reflexivity.
Qed.

Lemma unwrap_json (body : text) :
  List.Forall (fun x => x <> BQ) body ->
  strip (strip_fences (json_fenced (str "json") body)) = strip body.
Proof.
  intros F. unfold strip_fences, json_fenced. cbv zeta.
  assert (S : strip (str "```" ++ str "json" ++ [NL] ++ body ++ [NL] ++ str "```")
              = str "```json" ++ (NL :: body ++ [NL]) ++ str "```").
  { assert (E : str "```" ++ str "json" ++ [NL] ++ body ++ [NL] ++ str "```"
                = BQ :: (BQ :: BQ :: str "json" ++ NL :: body ++ NL :: [BQ; BQ])
                        ++ [BQ]).
    { cbn. rewrite <- app_assoc. reflexivity. }
    rewrite E, strip_backquoted. cbn. rewrite <- !app_assoc. reflexivity. }
  rewrite S.
  replace (contains (str "```json") (str "```json" ++ (NL :: body ++ [NL]) ++ str "```"))
    with true
    by (symmetry; apply contains_spec; exists [], ((NL :: body ++ [NL]) ++ str "```");
        reflexivity).
  unfold split_on.
  change (str "```json") with (BQ :: str "``json").
  rewrite (split_on_at_sep BQ (str "``json")).
  assert (F' : List.Forall (fun x => x <> BQ) (NL :: body ++ [NL])).
  { constructor; [discriminate |]. apply List.Forall_app. split; [exact F |].
    constructor; [discriminate | constructor]. }
  rewrite (split_on_free (str "``json") _ _ [] F').
  change (BQ :: str "``json") with (str "```json").
  rewrite split_on_json_tail, app_nil_r, rev_involutive.
  cbn [nth].
  change (str "```") with (BQ :: str "``") at 1.
  rewrite (split_on_free (str "``") _ _ [] F').
  change (str "```") with ((BQ :: str "``") ++ []).
  rewrite (split_on_at_sep BQ (str "``")). cbn [hd].
  rewrite app_nil_r, rev_involutive. apply strip_newlines.
Qed.

Lemma contains_skip (sep : text) (a : ascii) (r : text) :
  startswith sep (a :: r) = false -> contains sep (a :: r) = contains sep r.
Proof. intros E. cbn [contains]. rewrite E. reflexivity. Qed.

Lemma split_fence_at (cur rest : text) :
  split_on_from (str "```") 0 cur (str "```" ++ rest)
  = rev cur :: split_on_from (str "```") 0 [] rest.
Proof. exact (split_on_at_sep BQ (str "``") rest cur). Qed.

Lemma split_fence_free (s t cur : text) :
  List.Forall (fun x => x <> BQ) s ->
  split_on_from (str "```") 0 cur (s ++ t)
  = split_on_from (str "```") 0 (rev s ++ cur) t.
Proof. exact (split_on_free (str "``") s t cur). Qed.

Lemma unwrap_plain (body : text) :
  List.Forall (fun x => x <> BQ) body ->
  strip (strip_fences (json_fenced [] body)) = strip body.
Proof.
  intros F. unfold strip_fences, json_fenced. cbv zeta.
  assert (F' : List.Forall (fun x => x <> BQ) (NL :: body ++ [NL])).
  { constructor; [discriminate |]. apply List.Forall_app. split; [exact F |].
    constructor; [discriminate | constructor]. }
  assert (S : strip (str "```" ++ [] ++ [NL] ++ body ++ [NL] ++ str "```")
              = str "```" ++ (NL :: body ++ [NL]) ++ str "```").
  { assert (E : str "```" ++ [] ++ [NL] ++ body ++ [NL] ++ str "```"
                = BQ :: (BQ :: BQ :: NL :: body ++ NL :: [BQ; BQ]) ++ [BQ]).
    { cbn. rewrite <- app_assoc. reflexivity. }
    rewrite E, strip_backquoted. cbn. rewrite <- !app_assoc. reflexivity. }
  rewrite S.
  assert (C : contains (str "```json")
                (str "```" ++ (NL :: body ++ [NL]) ++ str "```") = false).
  { change (str "```" ++ (NL :: body ++ [NL]) ++ str "```")
      with (BQ :: BQ :: BQ :: (NL :: body ++ [NL]) ++ str "```").
    rewrite !contains_skip by reflexivity.
    change (str "```json") with (BQ :: str "``json").
    rewrite (contains_free _ _ _ F'). reflexivity. }
  rewrite C.
  replace (contains (str "```") (str "```" ++ (NL :: body ++ [NL]) ++ str "```"))
    with true
    by (symmetry; apply contains_spec; exists [], ((NL :: body ++ [NL]) ++ str "```");
        reflexivity).
  unfold split_on.
  rewrite (split_fence_at [] ((NL :: body ++ [NL]) ++ str "```")).
  rewrite (split_fence_free (NL :: body ++ [NL]) (str "```") [] F').
  rewrite app_nil_r.
  pose proof (split_fence_at (rev (NL :: body ++ [NL])) []) as Q.
  rewrite app_nil_r in Q. rewrite Q. clear Q.
  rewrite rev_involutive. cbn [nth].
  pose proof (split_fence_free (NL :: body ++ [NL]) [] [] F') as Q.
  rewrite !app_nil_r in Q. rewrite Q. clear Q.
  cbn [split_on_from hd]. rewrite rev_involutive.
  apply strip_newlines.
Qed.

(** A judge answer in a fenced block, tagged json or not, whose body has
    no backquote is read like the body alone: the text handed to
    [json.loads] is the stripped body, so a body that decodes to an
    object is parsed as that object. *)
Theorem fenced_answer_is_unwrapped (env : Env) (body : text)
        (evaluation_data : list (text * json)) :
  List.Forall (fun x => x <> BQ) body ->
  json_loads env (strip body) = Some (JObj evaluation_data) ->
  strip (strip_fences (json_fenced (str "json") body)) = strip body
  /\ strip (strip_fences (json_fenced [] body)) = strip body
  /\ _parse_evaluation_response env (json_fenced (str "json") body)
     = Ok (fold_left (fill_key env) required_keys evaluation_data)
  /\ _parse_evaluation_response env (json_fenced [] body)
     = Ok (fold_left (fill_key env) required_keys evaluation_data).
Proof.
  intros F J. unfold _parse_evaluation_response.
  rewrite (unwrap_json body F), (unwrap_plain body F), J.
  repeat split.
Qed.

End FencedAnswers.

(** The overrated answer of the example judge, in a fenced block. *)
Lemma fenced_answer_is_unwrapped_witness :
  LLMJudge._parse_evaluation_response judge_env
    (json_fenced (str "json") overrated_answer)
  = Ok (fold_left (LLMJudge.fill_key judge_env) LLMJudge.required_keys
          (map (fun name => (name, JObj [(str "score", JNum 100%Q)]))
               LLMJudge.required_keys)).
Proof.
  refine (proj1 (proj2 (proj2 (fenced_answer_is_unwrapped judge_env
            overrated_answer _ _ eq_refl)))).
  repeat (constructor; [discriminate |]). constructor.
Defined.
(** * Further properties of the text utilities *)

Section TextUtilities.

Import TextUtils.

Lemma b64_char_plain (c : ascii) :
  is_b64_char c = true ->
  isspace c = false /\ c <> BQ /\ c <> NL /\ c <> CR /\ c <> DQ /\ c <> SQ.
Proof.
  destruct c as [[] [] [] [] [] [] [] []]; intros H;
    try discriminate H; repeat split; try reflexivity; discriminate.
Qed.

Lemma lstrip_no_space (s : text) :
  List.Forall (fun c => isspace c = false) s -> lstrip s = s.
Proof.
  intros F. destruct F as [|c s E _]; [reflexivity |]. cbn. rewrite E. reflexivity.
Qed.

Lemma strip_no_space (s : text) :
  List.Forall (fun c => isspace c = false) s -> strip s = s.
Proof.
  intros F. unfold strip, rstrip. rewrite (lstrip_no_space s F).
  rewrite lstrip_no_space; [apply rev_involutive |].
  apply List.Forall_rev, F.
Qed.

Lemma remove_absent (c : ascii) (s : text) :
  List.Forall (fun x => x <> c) s -> remove c s = s.
Proof.
  unfold remove. induction 1 as [|x s N _ IH]; [reflexivity |].
  cbn. destruct (ceqb c x) eqn:E; [apply ceqb_eq in E; congruence |].
  cbn. f_equal. exact IH.
Qed.

Lemma filter_kept {A} (f : A -> bool) (l : list A) :
  List.Forall (fun x => f x = true) l -> List.filter f l = l.
Proof.
  induction 1 as [|x l E _ IH]; [reflexivity |]. cbn. rewrite E, IH. reflexivity.
Qed.

Lemma b64_forall (P : ascii -> Prop) (s : text) :
  (forall c, is_b64_char c = true -> P c) ->
  List.Forall (fun c => is_b64_char c = true) s -> List.Forall P s.
Proof. intros H F. eapply List.Forall_impl; [| exact F]. exact H. Qed.

(** A text of base64 characters goes through [clean_text_output]
    unchanged. *)
Lemma clean_b64_text (s : text) :
  List.Forall (fun c => is_b64_char c = true) s -> clean_text_output s = s.
Proof.
  intros F. unfold clean_text_output. cbv zeta.
  assert (NB : List.Forall (fun x => x <> BQ) s)
    by (apply (b64_forall _ s); [intros c H; apply (b64_char_plain c H) | exact F]).
  assert (NS : List.Forall (fun c => isspace c = false) s)
    by (apply (b64_forall _ s); [intros c H; apply (b64_char_plain c H) | exact F]).
  assert (NN : forall x, In x s -> x <> NL).
  { intros x I. rewrite List.Forall_forall in F.
    apply (b64_char_plain x (F x I)). }
  assert (C : contains fence s = false).
  { rewrite <- (app_nil_r s). unfold fence.
    change (str "```") with (BQ :: str "``").
    rewrite (contains_free _ _ _ NB). reflexivity. }
  rewrite C, (strip_no_space s NS).
  assert (B : startswith [BQ] s = false).
  { destruct NB as [|c s N _]; [reflexivity |]. cbn.
    destruct (ceqb BQ c) eqn:E; [apply ceqb_eq in E; congruence | reflexivity]. }
  rewrite B. cbn [andb].
  rewrite (split_no_separator NL s NN). cbn [List.filter].
  rewrite (strip_no_space s NS).
  destruct s as [|c s]; [reflexivity |].
  cbn [is_empty negb map join]. apply (strip_no_space _ NS).
Qed.

(** The texts that the base64 normalizer leaves unchanged: those made of
    base64 characters whose length is a multiple of 4. *)
Lemma fix_base64_padding_fixed (s : text) :
  List.Forall (fun c => is_b64_char c = true) s ->
  List.length s mod 4 = 0 ->
  fix_base64_padding s = s.
Proof.
  intros F L. unfold fix_base64_padding. cbv zeta.
  rewrite (clean_b64_text s F).
  rewrite strip_no_space
    by (apply (b64_forall _ s); [intros c H; apply (b64_char_plain c H) | exact F]).
  rewrite (remove_absent NL)
    by (apply (b64_forall _ s); [intros c H; apply (b64_char_plain c H) | exact F]).
  rewrite (remove_absent CR)
    by (apply (b64_forall _ s); [intros c H; apply (b64_char_plain c H) | exact F]).
  rewrite (remove_absent DQ)
    by (apply (b64_forall _ s); [intros c H; apply (b64_char_plain c H) | exact F]).
  rewrite (remove_absent SQ)
    by (apply (b64_forall _ s); [intros c H; apply (b64_char_plain c H) | exact F]).
  rewrite filter_non_b64, (filter_kept _ s F), L. reflexivity.
Qed.

Lemma fix_base64_padding_shape (s : text) :
  List.Forall (fun c => is_b64_char c = true) (fix_base64_padding s)
  /\ List.length (fix_base64_padding s) mod 4 = 0.
Proof.
  rewrite fix_base64_padding_eq. split.
  - apply List.Forall_app. split.
    + apply List.Forall_forall. intros c H. apply List.filter_In in H. apply H.
    + apply List.Forall_forall. intros c H.
      apply List.repeat_spec in H. subst c. reflexivity.
  - rewrite List.length_app. unfold times. rewrite List.repeat_length.
    apply padded_length.
Qed.

Lemma fix_base64_padding_twice (s : text) :
  fix_base64_padding (fix_base64_padding s) = fix_base64_padding s.
Proof.
  destruct (fix_base64_padding_shape s) as [F L].
  apply fix_base64_padding_fixed; assumption.
Qed.

(** The base64 normalizer is idempotent, and it leaves unchanged exactly
    the texts made of base64 characters whose length is a multiple of
    4. *)
Theorem fix_base64_padding_idempotent (s : text) :
  fix_base64_padding (fix_base64_padding s) = fix_base64_padding s
  /\ (fix_base64_padding s = s
      <-> List.Forall (fun c => is_b64_char c = true) s
          /\ List.length s mod 4 = 0).
Proof.
  destruct (fix_base64_padding_shape s) as [F L].
  split; [apply fix_base64_padding_twice |].
  split.
  - intros E. rewrite E in F, L. split; assumption.
  - intros [F' L']. apply fix_base64_padding_fixed; assumption.
Qed.

Section Decoding.

Variable env : Env.

Lemma decode_fold (b64_list : list text) (decoded : list text) :
  fold_left (DataUtils.decode_entry env) b64_list decoded
  = decoded ++ DataUtils.decode_base64_list env b64_list.
Proof.
  unfold DataUtils.decode_base64_list.
  revert decoded. induction b64_list as [|b l IH]; intros decoded; cbn [fold_left].
  - symmetry. apply app_nil_r.
  - rewrite IH, (IH (DataUtils.decode_entry env [] b)).
    unfold DataUtils.decode_entry.
    destruct (b64decode env _); cbn [app]; [rewrite <- app_assoc |]; reflexivity.
Qed.

Lemma decode_cons (b : text) (l : list text) :
  DataUtils.decode_base64_list env (b :: l)
  = match b64decode env (fix_base64_padding b) with
    | Ok content => [content]
    | Raise _ => []
    end ++ DataUtils.decode_base64_list env l.
Proof.
  unfold DataUtils.decode_base64_list at 1. cbn [fold_left].
  rewrite decode_fold. unfold DataUtils.decode_entry.
  destruct (b64decode env _); reflexivity.
Qed.

Lemma decode_length (b64_list : list text) :
  List.length (DataUtils.decode_base64_list env b64_list)
  = List.length (List.filter (decodable env) b64_list).
Proof.
  induction b64_list as [|b l IH]; [reflexivity |].
  rewrite decode_cons, List.length_app, IH. cbn [List.filter].
  unfold decodable. destruct (b64decode env _); reflexivity.
Qed.

Lemma decode_in (b64_list : list text) (content : text) :
  In content (DataUtils.decode_base64_list env b64_list)
  <-> exists b, In b b64_list
                /\ b64decode env (fix_base64_padding b) = Ok content.
Proof.
  induction b64_list as [|b l IH].
  - split; [intros [] | intros [b [[] _]]].
  - rewrite decode_cons, List.in_app_iff, IH. split.
    + intros [I | [b' [I' E']]].
      * exists b. split; [left; reflexivity |].
        destruct (b64decode env _) as [c | e]; [| destruct I].
        destruct I as [<- | []]. reflexivity.
      * exists b'. split; [right; exact I' | exact E'].
    + intros [b' [[<- | I'] E']].
      * left. rewrite E'. left. reflexivity.
      * right. exists b'. split; assumption.
Qed.

(** The decoded list has one content for every entry whose normalized
    form decodes, in the order of the entries; the other entries are
    skipped, so the list is never longer than the input and is as long
    exactly when every entry decodes.  Normalizing the entries beforehand
    changes nothing. *)
Theorem decode_base64_list_spec (b64_list : list text) :
  List.length (DataUtils.decode_base64_list env b64_list)
  = List.length (List.filter (decodable env) b64_list)
  /\ List.length (DataUtils.decode_base64_list env b64_list)
     <= List.length b64_list
  /\ (List.length (DataUtils.decode_base64_list env b64_list)
      = List.length b64_list
      <-> forall b, In b b64_list -> decodable env b = true)
  /\ (forall content,
        In content (DataUtils.decode_base64_list env b64_list)
        <-> exists b, In b b64_list
                      /\ b64decode env (fix_base64_padding b) = Ok content)
  /\ (forall more,
        DataUtils.decode_base64_list env (b64_list ++ more)
        = DataUtils.decode_base64_list env b64_list
          ++ DataUtils.decode_base64_list env more)
  /\ DataUtils.decode_base64_list env (map fix_base64_padding b64_list)
     = DataUtils.decode_base64_list env b64_list.
Proof.
  split; [apply decode_length |].
  split; [rewrite decode_length; apply List.filter_length_le |].
  split; [| split; [apply decode_in | split]].
  - rewrite decode_length. split.
    + intros E b I. exact (filter_all _ _ E b I).
    + intros A. rewrite filter_kept; [reflexivity |].
      apply List.Forall_forall. exact A.
  - intros more. unfold DataUtils.decode_base64_list at 1.
    rewrite List.fold_left_app. fold (DataUtils.decode_base64_list env b64_list).
    apply decode_fold.
  - induction b64_list as [|b l IH]; [reflexivity |].
    cbn [map]. rewrite !decode_cons, IH.
    rewrite fix_base64_padding_twice. reflexivity.
Qed.

End Decoding.

End TextUtilities.
(** * The client of the model under test *)

Section Client.

Import LLMClient.

Variable py_repr : text -> text.
Variable create : nat -> text -> outcome (option text).

(** A call of [generate_rule] returns: it sends between one and four
    requests, and the delays it sleeps are the first ones of 1, 2 and 4
    seconds, one before each request but the first; so it sleeps at most
    7 seconds. *)
Theorem generate_rule_budget (challenge : Challenge) (w : world) :
  exists result w',
    generate_rule py_repr create challenge w = Some (result, w')
    /\ requests w < requests w' <= requests w + 4
    /\ slept w' = slept w
                  ++ firstn (requests w' - requests w - 1) [1; 2; 4]%Q
    /\ (total_delay (firstn (requests w' - requests w - 1) [1; 2; 4]%Q) <= 7)%Q.
Proof.
  unfold generate_rule, max_retries. cbn [generate_rule_from].
  set (prompt := format_challenge_prompt py_repr challenge).
  destruct (create (requests w) prompt) as [c0 | e0].
  { eexists _, _. split; [reflexivity |]. cbn [requests slept].
    replace (S (requests w) - requests w - 1) with 0 by lia.
    cbn. rewrite app_nil_r. repeat split; try lia. discriminate. }
  cbn [Nat.ltb Nat.leb max_retries requests slept].
  destruct (create (S (requests w)) prompt) as [c1 | e1].
  { eexists _, _. split; [reflexivity |]. cbn [requests slept].
    replace (S (S (requests w)) - requests w - 1) with 1 by lia.
    cbn. repeat split; try lia. discriminate. }
  destruct (create (S (S (requests w))) prompt) as [c2 | e2].
  { eexists _, _. split; [reflexivity |]. cbn [requests slept].
    replace (S (S (S (requests w))) - requests w - 1) with 2 by lia.
    cbn. rewrite <- app_assoc. repeat split; try lia. discriminate. }
  destruct (create (S (S (S (requests w)))) prompt) as [c3 | e3].
  { eexists _, _. split; [reflexivity |]. cbn [requests slept].
    replace (S (S (S (S (requests w)))) - requests w - 1) with 3 by lia.
    cbn. rewrite <- !app_assoc. repeat split; try lia. discriminate. }
  eexists _, _. split; [reflexivity |]. cbn [requests slept].
  replace (S (S (S (S (requests w)))) - requests w - 1) with 3 by lia.
  cbn. rewrite <- !app_assoc. repeat split; try lia. discriminate.
Qed.

Lemma attempt_positions (n : nat) :
  n + 0 = n /\ n + 1 = S n /\ n + 2 = S (S n) /\ n + 3 = S (S (S n)).
Proof. lia. Qed.

(** [generate_rule] returns the content of the first request that
    succeeds, the empty text when that content is [None], after sleeping
    1, 2 and 4 seconds before the second, third and fourth request; when
    the four requests fail it raises an exception whose text ends with
    the message of the last failure. *)
Theorem generate_rule_outcome (challenge : Challenge) (w : world) :
  (forall k content,
      k <= 3 ->
      (forall j, j < k ->
         exists e, create (requests w + j)
                          (format_challenge_prompt py_repr challenge) = Raise e) ->
      create (requests w + k) (format_challenge_prompt py_repr challenge)
      = Ok content ->
      generate_rule py_repr create challenge w
      = Some (Ok (default [] content),
              mkWorld (requests w + k + 1)
                      (slept w ++ firstn k [1; 2; 4]%Q)))
  /\ (forall e,
        (forall j, j < 3 ->
           exists e', create (requests w + j)
                             (format_challenge_prompt py_repr challenge)
                      = Raise e') ->
        create (requests w + 3) (format_challenge_prompt py_repr challenge)
        = Raise e ->
        generate_rule py_repr create challenge w
        = Some (Raise (str "Failed to generate rule after 3 retries: " ++ e),
                mkWorld (requests w + 4) (slept w ++ [1; 2; 4]%Q))).
Proof.
  destruct (attempt_positions (requests w)) as [P0 [P1 [P2 P3]]].
  unfold generate_rule, max_retries. cbn [generate_rule_from].
  set (prompt := format_challenge_prompt py_repr challenge).
  split.
  - intros k content K F S.
    destruct k as [|[|[|[|k]]]]; [| | | | lia].
    + rewrite P0 in S. rewrite S. cbn. rewrite app_nil_r.
      repeat f_equal. lia.
    + destruct (F 0 ltac:(lia)) as [e0 E0]. rewrite P0 in E0.
      rewrite P1 in S. rewrite E0. cbn [Nat.ltb Nat.leb max_retries requests slept].
      rewrite S. cbn. repeat f_equal. lia.
    + destruct (F 0 ltac:(lia)) as [e0 E0]. rewrite P0 in E0.
      destruct (F 1 ltac:(lia)) as [e1 E1]. rewrite P1 in E1.
      rewrite P2 in S. rewrite E0. cbn [Nat.ltb Nat.leb max_retries requests slept].
      rewrite E1, S. cbn. rewrite <- app_assoc. repeat f_equal. lia.
    + destruct (F 0 ltac:(lia)) as [e0 E0]. rewrite P0 in E0.
      destruct (F 1 ltac:(lia)) as [e1 E1]. rewrite P1 in E1.
      destruct (F 2 ltac:(lia)) as [e2 E2]. rewrite P2 in E2.
      rewrite P3 in S. rewrite E0. cbn [Nat.ltb Nat.leb max_retries requests slept].
      rewrite E1, E2, S. cbn. rewrite <- !app_assoc. repeat f_equal. lia.
  - intros e F S.
    destruct (F 0 ltac:(lia)) as [e0 E0]. rewrite P0 in E0.
    destruct (F 1 ltac:(lia)) as [e1 E1]. rewrite P1 in E1.
    destruct (F 2 ltac:(lia)) as [e2 E2]. rewrite P2 in E2.
    rewrite P3 in S. rewrite E0. cbn [Nat.ltb Nat.leb max_retries requests slept].
    rewrite E1, E2, S. cbn. rewrite <- !app_assoc. repeat f_equal. lia.
Qed.

End Client.

(** The service that fails twice: the third request answers, after 1 and
    2 seconds of sleep. *)
Lemma generate_rule_outcome_witness :
  LLMClient.generate_rule (fun s => s) flaky_service example_challenge
    (LLMClient.mkWorld 0 [])
  = Some (Ok (str "rule a { condition: true }"),
          LLMClient.mkWorld 3 [1; 2]%Q).
Proof.
  refine (proj1 (generate_rule_outcome (fun s => s) flaky_service
                   example_challenge (LLMClient.mkWorld 0 []))
            2 (Some (str "rule a { condition: true }")) _ _ eq_refl).
  - lia.
  - intros j J. exists (str "timeout").
    destruct j as [|[|j]]; [reflexivity | reflexivity | lia].
Defined.
(** * The summary of a run *)

Section Summary.

Import Benchmark BenchmarkRun.

Variable env : Env.
Variable prompt : Challenge -> text -> text.
Variable judge : bool.

Lemma count_step (c : Challenge) (cs : list Challenge) (t : tally) :
  value (fold_logged (count_challenge env prompt judge) (c :: cs) t)
  = value (fold_logged (count_challenge env prompt judge) cs
             (mkTally
                (model_results t ++ [value (_evaluate_challenge env prompt judge c)])
                (total t + 1)
                (if valid_syntax (value (_evaluate_challenge env prompt judge c))
                 then successful t + 1 else successful t)
                (total_score t
                 + score (value (_evaluate_challenge env prompt judge c)))%Q)).
Proof.
  cbn [fold_logged]. rewrite value_bind. unfold count_challenge at 2.
  rewrite value_bind. reflexivity.
Qed.

(** The invariant of the loop over the challenges. *)
Lemma count_challenges_tally (challenges : list Challenge) (t : tally) :
  let t' := value (fold_logged (count_challenge env prompt judge) challenges t) in
  model_results t'
  = model_results t
    ++ map (fun c => value (_evaluate_challenge env prompt judge c)) challenges
  /\ total t' = total t + List.length challenges
  /\ successful t'
     = successful t
       + List.length
           (List.filter valid_syntax
              (map (fun c => value (_evaluate_challenge env prompt judge c))
                   challenges))
  /\ (total_score t'
      == total_score t
         + sum_of_scores
             (map (fun c => value (_evaluate_challenge env prompt judge c))
                  challenges))%Q.
Proof.
  cbv zeta. revert t. induction challenges as [|c cs IH]; intros t.
  - cbn. rewrite app_nil_r. repeat split; try lia. ring.
  - rewrite count_step.
    set (r := value (_evaluate_challenge env prompt judge c)).
    destruct (IH (mkTally (model_results t ++ [r]) (total t + 1)
                          (if valid_syntax r then successful t + 1 else successful t)
                          (total_score t + score r)%Q))
      as [M [T [S Q]]].
    cbn [model_results total successful total_score] in M, T, S, Q.
    rewrite M, T, S, Q. cbn [map List.filter List.length sum_of_scores fold_right].
    fold r. rewrite <- app_assoc.
    split; [reflexivity |]. split; [lia |]. split.
    + destruct (valid_syntax r); cbn [List.length]; lia.
    + fold (sum_of_scores (map (fun c => value (_evaluate_challenge env prompt judge c)) cs)).
      ring.
Qed.

Lemma count_levels_tally (levels : list (text * list Challenge)) (t : tally) :
  let all := concat (map snd levels) in
  let t' := value (fold_logged
                     (fun t level => fold_logged (count_challenge env prompt judge)
                                                 (snd level) t)
                     levels t) in
  model_results t'
  = model_results t
    ++ map (fun c => value (_evaluate_challenge env prompt judge c)) all
  /\ total t' = total t + List.length all
  /\ successful t'
     = successful t
       + List.length
           (List.filter valid_syntax
              (map (fun c => value (_evaluate_challenge env prompt judge c)) all))
  /\ (total_score t'
      == total_score t
         + sum_of_scores
             (map (fun c => value (_evaluate_challenge env prompt judge c)) all))%Q.
Proof.
  cbv zeta. revert t. induction levels as [|[name cs] levels IH]; intros t.
  - cbn. rewrite app_nil_r. repeat split; try lia. ring.
  - cbn [fold_logged]. rewrite value_bind. cbn [snd map concat].
    destruct (count_challenges_tally cs t) as [M1 [T1 [S1 Q1]]].
    destruct (IH (value (fold_logged (count_challenge env prompt judge) cs t)))
      as [M2 [T2 [S2 Q2]]].
    rewrite M2, T2, S2, Q2, M1, T1, S1, Q1.
    rewrite List.map_app, List.filter_app, !List.length_app, <- app_assoc.
    split; [reflexivity |]. split; [lia |]. split; [lia |].
    assert (A : forall a b, (sum_of_scores (a ++ b)
                             == sum_of_scores a + sum_of_scores b)%Q).
    { intros a b. unfold sum_of_scores.
      induction a as [|x a IHa]; cbn [app fold_right].
      - ring.
      - rewrite IHa. ring. }
    rewrite A. ring.
Qed.

End Summary.

Section RunSummary.

Import Benchmark BenchmarkRun.

Variable env : Env.
Variable prompt : Challenge -> text -> text.

Lemma sum_of_scores_range (results : list RuleResult) :
  (forall r, In r results -> (0 <= score r <= 1)%Q) ->
  (0 <= sum_of_scores results
   <= inject_Z (Z.of_nat (List.length results)))%Q.
Proof.
  induction results as [|r rs IH]; intros H.
  - cbn. split; discriminate.
  - destruct (H r (or_introl eq_refl)) as [L U].
    destruct (IH (fun x I => H x (or_intror I))) as [L' U'].
    cbn [sum_of_scores fold_right List.length].
    fold (sum_of_scores rs).
    rewrite Nat2Z.inj_succ. unfold Z.succ. rewrite inject_Z_plus.
    change (inject_Z 1) with 1%Q. split; lra.
Qed.


End RunSummary.
(** * What the matcher reads *)

Section Spans.

Import Re.

Lemma covers_ahead (r : re) : forall p q, covers r p q -> ahead p q.
Proof.
  induction r as [| f | a IHa b IHb | a IHa b IHb | g a IHa | n a IHa | ml | ml | a IHa];
    intros p q S; cbn [covers] in S.
  - subst q. apply ahead_refl.
  - destruct S as [c [rest [A [_ ->]]]]. apply ahead_step, A.
  - destruct S as [m [S1 S2]]. eapply ahead_trans; [apply IHa | apply IHb]; eassumption.
  - destruct S as [S | S]; [apply IHa | apply IHb]; exact S.
  - induction S as [p | p m q S1 _ IH]; [apply ahead_refl |].
    eapply ahead_trans; [apply IHa; exact S1 | exact IH].
  - apply IHa, S.
  - destruct S as [_ ->]. apply ahead_refl.
  - destruct S as [_ ->]. apply ahead_refl.
  - subst q. apply ahead_refl.
Qed.

(** A result of a regular expression without groups is a result of its
    continuation at a position that the expression covers, with the
    captures unchanged. *)
Lemma run_groupless (r : re) :
  groupless r ->
  forall k p cs x,
    run r k p cs = Some x ->
    exists q, covers r p q /\ k q cs = Some x.
Proof.
  induction r as [| f | a IHa b IHb | a IHa b IHb | g a IHa | n a IHa | ml | ml | a IHa];
    intros G k p cs x H; cbn [groupless] in G.
  - exists p. split; [reflexivity | exact H].
  - cbn [run] in H. destruct (after p) as [|c rest] eqn:E; [discriminate |].
    destruct (f c) eqn:F; [| discriminate].
    eexists. split; [| exact H]. cbn [covers]. exists c, rest. repeat split; assumption.
  - destruct G as [Ga Gb]. cbn [run] in H.
    apply (IHa Ga) in H. destruct H as [m [S1 H]].
    apply (IHb Gb) in H. destruct H as [q [S2 H]].
    exists q. split; [exists m; split; assumption | exact H].
  - destruct G as [Ga Gb]. cbn [run] in H. destruct (run a k p cs) eqn:E.
    + injection H as <-. apply (IHa Ga) in E. destruct E as [q [S E]].
      exists q. split; [left; exact S | exact E].
    + apply (IHb Gb) in H. destruct H as [q [S H]].
      exists q. split; [right; exact S | exact H].
  - rewrite run_star in H.
    remember (S (List.length (after p))) as fuel eqn:F. clear F.
    revert p cs x H. induction fuel as [|fuel IHf]; intros p cs x H.
    + exists p. split; [constructor | exact H].
    + cbn [star_loop] in H. cbv zeta in H.
      assert (B : forall y,
                 run a (fun p' cs' =>
                          if List.length (after p') <? List.length (after p)
                          then star_loop g a k fuel p' cs' else None) p cs = Some y ->
                 exists q, covers (Star g a) p q /\ k q cs = Some y).
      { intros y E. apply (IHa G) in E. destruct E as [m [S1 E]].
        destruct (List.length (after m) <? List.length (after p)); [| discriminate].
        apply IHf in E. destruct E as [q [S2 E]].
        exists q. split; [| exact E]. cbn [covers] in *.
        econstructor 2; eassumption. }
      destruct g.
      * destruct (run a _ p cs) eqn:E.
        -- injection H as <-. apply B. reflexivity.
        -- exists p. split; [constructor | exact H].
      * destruct (k p cs) eqn:E.
        -- injection H as <-. exists p. split; [constructor | exact E].
        -- apply B. exact H.
  - contradiction.
  - cbn [run] in H. destruct (at_bol ml p) eqn:E; [| discriminate].
    exists p. split; [split; [exact E | reflexivity] | exact H].
  - cbn [run] in H. destruct (at_eol ml p) eqn:E; [| discriminate].
    exists p. split; [split; [exact E | reflexivity] | exact H].
  - cbn [run] in H. destruct (run a _ p cs); [discriminate |].
    exists p. split; [reflexivity | exact H].
Qed.

(** The text between two positions, one ahead of the other. *)
Lemma ahead_consumed (p q : pos) :
  ahead p q -> after p = consumed p q ++ after q.
Proof.
  intros [w [A _]]. unfold consumed. rewrite A, List.length_app.
  replace (List.length w + List.length (after q) - List.length (after q))
    with (List.length w) by lia.
  rewrite List.firstn_app, List.firstn_all, Nat.sub_diag. cbn.
  rewrite app_nil_r. reflexivity.
Qed.

Lemma consumed_trans (p m q : pos) :
  ahead p m -> ahead m q -> consumed p q = consumed p m ++ consumed m q.
Proof.
  intros A B.
  pose proof (ahead_consumed p m A) as E1.
  pose proof (ahead_consumed m q B) as E2.
  pose proof (ahead_consumed p q (ahead_trans p m q A B)) as E3.
  assert (E : (consumed p m ++ consumed m q) ++ after q
              = consumed p q ++ after q).
  { rewrite <- app_assoc, <- E2, <- E1. exact E3. }
  symmetry. eapply List.app_inv_tail. exact E.
Qed.

End Spans.

Section QuoteRepair.

Import Re YaraExtractor.

Lemma consumed_step (p : pos) (c : ascii) (rest : text) :
  after p = c :: rest -> consumed p (Pos (c :: before p) rest) = [c].
Proof.
  intros E. unfold consumed. rewrite E. cbn [after List.length].
  replace (S (List.length rest) - List.length rest) with 1 by lia.
  reflexivity.
Qed.

Lemma covers_lit (c : ascii) (p q : pos) :
  covers (lit c) p q -> ahead p q /\ consumed p q = [c].
Proof.
  intros S. split; [apply (covers_ahead _ _ _ S) |].
  destruct S as [x [rest [A [E ->]]]]. apply ceqb_eq in E. subst x.
  apply consumed_step, A.
Qed.

(** A replacement that writes back what was matched changes nothing. *)
Lemma sub_identity (r : re) (tpl : list piece) :
  (forall p q cs, match_at r p = Some (q, cs) ->
     ahead p q /\ consumed p q <> [] /\ expand tpl cs = consumed p q) ->
  forall s pre, sub_from r tpl 0 pre s = s.
Proof.
  intros H s.
  induction s as [s IH] using (induction_ltof1 _ (@List.length ascii)).
  unfold ltof in IH. intros pre. destruct s as [|c rest].
  - cbn [sub_from]. destruct (match_at r (Pos pre [])) as [[q cs] |] eqn:M;
      [| reflexivity].
    destruct (H _ _ _ M) as [A [N _]]. exfalso. apply N.
    apply ahead_consumed in A. cbn [after] in A.
    destruct (consumed (Pos pre []) q); [reflexivity | discriminate A].
  - cbn [sub_from]. destruct (match_at r (Pos pre (c :: rest))) as [[q cs] |] eqn:M.
    + destruct (H _ _ _ M) as [A [N E]]. rewrite E.
      pose proof (ahead_consumed _ _ A) as C. cbn [after] in C.
      destruct (consumed (Pos pre (c :: rest)) q) as [|x w] eqn:W;
        [contradiction |].
      cbn [app] in C. injection C as <- C. cbn [List.length app]. f_equal.
      rewrite C, sub_from_skip. f_equal. apply IH.
      rewrite ?C. cbn [List.length]. rewrite List.length_app. lia.
    + f_equal. apply IH. cbn. lia.
Qed.

Lemma run_seq_eq (a b : re) k p cs :
  run (Seq a b) k p cs = run a (fun p' cs' => run b k p' cs') p cs.
Proof. reflexivity. Qed.

Lemma run_group_eq (n : nat) (a : re) k p cs :
  run (Group n a) k p cs
  = run a (fun p' cs' => k p' ((n, consumed p p') :: cs')) p cs.
Proof. reflexivity. Qed.

Lemma quoted_assign_match (p q : pos) (cs : caps) :
  match_at QUOTED_ASSIGN p = Some (q, cs) ->
  ahead p q /\ consumed p q <> []
  /\ expand [Ref 1; Lit [DQ]; Ref 2; Lit [DQ]] cs = consumed p q.
Proof.
  unfold match_at, QUOTED_ASSIGN.
  set (A := seqs [lit "$"%char; plus true word; Star true space;
                  lit "="%char; Star true space]).
  set (B := Star true (none_of [DQ])).
  assert (GA : groupless A) by (subst A; cbn; tauto).
  assert (GB : groupless B) by exact Logic.I.
  cbn [seqs]. intros H.
  rewrite run_seq_eq, run_group_eq in H.
  apply (run_groupless A GA) in H. destruct H as [p1 [S1 H]]. cbv beta in H.
  rewrite run_seq_eq in H.
  apply (run_groupless (lit DQ) Logic.I) in H. destruct H as [p2 [S2 H]].
  cbv beta in H. rewrite run_seq_eq, run_group_eq in H.
  apply (run_groupless B GB) in H. destruct H as [p3 [S3 H]]. cbv beta in H.
  apply (run_groupless (lit DQ) Logic.I) in H. destruct H as [q' [S4 H]].
  cbv beta in H. injection H as <- <-.
  apply covers_ahead in S1 as A1. apply covers_lit in S2. destruct S2 as [A2 C2].
  apply covers_ahead in S3 as A3. apply covers_lit in S4. destruct S4 as [A4 C4].
  assert (C : consumed p q'
              = consumed p p1 ++ [DQ] ++ consumed p2 p3 ++ [DQ]).
  { rewrite (consumed_trans p p1 q' A1)
      by (eapply ahead_trans; [exact A2 |]; eapply ahead_trans; eassumption).
    rewrite (consumed_trans p1 p2 q' A2) by (eapply ahead_trans; eassumption).
    rewrite (consumed_trans p2 p3 q' A3 A4), C2, C4. reflexivity. }
  split; [| split].
  - eapply ahead_trans; [exact A1 |]. eapply ahead_trans; [exact A2 |].
    eapply ahead_trans; eassumption.
  - rewrite C. destruct (consumed p p1); discriminate.
  - rewrite C. cbn. rewrite ?app_nil_r. reflexivity.
Qed.

(** The repair of the quotes of string definitions writes back what it
    matched: it changes no rule, and the repairs of a rule are those of
    the other steps. *)
Theorem quote_repair_changes_nothing (rule : text) :
  sub QUOTED_ASSIGN [Ref 1; Lit [DQ]; Ref 2; Lit [DQ]] rule = rule
  /\ _fix_common_syntax_issues rule
     = _normalize_section_order
         (sub TIGHT_ASSIGN [Lit (str "$"); Ref 1; Lit (str " =")]
            (sub SPACED_SECTION [Ref 1; Lit (str ":")]
               (sub BARE_SECTION [Ref 1; Lit (str ":")]
                  (sub RULE_DECLARATION
                     [Lit (str "rule "); Ref 1; Lit (str " {")] rule)))).
Proof.
  assert (I : forall s, sub QUOTED_ASSIGN [Ref 1; Lit [DQ]; Ref 2; Lit [DQ]] s = s).
  { intros s. unfold sub. apply sub_identity. apply quoted_assign_match. }
  split; [apply I |].
  unfold _fix_common_syntax_issues. rewrite I. reflexivity.
Qed.

End QuoteRepair.

Section AcceptedStructure.

Import Re YaraExtractor.

Lemma covers_seq (a b : re) (p q : pos) :
  covers (Seq a b) p q -> exists m, covers a p m /\ covers b m q.
Proof. intros H. exact H. Qed.

Lemma covers_chr (f : ascii -> bool) (p q : pos) :
  covers (Chr f) p q -> exists c, after p = c :: after q /\ f c = true.
Proof. intros [c [rest [A [F ->]]]]. exists c. split; assumption. Qed.

Lemma covers_star_chr (g : bool) (f : ascii -> bool) (p q : pos) :
  covers (Star g (Chr f)) p q ->
  exists w, after p = w ++ after q /\ List.Forall (fun c => f c = true) w.
Proof.
  cbn [covers]. intros S. induction S as [p | p m q S1 _ IH].
  - exists []. split; [reflexivity | constructor].
  - destruct IH as [w [A F]].
    destruct (covers_chr f p m S1) as [c [E Fc]].
    exists (c :: w). split; [rewrite E, A; reflexivity | constructor; assumption].
Qed.

Lemma covers_plus_chr (g : bool) (f : ascii -> bool) (p q : pos) :
  covers (plus g (Chr f)) p q ->
  exists w, after p = w ++ after q /\ w <> []
            /\ List.Forall (fun c => f c = true) w.
Proof.
  unfold plus. intros S. apply covers_seq in S. destruct S as [m [S1 S2]].
  destruct (covers_chr f p m S1) as [c [E Fc]].
  destruct (covers_star_chr g f m q S2) as [w [A F]].
  exists (c :: w). split; [rewrite E, A; reflexivity |].
  split; [discriminate | constructor; assumption].
Qed.

Lemma covers_literal (l : text) (p q : pos) :
  covers (seqs (map lit_i l)) p q ->
  exists w, after p = w ++ after q /\ lower w = lower l.
Proof.
  revert p. induction l as [|c l IH]; intros p S.
  - cbn in S. subst q. exists []. split; reflexivity.
  - destruct l as [|c' l'].
    + cbn [map seqs] in S. destruct (covers_chr _ p q S) as [x [E F]].
      apply ceqb_eq in F. exists [x]. split; [exact E |].
      cbn. rewrite F. reflexivity.
    + change (seqs (map lit_i (c :: c' :: l')))
        with (Seq (lit_i c) (seqs (map lit_i (c' :: l')))) in S.
      apply covers_seq in S. destruct S as [m [S1 S2]].
      destruct (covers_chr _ p m S1) as [x [E F]]. apply ceqb_eq in F.
      destruct (IH m S2) as [w [A L]].
      exists (x :: w). split; [rewrite E, A; reflexivity |].
      unfold lower in *. cbn [map] in *. rewrite F, L. reflexivity.
Qed.

Lemma ahead_text (p q : pos) : ahead p q -> exists w, after p = w ++ after q.
Proof. intros [w [A _]]. exists w. exact A. Qed.

(** A successful search has a match at some position of the text. *)
Lemma search_from_position (r : re) (s : text) :
  forall pre found,
    search_from r pre s = Some found ->
    exists skipped rest q cs,
      s = skipped ++ rest
      /\ match_at r (Pos (rev skipped ++ pre) rest) = Some (q, cs).
Proof.
  induction s as [|c s IH]; intros pre found H; cbn [search_from] in H.
  - destruct (match_at r (Pos pre [])) as [[q cs] |] eqn:M; [| discriminate].
    exists [], [], q, cs. split; [reflexivity | exact M].
  - destruct (match_at r (Pos pre (c :: s))) as [[q cs] |] eqn:M.
    + exists [], (c :: s), q, cs. split; [reflexivity | exact M].
    + destruct (IH _ _ H) as [skipped [rest [q [cs [E M']]]]].
      exists (c :: skipped), rest, q, cs. split; [rewrite E; reflexivity |].
      cbn [rev]. rewrite <- app_assoc. exact M'.
Qed.

Lemma valid_rule_structure_groupless : groupless VALID_RULE_STRUCTURE.
Proof. cbn. tauto. Qed.


End AcceptedStructure.

(** * The section ordering *)

Section SectionOrder.

Import YaraExtractor.

Lemma perm_tail (a b : list text) (l : text) :
  Permutation (a ++ [l] ++ b) ((a ++ b) ++ [l]).
Proof.
  rewrite <- app_assoc. apply Permutation_app_head, Permutation_app_comm.
Qed.

Lemma perm_header (h m s c : list text) (l : text) :
  Permutation ((h ++ [l]) ++ m ++ s ++ c) ((h ++ m ++ s ++ c) ++ [l]).
Proof. rewrite <- app_assoc. apply perm_tail. Qed.

Lemma perm_meta (h m s c : list text) (l : text) :
  Permutation (h ++ (m ++ [l]) ++ s ++ c) ((h ++ m ++ s ++ c) ++ [l]).
Proof.
  rewrite <- !app_assoc. do 2 apply Permutation_app_head.
  rewrite (app_assoc s c [l]). apply Permutation_app_comm.
Qed.

Lemma perm_strings (h m s c : list text) (l : text) :
  Permutation (h ++ m ++ (s ++ [l]) ++ c) ((h ++ m ++ s ++ c) ++ [l]).
Proof.
  rewrite <- !app_assoc. do 3 apply Permutation_app_head.
  apply Permutation_app_comm.
Qed.

Lemma perm_condition (h m s c : list text) (l : text) :
  Permutation (h ++ m ++ s ++ c ++ [l]) ((h ++ m ++ s ++ c) ++ [l]).
Proof. rewrite <- !app_assoc. reflexivity. Qed.

(** The loop gathers lines of its input, each at most once. *)
Lemma order_lines_gathers (lines : list text) :
  forall st,
    exists kept,
      sublist kept lines
      /\ Permutation (ordered_lines (order_lines st lines))
                     (ordered_lines st ++ kept).
Proof.
  induction lines as [|line rest IH]; intros st.
  - exists []. split; [constructor | rewrite app_nil_r; reflexivity].
  - assert (G : forall st1,
               Permutation (ordered_lines st1) (ordered_lines st ++ [line]) ->
               exists kept,
                 sublist kept (line :: rest)
                 /\ Permutation (ordered_lines (order_lines st1 rest))
                                (ordered_lines st ++ kept)).
    { intros st1 P. destruct (IH st1) as [kept [S Q]].
      exists (line :: kept). split; [apply sublist_skip, S |].
      rewrite Q, P, <- app_assoc. reflexivity. }
    assert (E : forall st1,
               Permutation (ordered_lines st1) (ordered_lines st ++ [line]) ->
               exists kept,
                 sublist kept (line :: rest)
                 /\ Permutation (ordered_lines st1) (ordered_lines st ++ kept)).
    { intros st1 P. exists [line]. split; [| exact P].
      apply sublist_skip, sublist_nil_l. }
    cbn [order_lines]. cbv zeta.
    destruct (startswith (str "rule ") (strip line) && contains (str "{") (strip line)).
    { apply G. unfold ordered_lines. cbn. apply perm_header. }
    destruct (is_empty (rule_header st) && is_empty (strip line)).
    { destruct (IH st) as [kept [S Q]]. exists kept.
      split; [apply sublist_cons, S | exact Q]. }
    destruct (is_empty (rule_header st)).
    { apply G. unfold ordered_lines. cbn. apply perm_header. }
    destruct ((_ <=? 0)%Z && contains (str "}") line).
    { apply E. unfold ordered_lines. cbn. apply perm_condition. }
    destruct (startswith (str "meta:") (strip line)).
    { apply G. unfold ordered_lines. cbn. apply perm_meta. }
    destruct (startswith (str "strings:") (strip line)).
    { apply G. unfold ordered_lines. cbn. apply perm_strings. }
    destruct (startswith (str "condition:") (strip line)).
    { apply G. unfold ordered_lines. cbn. apply perm_condition. }
    apply G. destruct (current_section st) as [[| |] |]; unfold ordered_lines; cbn.
    + apply perm_meta.
    + apply perm_strings.
    + apply perm_condition.
    + apply perm_header.
Qed.

(** The section ordering returns a rule with a brace inside a string or
    a regular expression as it is; of any other rule it returns lines of
    the rule, each at most once, joined by newlines: it moves lines and
    drops lines (the blank lines before the rule, the lines after the
    one that closes it), and it writes no line of its own. *)
Theorem section_order_keeps_lines (rule : text) :
  (Re.matches BRACE_IN_LITERAL rule = true ->
   _normalize_section_order rule = rule)
  /\ (Re.matches BRACE_IN_LITERAL rule = false ->
      exists lines kept,
        _normalize_section_order rule = join [NL] lines
        /\ Permutation lines kept
        /\ sublist kept (split NL rule)).
Proof.
  unfold _normalize_section_order. split; intros M; rewrite M; [reflexivity |].
  cbv zeta.
  destruct (order_lines_gathers (split NL rule) (mkOrder [] [] [] [] None 0))
    as [kept [S P]].
  exists (ordered_lines (order_lines (mkOrder [] [] [] [] None 0) (split NL rule))),
    kept.
  split; [reflexivity | split; [exact P | exact S]].
Qed.

End SectionOrder.

(** The misordered rule has no brace inside a string: its strings are
    moved before its condition and the text after its closing brace is
    dropped, and what is returned are lines of the rule. *)
Lemma section_order_keeps_lines_witness :
  YaraExtractor._normalize_section_order misordered_rule
  = join [NL] [str "rule a {"; str "  strings:"; str "    $a = x";
               str "  condition:"; str "    $a"; str "}"]
  /\ exists lines kept,
       YaraExtractor._normalize_section_order misordered_rule = join [NL] lines
       /\ Permutation lines kept
       /\ sublist kept (split NL misordered_rule).
Proof.
  split; [vm_compute; reflexivity |].
  exact (proj2 (section_order_keeps_lines misordered_rule) eq_refl).
Defined.
(** * The manual parser *)

Section ManualParsing.

Import YaraExtractor.

(** The scanner stops just after a closing brace. *)
Lemma scan_stops_at_brace (s : text) :
  forall st i end_pos,
    scan st i s = Some end_pos ->
    exists k, end_pos = i + k + 1 /\ nth_error s k = Some "}"%char.
Proof.
  induction s as [|char rest IH]; intros st i end_pos H; [discriminate H |].
  cbn [scan] in H. cbv zeta in H.
  assert (R : forall st', scan st' (S i) rest = Some end_pos ->
                exists k, end_pos = i + k + 1
                          /\ nth_error (char :: rest) k = Some "}"%char).
  { intros st' E. destruct (IH _ _ _ E) as [k [E1 E2]].
    exists (S k). split; [lia | exact E2]. }
  destruct (escape_next st); [apply (R _ H) |].
  destruct (ceqb char BSL); [apply (R _ H) |].
  destruct (negb _ && negb _); [| apply (R _ H)].
  destruct (ceqb char "{"%char); [apply (R _ H) |].
  destruct (ceqb char "}"%char) eqn:B; [| apply (R _ H)].
  destruct (found_opening st && _); [| apply (R _ H)].
  injection H as <-. exists 0. split; [lia |].
  apply ceqb_eq in B. subst char. reflexivity.
Qed.

Lemma back_over_blanks_le (rev_prefix : text) (n : nat) :
  back_over_blanks rev_prefix n <= n.
Proof.
  revert n. induction rev_prefix as [|c r IH]; intros n; [destruct n; cbn; lia |].
  destruct n as [|n]; cbn; [lia |].
  destruct (ceqb c SP || ceqb c TAB); [| lia].
  specialize (IH n). lia.
Qed.

Lemma find_bound (l x rest : text) :
  exists n, find l (x ++ l ++ rest) = Some n /\ n <= List.length x.
Proof.
  induction x as [|c x IH].
  - cbn [app]. exists 0. split; [| cbn; lia].
    destruct (l ++ rest) eqn:E; cbn [find];
      rewrite <- E, startswith_app; reflexivity.
  - destruct IH as [n [F L]]. cbn [app find].
    destruct (startswith l (c :: x ++ l ++ rest)).
    + exists 0. split; [reflexivity | cbn; lia].
    + rewrite F. exists (S n). split; [reflexivity | cbn; lia].
Qed.

Lemma split_first (c : ascii) (s : text) :
  exists l ls y, split c s = l :: ls /\ s = l ++ y.
Proof.
  induction s as [|a s IH].
  - exists [], [], []. split; reflexivity.
  - cbn [split]. destruct (ceqb c a).
    + exists [], (split c s), (a :: s). split; reflexivity.
    + destruct IH as [l [ls [y [S E]]]]. rewrite S.
      exists (a :: l), ls, y. split; [reflexivity | rewrite E at 1; reflexivity].
Qed.

(** A line of a text is a part of the text. *)
Lemma split_part (c : ascii) (s : text) :
  forall l, In l (split c s) -> exists x y, s = x ++ l ++ y.
Proof.
  induction s as [|a s IH]; intros l I.
  - destruct I as [<- | []]. exists [], []. reflexivity.
  - cbn [split] in I. destruct (ceqb c a).
    + destruct I as [<- | I].
      * exists [], (a :: s). reflexivity.
      * destruct (IH l I) as [x [y E]]. exists (a :: x), y. rewrite E at 1. reflexivity.
    + destruct (split_first c s) as [l0 [ls [y [S E]]]]. rewrite S in I, IH.
      destruct I as [<- | I].
      * exists [], y. rewrite E at 1. reflexivity.
      * destruct (IH l (or_intror I)) as [x [y' E']].
        exists (a :: x), y'. rewrite E' at 1. reflexivity.
Qed.

Lemma import_scan_le (t : text) (bound : nat) (rev_lines : list text) :
  forall start,
    start <= bound ->
    (forall l n, In l rev_lines -> find l t = Some n -> n <= bound) ->
    import_scan t rev_lines start <= bound.
Proof.
  induction rev_lines as [|l r IH]; intros start S H; [exact S |].
  cbn [import_scan]. cbv zeta.
  destruct (startswith (str "import ") (strip l)).
  - apply IH; [| intros l' n I; apply H; right; exact I].
    destruct (find l t) as [n |] eqn:F; [| exact S].
    apply (H l n); [left; reflexivity | exact F].
  - destruct (negb (is_empty (strip l))); [exact S |].
    apply IH; [exact S | intros l' n I; apply H; right; exact I].
Qed.

Lemma line_found_before (t : text) (a : nat) (l : text) (n : nat) :
  In l (split NL (firstn a t)) -> find l t = Some n -> n <= a.
Proof.
  intros I F. destruct (split_part NL _ l I) as [x [y E]].
  assert (T : t = x ++ l ++ (y ++ skipn a t)).
  { rewrite <- (List.firstn_skipn a t) at 1. rewrite E, <- !app_assoc. reflexivity. }
  destruct (find_bound l x (y ++ skipn a t)) as [n' [F' L]].
  rewrite <- T, F in F'. injection F' as <-.
  assert (LX : List.length x <= a).
  { apply (f_equal (@List.length ascii)) in E.
    rewrite List.length_firstn, !List.length_app in E. lia. }
  lia.
Qed.

Lemma firstn_last (t : text) (j : nat) (c : ascii) :
  nth_error t j = Some c -> firstn (S j) t = firstn j t ++ [c].
Proof.
  revert j. induction t as [|x t IH]; intros j E; [destruct j; discriminate E |].
  destruct j as [|j]; cbn in E |- *.
  - injection E as ->. reflexivity.
  - rewrite <- (IH j E). reflexivity.
Qed.

(** What the manual parser returns, when it returns a rule, is a part of
    the text, and it ends with the closing brace at which the scan
    stopped; it returns nothing for a text without the keyword. *)
Theorem manual_parsing_result (t : text) :
  (contains (str "rule ") (lower t) = false ->
   _extract_rule_manual_parsing t = None)
  /\ (forall r, _extract_rule_manual_parsing t = Some r ->
        (exists a b, t = a ++ r ++ b) /\ (exists r', r = r' ++ str "}")).
Proof.
  unfold _extract_rule_manual_parsing. split.
  - intros C. destruct (find (str "rule ") (lower t)) as [n |] eqn:F;
      [| reflexivity].
    exfalso. clear -C F. revert n F. induction (lower t) as [|c s IH]; intros n F.
    + cbn in F. discriminate F.
    + cbn [contains] in C. cbn [find] in F.
      destruct (startswith (str "rule ") (c :: s)); [discriminate C |].
      cbn [orb] in C. destruct (find (str "rule ") s) as [m |]; [| discriminate F].
      apply (IH C m). reflexivity.
  - intros r H.
    destruct (find (str "rule ") (lower t)) as [rule_start |]; [| discriminate H].
    cbv zeta in H.
    set (actual_start := back_over_blanks (rev (firstn rule_start t)) rule_start) in H.
    set (import_start := import_scan t (rev (split NL (firstn actual_start t)))
                                     actual_start) in H.
    destruct (scan scan0 rule_start (skipn rule_start t)) as [end_pos |] eqn:SC;
      [| discriminate H].
    injection H as <-.
    destruct (scan_stops_at_brace _ _ _ _ SC) as [k [E N]].
    rewrite List.nth_error_skipn in N.
    assert (A : actual_start <= rule_start) by apply back_over_blanks_le.
    assert (I : import_start <= actual_start).
    { apply import_scan_le; [lia |]. intros l n IL F.
      apply (line_found_before t actual_start l n); [| exact F].
      apply List.in_rev. exact IL. }
    assert (B : rule_start + k < List.length t).
    { apply List.nth_error_Some. rewrite N. discriminate. }
    unfold slice. split.
    + exists (firstn import_start (firstn end_pos t)), (skipn end_pos t).
      rewrite app_assoc, List.firstn_skipn, List.firstn_skipn. reflexivity.
    + exists (skipn import_start (firstn (rule_start + k) t)).
      replace end_pos with (S (rule_start + k)) by lia.
      rewrite (firstn_last t _ _ N), List.skipn_app.
      replace (import_start - List.length (firstn (rule_start + k) t)) with 0
        by (rewrite List.length_firstn; lia).
      reflexivity.
Qed.

End ManualParsing.

(** The manual parser on the minimal rule followed by a remark. *)
Lemma manual_parsing_result_witness :
  YaraExtractor._extract_rule_manual_parsing
    (str "rule a { condition: true } as asked") = Some (str "rule a { condition: true }")
  /\ exists r', str "rule a { condition: true }" = r' ++ str "}".
Proof.
  split; [reflexivity |].
  exact (proj2 (proj2 (manual_parsing_result
                         (str "rule a { condition: true } as asked"))
                  (str "rule a { condition: true }") eq_refl)).
Defined.
(** * The levels of a run and the synthetic test files *)

Section LevelsOfARun.

Import Levels.

Lemma configured_spec (name : text) (config_levels : list text) :
  configured name config_levels = true <-> In name config_levels.
Proof.
  unfold configured. rewrite List.existsb_exists. split.
  - intros [x [I T]]. apply teqb_eq in T. subst x. exact I.
  - intros I. exists name. split; [exact I | apply teqb_refl].
Qed.

(** The levels of a run are the known levels among the configured ones,
    in the order level1, level2, level3 and each once, whatever the order
    and the repetitions of the configuration; a name that is not a known
    level is ignored.  On the command line, [all] in any case selects the
    three levels, and otherwise the level of number [n] is selected
    exactly when [n], possibly surrounded by white space, is one of the
    comma-separated entries. *)
Theorem levels_of_a_run (config_levels : list text) :
  sublist (_init_levels config_levels) [level1; level2; level3]
  /\ (forall name,
        In name (_init_levels config_levels)
        <-> In name config_levels /\ In name [level1; level2; level3])
  /\ (forall levels,
        lower levels = str "all" ->
        _init_levels (parse_levels levels) = [level1; level2; level3])
  /\ (forall levels n,
        lower levels <> str "all" ->
        In n [str "1"; str "2"; str "3"] ->
        (In (str "level" ++ n) (_init_levels (parse_levels levels))
         <-> exists entry, In entry (split ","%char levels) /\ strip entry = n)).
Proof.
  assert (K : forall c name,
             In name (_init_levels c) <-> In name c /\ In name [level1; level2; level3]).
  { intros c name. unfold _init_levels.
    destruct (configured level1 c) eqn:C1, (configured level2 c) eqn:C2,
      (configured level3 c) eqn:C3;
      repeat match goal with
             | H : configured _ _ = true |- _ => apply configured_spec in H
             | H : configured _ _ = false |- _ =>
                 apply Bool.not_true_iff_false in H; rewrite configured_spec in H
             end;
      cbn [app In]; split;
      intros H; intuition (subst; try tauto; try contradiction). }
  split; [| split; [apply K | split]].
  - unfold _init_levels.
    destruct (configured level1 config_levels), (configured level2 config_levels),
      (configured level3 config_levels); cbn [app];
      repeat first [apply sublist_skip | apply sublist_cons | apply sublist_nil_l].
  - intros levels A. unfold parse_levels. rewrite A. reflexivity.
  - intros levels n A I. rewrite K. unfold parse_levels.
    rewrite (teqb_neq _ _ A), List.in_map_iff. split.
    + intros [[entry [E IE]] _]. exists entry. split; [exact IE |].
      apply List.app_inv_head in E. exact E.
    + intros [entry [IE E]]. split.
      * exists entry. split; [rewrite E; reflexivity | exact IE].
      * cbn in I. destruct I as [<- | [<- | [<- | []]]]; cbn; tauto.
Qed.

End LevelsOfARun.

Section SyntheticFiles.

Import Generation.

Variable py_str : json -> text.
Variable b64encode : text -> text.

(** A synthetic challenge has three test files when its type is one of
    the four templates, and two otherwise: the file that the rule should
    match, when there is one, comes first, and the last two files,
    legitimate.exe and partial_match.bin, should not be matched.  The
    names of the files are distinct, so each file has its own entry in
    the execution results. *)
Theorem synthetic_test_files_shape (challenge_type : text)
        (challenge_data : list (text * json)) (seed : text) (r1 r2 : nat) :
  let files := _generate_sophisticated_test_files py_str b64encode challenge_type
                 challenge_data seed r1 r2 in
  map should_match files
  = (if existsb (teqb challenge_type) template_types then [true] else [])
      ++ [false; false]
  /\ map tf_name (skipn (List.length files - 2) files)
     = [str "legitimate.exe"; str "partial_match.bin"]
  /\ List.NoDup (map tf_name files)
  /\ 2 <= List.length files <= 3.
Proof.
  cbv zeta. unfold _generate_sophisticated_test_files, matching_file, template_types.
  cbv zeta. cbn [existsb].
  destruct (teqb challenge_type (str "behavior_based"));
    [| destruct (teqb challenge_type (str "network_based"));
       [| destruct (teqb challenge_type (str "file_system"));
          [| destruct (teqb challenge_type (str "pe_analysis"))]]];
    cbn [orb app map should_match tf_name List.length Nat.sub skipn];
    (split; [reflexivity |]); (split; [reflexivity |]);
    (split; [| lia]);
    repeat (constructor; [cbn [In]; intros H; intuition discriminate |]);
    constructor.
Qed.

End SyntheticFiles.
